(** * Variant generation pipeline: theme selection, response parsing,
      batch orchestration and token ledger

    A shallow embedding of [backend/app.py] and [backend/main.py].

    Text.  A Python [str] is embedded as the list of the characters of its
    UTF-8 encoding ([text]).  The character classes used by the source
    ([str.isspace], [\s], [\d], [str.lower], [str.title], case-insensitive
    matching) are modelled on the ASCII range; characters outside it are
    carried through unchanged, and what depends on their class is stated for
    ASCII texts.

    Numbers.  The batch counts tokens in integers, as [count_tokens] does
    with [tiktoken] at hand, and its ledger adds them as integers; module
    [Ledger] has the floats of the fallback of [count_tokens] and the
    64-bit integers and floats of the SQLite row.

    External collaborators (the generation service, the tokenizer, the
    random generator, [uuid.uuid4], [json.loads]) are oracles: arguments of
    the definitions that call them. *)

From Stdlib Require Import ZArith List Ascii String Lia Permutation Bool.
From Corelib Require Import PrimFloat SpecFloat FloatOps.
From stdpp Require Import gmap strings list pretty.

Local Open Scope Z_scope.

(* ===================================================================== *)
(** * Part I. Definitions                                                  *)
(* ===================================================================== *)

Abbreviation text := (list ascii).

(** A string literal of the source. *)
Definition txt (s : string) : text := list_ascii_of_string s.

(** ** Python string operations *)

Definition LF : ascii := "010"%char.
Definition CR : ascii := "013"%char.
Definition TAB : ascii := "009"%char.
Definition BACKSLASH : ascii := "092"%char.
Definition DQUOTE : ascii := "034"%char.

Definition code (c : ascii) : nat := nat_of_ascii c.

(** The character classes and case mappings below are Python's on the
    characters of ASCII.  On other characters Python knows further white
    space (U+00A0 among them), further digits and further cased letters,
    and [re.IGNORECASE] lets U+0130 and U+0131 match the letter i; what is
    proved of the code through these classes is stated for texts that
    [isascii] accepts wherever the difference shows. *)

(** [s.isascii()] *)
Definition isascii (s : text) : bool :=
  forallb (fun c => (nat_of_ascii c <? 128)%nat) s.

(** [str.isspace] and the regular-expression class [\s]. *)
Definition isspace (c : ascii) : bool :=
  let n := code c in
  ((9 <=? n) && (n <=? 13) || (28 <=? n) && (n <=? 31) || (n =? 32))%nat.

(** The regular-expression class [\d]. *)
Definition isdigit (c : ascii) : bool :=
  let n := code c in ((48 <=? n) && (n <=? 57))%nat.

Definition isupper (c : ascii) : bool :=
  let n := code c in ((65 <=? n) && (n <=? 90))%nat.

Definition islower (c : ascii) : bool :=
  let n := code c in ((97 <=? n) && (n <=? 122))%nat.

Definition iscased (c : ascii) : bool := isupper c || islower c.

Definition to_lower (c : ascii) : ascii :=
  if isupper c then ascii_of_nat (code c + 32) else c.

Definition to_upper (c : ascii) : ascii :=
  if islower c then ascii_of_nat (code c - 32) else c.

(** [s.lower()] *)
Definition lower (s : text) : text := map to_lower s.

(** [s.title()]: a cased character is upper-cased when the character before
    it is not cased, and lower-cased otherwise. *)
Fixpoint title_from (previous_is_cased : bool) (s : text) : text :=
  match s with
  | [] => []
  | c :: s' =>
      (if previous_is_cased then to_lower c else to_upper c)
        :: title_from (iscased c) s'
  end.

Definition title (s : text) : text := title_from false s.

Fixpoint drop_while (p : ascii -> bool) (s : text) : text :=
  match s with
  | [] => []
  | c :: s' => if p c then drop_while p s' else s
  end.

Fixpoint take_while (p : ascii -> bool) (s : text) : text :=
  match s with
  | [] => []
  | c :: s' => if p c then c :: take_while p s' else []
  end.

Definition lstrip_by (p : ascii -> bool) (s : text) : text := drop_while p s.
Definition rstrip_by (p : ascii -> bool) (s : text) : text :=
  rev (drop_while p (rev s)).
Definition strip_by (p : ascii -> bool) (s : text) : text :=
  rstrip_by p (lstrip_by p s).

(** [s.strip()], [s.rstrip()] and [s.strip(ch)] *)
Definition strip (s : text) : text := strip_by isspace s.
Definition rstrip (s : text) : text := rstrip_by isspace s.
Definition strip_char (ch : ascii) (s : text) : text := strip_by (Ascii.eqb ch) s.

(** [s.startswith(p)] and [s.endswith(p)] *)
Fixpoint startswith (p s : text) : bool :=
  match p, s with
  | [], _ => true
  | _ :: _, [] => false
  | a :: p', b :: s' => Ascii.eqb a b && startswith p' s'
  end.

Definition endswith (p s : text) : bool := startswith (rev p) (rev s).

(** [sub in s] *)
Fixpoint contains (sub s : text) : bool :=
  startswith sub s ||
  match s with
  | [] => false
  | _ :: s' => contains sub s'
  end.

(** [s.find(ch)] for a single character: the first index, or -1. *)
Fixpoint find_from (ch : ascii) (s : text) (i : Z) : Z :=
  match s with
  | [] => -1
  | c :: s' => if Ascii.eqb c ch then i else find_from ch s' (i + 1)
  end.

Definition find (ch : ascii) (s : text) : Z := find_from ch s 0.

(** [s.rfind(ch)] for a single character: the last index, or -1. *)
Fixpoint rfind_from (ch : ascii) (s : text) (i last : Z) : Z :=
  match s with
  | [] => last
  | c :: s' => rfind_from ch s' (i + 1) (if Ascii.eqb c ch then i else last)
  end.

Definition rfind (ch : ascii) (s : text) : Z := rfind_from ch s 0 (-1).

(** [s[a:b]] for indices that are not negative. *)
Definition slice (s : text) (a b : Z) : text :=
  firstn (Z.to_nat (b - a)) (skipn (Z.to_nat a) s).

(** [s.replace(old, new)]: occurrences are replaced from left to right and do
    not overlap; [skip] counts the characters of the occurrence just replaced
    that are still to be passed over. *)
Fixpoint replace_from (skip : nat) (old new s : text) : text :=
  match s with
  | [] => []
  | c :: s' =>
      match skip with
      | S k => replace_from k old new s'
      | O =>
          if startswith old s
          then new ++ replace_from (length old - 1) old new s'
          else c :: replace_from 0 old new s'
      end
  end.

Definition replace (old new s : text) : text :=
  match old with
  | [] => new ++ flat_map (fun c => c :: new) s
  | _ :: _ => replace_from 0 old new s
  end.

(** [s.split(sep)] for a single-character separator *)
Fixpoint split_on (sep : ascii) (s : text) : list text :=
  match s with
  | [] => [[]]
  | c :: s' =>
      if Ascii.eqb c sep then [] :: split_on sep s'
      else match split_on sep s' with
           | piece :: pieces => (c :: piece) :: pieces
           | [] => [[c]]
           end
  end.

(** [sep.join(pieces)] *)
Fixpoint join (sep : text) (pieces : list text) : text :=
  match pieces with
  | [] => []
  | [p] => p
  | p :: ps => p ++ sep ++ join sep ps
  end.

(** ** Exceptions *)

(** The exceptions the code meets, each with its message. *)
Inductive exn :=
  | ValueError (message : text)
  | TypeError (message : text)
  | AttributeError (message : text)
  | RecursionError (message : text)
  | OverflowError (message : text).

(** [str(e)] *)
Definition str_exn (e : exn) : text :=
  match e with
  | ValueError message => message
  | TypeError message => message
  | AttributeError message => message
  | RecursionError message => message
  | OverflowError message => message
  end.

Inductive result (A : Type) :=
  | Return (a : A)
  | Raise (e : exn).
Arguments Return {A} a.
Arguments Raise {A} e.

(** ** Token ledger ([app.py], table [token_usage], row ['main'])

    The row is created by [init_database] when the module is loaded.  The
    two counters are modelled here as integers and their sums as those of
    Z: this is the ledger as long as every token count is an [int] and the
    counters stay within the 64 bits of an SQLite INTEGER.  Module [Ledger]
    below has the numbers as Python and SQLite have them. *)

Record TokenRow := mkTokenRow {
  session_tokens : Z;
  total_tokens : Z
}.

(** [UPDATE token_usage SET session_tokens = session_tokens + ?,
     total_tokens = total_tokens + ? WHERE session_id = 'main'] *)
Definition update_token_usage
    (session_tokens_increment total_tokens_increment : Z) (row : TokenRow)
  : TokenRow :=
  {| session_tokens := session_tokens row + session_tokens_increment;
     total_tokens := total_tokens row + total_tokens_increment |}.

(** [UPDATE token_usage SET session_tokens = 0 WHERE session_id = 'main'] *)
Definition reset_session_tokens (row : TokenRow) : TokenRow :=
  {| session_tokens := 0; total_tokens := total_tokens row |}.

(** [get_token_usage] *)
Definition get_token_usage (row : TokenRow) : Z * Z :=
  (session_tokens row, total_tokens row).

(** *** The ledger in the numbers of Python and of SQLite

    [count_tokens] returns an [int] when [tiktoken] is at hand and a [float]
    when it is not; the ledger is a row of a table whose two counters are
    columns of INTEGER affinity.  Module [Ledger] has the numbers as Python
    and SQLite have them: a float is a binary64 number, the integer stored
    in a column has 64 bits.  The definitions above are the ledger as long
    as every count is an [int] and the counters stay within these 64 bits. *)
Module Ledger.

(** A Python number: an [int], which is unbounded, or a [float]. *)
Inductive pynum :=
  | PyInt (n : Z)
  | PyFloat (x : float).

(** The float nearest to an integer, ties to even: [float(n)] in Python for
    an [n] that it can convert, and the cast to [double] of C. *)
Definition float_of_Z (n : Z) : float :=
  SF2Prim (binary_normalize prec emax n 0 false).

(** [float(n)] *)
Definition py_float (n : Z) : result float :=
  if PrimFloat.is_infinity (float_of_Z n)
  then Raise (OverflowError (txt "int too large to convert to float"))
  else Return (float_of_Z n).

(** [a + b] *)
Definition py_add (a b : pynum) : result pynum :=
  match a, b with
  | PyInt m, PyInt n => Return (PyInt (m + n))
  | PyInt m, PyFloat y =>
      match py_float m with
      | Return x => Return (PyFloat (x + y))
      | Raise e => Raise e
      end
  | PyFloat x, PyInt n =>
      match py_float n with
      | Return y => Return (PyFloat (x + y))
      | Raise e => Raise e
      end
  | PyFloat x, PyFloat y => Return (PyFloat (x + y))
  end.

(** The word [s] starts with, empty when [s] starts with white space, and
    the words after it. *)
Fixpoint split_words (s : text) : text * list text :=
  match s with
  | [] => ([], [])
  | c :: s' =>
      let '(word, words) := split_words s' in
      if isspace c then
        ([], match word with [] => words | _ :: _ => word :: words end)
      else (c :: word, words)
  end.

(** [s.split()] *)
Definition split (s : text) : list text :=
  let '(word, words) := split_words s in
  match word with
  | [] => words
  | _ :: _ => word :: words
  end.

(** The constant [1.3] of the source: the float nearest to it. *)
Definition one_point_three : float := 0x1.4cccccccccccdp+0%float.

(** [count_tokens].  [encode] is the encoder of [tiktoken], [None] where
    getting or running it raises; the length of a Python list is below
    [2^63], where [float_of_Z] is [float]. *)
Definition count_tokens (encode : text -> option (list Z)) (s : text) : pynum :=
  match encode s with
  | Some tokens => PyInt (Z.of_nat (length tokens))
  | None =>
      PyFloat (float_of_Z (Z.of_nat (length (split s))) * one_point_three)
  end.

(** What a column of the table holds. *)
Inductive sqlval :=
  | SqlNull
  | SqlInteger (n : Z)
  | SqlReal (x : float).

Definition int64_min : Z := - 2 ^ 63.
Definition int64_max : Z := 2 ^ 63 - 1.

Definition is_int64 (n : Z) : bool := (int64_min <=? n) && (n <=? int64_max).

(** A REAL is never the NaN: SQLite has NULL in its place. *)
Definition sql_real (x : float) : sqlval :=
  if PrimFloat.is_nan x then SqlNull else SqlReal x.

(** The value that [sqlite3] binds to a [?] for a Python number. *)
Definition sql_bind (v : pynum) : result sqlval :=
  match v with
  | PyInt n =>
      if is_int64 n then Return (SqlInteger n)
      else Raise (OverflowError
                    (txt "Python int too large to convert to SQLite INTEGER"))
  | PyFloat x => Return (sql_real x)
  end.

(** [a + b] in SQL: the sum of two integers is an integer unless it
    overflows; every other sum is the sum of two floats. *)
Definition sql_add (a b : sqlval) : sqlval :=
  match a, b with
  | SqlNull, _ => SqlNull
  | _, SqlNull => SqlNull
  | SqlInteger m, SqlInteger n =>
      if is_int64 (m + n) then SqlInteger (m + n)
      else sql_real (float_of_Z m + float_of_Z n)
  | SqlInteger m, SqlReal y => sql_real (float_of_Z m + y)
  | SqlReal x, SqlInteger n => sql_real (x + float_of_Z n)
  | SqlReal x, SqlReal y => sql_real (x + y)
  end.

(** The cast of a float to a 64-bit integer: towards zero, and to the
    nearest bound when it is out of range. *)
Definition int64_of_float (x : float) : Z :=
  match Prim2SF x with
  | S754_zero _ => 0
  | S754_infinity negative => if negative then int64_min else int64_max
  | S754_nan => 0
  | S754_finite negative m e =>
      let magnitude := Z.shiftl (Z.pos m) e in
      Z.max int64_min
        (Z.min int64_max (if negative then - magnitude else magnitude))
  end.

(** What a column of INTEGER affinity stores for a value: a float becomes
    an integer when the two are equal and the integer is neither the
    smallest nor the largest one. *)
Definition integer_affinity (v : sqlval) : sqlval :=
  match v with
  | SqlReal x =>
      let ix := int64_of_float x in
      if PrimFloat.eqb x (float_of_Z ix) && (int64_min <? ix) && (ix <? int64_max)
      then SqlInteger ix
      else v
  | _ => v
  end.

(** The row ['main'] of the table [token_usage]. *)
Record Row := mkRow {
  session_tokens : sqlval;
  total_tokens : sqlval
}.

(** The row that [init_database] inserts. *)
Definition initial_row : Row :=
  {| session_tokens := SqlInteger 0; total_tokens := SqlInteger 0 |}.

(** [update_token_usage]: the two increments are bound, then
    [UPDATE token_usage SET session_tokens = session_tokens + ?,
     total_tokens = total_tokens + ? WHERE session_id = 'main'] is run. *)
Definition update_token_usage
    (session_tokens_increment total_tokens_increment : pynum) (row : Row)
  : result Row :=
  match sql_bind session_tokens_increment with
  | Raise e => Raise e
  | Return session_increment =>
      match sql_bind total_tokens_increment with
      | Raise e => Raise e
      | Return total_increment =>
          Return
            {| session_tokens :=
                 integer_affinity (sql_add (session_tokens row) session_increment);
               total_tokens :=
                 integer_affinity (sql_add (total_tokens row) total_increment) |}
      end
  end.

(** [reset_session_tokens]:
    [UPDATE token_usage SET session_tokens = 0 WHERE session_id = 'main'] *)
Definition reset_session_tokens (row : Row) : Row :=
  {| session_tokens := SqlInteger 0; total_tokens := total_tokens row |}.

(** [get_token_usage] *)
Definition get_token_usage (row : Row) : sqlval * sqlval :=
  (session_tokens row, total_tokens row).

End Ledger.

(** The row that stores the two counters of a [TokenRow]. *)
Definition stored_row (row : TokenRow) : Ledger.Row :=
  {| Ledger.session_tokens := Ledger.SqlInteger (session_tokens row);
     Ledger.total_tokens := Ledger.SqlInteger (total_tokens row) |}.

(** ** Theme pool ([themes], the same list in [app.py] and [main.py]) *)

Definition themes : list text := map txt [
  "Coffee Shop Manager"; "Pizza Restaurant"; "Bakery Counter"; "Grocery Store";
  "Bookstore Inventory"; "Game Store"; "Electronics Shop"; "Fashion Boutique";
  "Pet Store Manager"; "Flower Shop"; "Music Store"; "Art Gallery";
  "Sports Equipment"; "Candy Store"; "Toy Shop"; "Pharmacy Counter";
  "Hardware Store"; "Car Rental"; "Hotel Booking"; "Travel Agency";
  "Fitness Gym"; "Restaurant Menu"; "Library System"; "Movie Theater";
  "School Supplies"; "Photography Studio"; "Beauty Salon"; "Laundromat";
  "Ice Cream Parlor"; "Juice Bar"; "Bike Rental"; "Camping Gear";
  "Wedding Planner"; "Food Truck"; "Antique Shop"; "Craft Store";
  "Supermarket Chain"; "Farmers Market"; "Butcher Shop"; "Seafood Market";
  "Book Café"; "Tattoo Studio"; "Barbershop"; "Nail Salon";
  "Daycare Center"; "E-learning Platform"; "Music Academy"; "Dance Studio";
  "Driving School"; "Language School"; "Martial Arts Dojo"; "Cooking Class";
  "Event Venue"; "Conference Center"; "Coworking Space"; "Startup Incubator";
  "Real Estate Agency"; "Property Rental"; "Interior Design Studio"; "Furniture Store";
  "Home Decor Shop"; "Lighting Store"; "Appliance Store"; "Mattress Shop";
  "Garden Center"; "Plant Nursery"; "Organic Store"; "Wine Shop";
  "Brewery Taproom"; "Sports Bar"; "Nightclub Manager"; "Concert Hall";
  "Theater Playhouse"; "Amusement Park"; "Zoo Management"; "Aquarium Center";
  "Theme Park"; "Arcade Center"; "Escape Room"; "Bowling Alley";
  "Skating Rink"; "Golf Course"; "Tennis Club"; "Soccer Academy";
  "Hospital Management"; "Clinic Reception"; "Dental Office"; "Veterinary Clinic";
  "Pharmaceutical Store"; "Optical Shop"; "Hearing Aid Center"; "Rehab Center";
  "Courier Service"; "Logistics Hub"; "Airline Booking"; "Shipping Company";
  "Taxi Service"; "Ride Sharing"; "Parking Garage"; "Fuel Station";
  "Tech Repair Shop"; "Mobile Store"; "Laptop Store"; "Watch Boutique";
  "Jewelry Store"; "Perfume Shop"; "Handbag Boutique"; "Shoe Store";
  "Surf Shop"; "Diving Center"; "Ski Resort"; "Snowboard Shop";
  "Mountain Guide"; "Hiking Supplies"; "Fishing Store"; "Hunting Shop";
  "Board Game Café"; "VR Arcade"; "Esports Arena"; "Streaming Studio";
  "Podcast Studio"; "Radio Station"; "TV Channel Manager"; "Film Production";
  "Animation Studio"; "Advertising Agency"; "Consulting Firm"; "HR Platform";
  "Payroll Service"; "Law Firm"; "Notary Office"; "Insurance Agency";
  "Bank Branch"; "Stock Brokerage"; "Investment Firm"; "Cryptocurrency Exchange";
  "Charity Organization"; "NGO Manager"; "Volunteer Center"; "Community Center";
  "Religious Organization"; "Church Management"; "Mosque Administration"; "Temple Management";
  "Resort Manager"; "Holiday Park"; "Hostel Manager"; "Bed and Breakfast";
  "Vacation Rentals"; "Timeshare Service"; "RV Rental"; "Yacht Rental";
  "Cruise Line"; "Train Service"; "Metro Station"; "Bus Depot";
  "Trucking Company"; "Warehousing Hub"; "Cold Storage"; "Freight Forwarding";
  "Drone Delivery"; "Postal Service"; "Bike Courier"; "Farmland Manager";
  "Dairy Farm"; "Poultry Farm"; "Fishery Farm"; "Aquaponics Farm";
  "Greenhouse Farming"; "Hydroponics Farm"; "Crop Trading"; "Fertilizer Shop";
  "Seed Store"; "Tractor Rental"; "Mining Operations"; "Oil Refinery";
  "Solar Energy Plant"; "Wind Farm"; "Hydropower Plant"; "Recycling Plant";
  "Construction Firm"; "Architecture Studio"; "Cement Factory"; "Steel Plant";
  "Clothing Store"; "Streetwear Shop"; "Sports Apparel"; "Tailor Shop";
  "Textile Factory"; "Leather Goods"; "Accessories Store"; "Cap Store";
  "Restaurant Chain"; "Buffet Restaurant"; "Fine Dining"; "Fast Food Outlet";
  "Burger Joint"; "Sandwich Shop"; "Steakhouse"; "Seafood Restaurant";
  "Vegan Café"; "Salad Bar"; "Soup Kitchen"; "Catering Service";
  "Ramen Shop"; "Sushi Bar"; "Dim Sum Place"; "Mexican Cantina";
  "French Bistro"; "Greek Taverna"; "Turkish Kebab Shop"; "Caribbean Restaurant";
  "Cupcake Store"; "Donut Shop"; "Chocolate Boutique"; "Crepe Stand";
  "Pancake House"; "Waffle Bar"; "Coffee Roastery"; "Bubble Tea Shop";
  "Gaming Café"; "Internet Café"; "Makerspace"; "Electronics Repair";
  "Drone Store"; "Smart Home Store"; "AR Experience Center"; "Tech Museum";
  "Airport Duty Free"; "Railway Station Shop"; "Pop-Up Shop"; "Music Festival Manager";
  "Conference Organizer"; "Sports League Manager"; "Basketball Team"; "Baseball Team";
  "Football Club"; "Olympics Committee"; "Circus Show"; "Comedy Club";
  "Medical Research Lab"; "Biotech Startup"; "Pharma Manufacturing"; "Health Insurance";
  "Yoga Studio"; "Meditation Center"; "Spa Resort"; "Ayurveda Clinic";
  "News Agency"; "Book Publisher"; "Printing Press"; "Stationery Shop";
  "Souvenir Shop"; "Gift Wrapping Service"; "Party Supplies"; "Costume Rental";
  "Photo Booth"; "DJ Service"; "Karaoke Bar"; "Open Mic Café";
  "Software Company"; "Web Design Agency"; "Game Development Studio"; "Cloud Hosting";
  "Robotics Startup"; "IoT Platform"; "Blockchain Startup"; "Metaverse Hub";
  "Wildlife Sanctuary"; "National Park"; "Botanical Garden"; "Heritage Site";
  "Science Center"; "Planetarium"; "Space Observatory"; "Rocket Launch Center";
  "City Hall"; "Post Office"; "Police Department"; "Fire Department";
  "Ambulance Service"; "Disaster Relief"; "Customs Office"; "Immigration Service";
  "Military Base"; "Airport Security"; "Playground"; "Water Park";
  "Laser Tag Arena"; "Go-Kart Track"; "Horse Riding School"; "Animal Shelter";
  "Dog Grooming"; "Cat Café"; "Elder Care Home"; "Retirement Community";
  "Boarding School"; "University Campus"; "Student Housing"; "Scholarship Fund";
  "Exam Prep Center"; "Research Institute"; "IT Training Center"; "Coding Bootcamp";
  "Virtual Classroom"; "MOOC Platform"; "Job Portal"; "Freelance Marketplace";
  "Gig Economy Platform"; "Remote Work Hub"; "Interior Landscaping"; "Pool Maintenance";
  "Roofing Company"; "Home Renovation"; "Carpentry Workshop"; "Plumbing Services";
  "Electrical Services"; "Solar Installer"; "Moving Company"; "Cleaning Services";
  "Pest Control"; "Security Services"; "CCTV Store"; "Alarm Installation";
  "Locksmith Services"; "Smart Security Hub"; "Baby Store"; "Maternity Shop";
  "Toy Rental"; "Kids Party Planner"; "Children’s Bookstore"; "Comic Convention";
  "Cosplay Shop"; "Boarding Kennel"; "Pet Daycare"; "Pet Hotel";
  "Exotic Pet Store"; "Aquarium Fish Shop"; "Bird Store"; "Reptile Shop";
  "Pet Grooming School"; "Dog Training Center"; "Organic Bakery"; "Gluten-Free Store";
  "Keto Café"; "Protein Bar"; "Smoothie Shop"; "Vegan Market";
  "Ethnic Grocery"; "Spice Shop"; "Olive Oil Shop"; "Cheese Store";
  "Butcher Deli"; "Farm-to-Table Restaurant"; "Artisan Coffee Roaster"; "Craft Brewery";
  "Whiskey Distillery"; "Gin Bar"; "Cigar Lounge"; "Shisha Café";
  "Hookah Bar"; "Wine Tasting Room"; "Luxury Spa"; "Thermal Baths";
  "Hot Spring Resort"; "Detox Center"; "Pilates Studio"; "CrossFit Gym";
  "Boxing Club"; "Climbing Gym"; "Skateboard Shop"; "Roller Rink";
  "Parkour Gym"; "Adventure Park"; "Drone Racing Arena"; "RC Car Track";
  "Model Train Store"; "LEGO Store"; "3D Printing Service"; "Makers Lab";
  "Prototype Studio"; "Electronics Lab"; "AR Gaming Arena"; "Mixed Reality Studio";
  "Digital Art Gallery"; "NFT Marketplace"; "Crypto Mining Farm"; "Token Exchange";
  "DeFi Platform"; "Metaverse Land Agency"; "Virtual Fashion Boutique"; "VR Fitness Studio";
  "Online Casino"; "Sports Betting"; "Horse Racing Track"; "Dog Racing Arena";
  "Lottery Kiosk"; "Bingo Hall"; "Community Radio"; "Indie Film Studio";
  "Streaming Platform"; "Music Label"; "Talent Scout"; "Modeling Agency";
  "Casting Studio"; "Script Writing Agency"; "Translation Service"; "Subtitling Service";
  "Voiceover Studio"; "Dubbing Studio"; "Content Creation Hub"; "Influencer Agency";
  "Social Media Agency"; "SEO Firm"; "Data Analytics Firm"; "AI Consultancy";
  "ML Research Lab"; "Cloud AI Service"; "Drone Photography"; "Aerial Mapping";
  "Survey Company"; "GIS Mapping"; "Real Estate Drone Tours"; "Property Management";
  "Condominium Manager"; "HOA Manager"; "Urban Planning Firm"; "Smart City Platform";
  "Transport Authority"; "Highway Management"; "Port Authority"; "Shipyard";
  "Harbor Management"; "Fisherman’s Wharf"; "Luxury Car Dealer"; "Used Car Dealer";
  "Motorcycle Shop"; "Scooter Rental"; "EV Charging Station"; "EV Rental";
  "Battery Swap Station"; "Green Energy Store"; "Charcoal Shop"; "BBQ Supplies";
  "Kitchen Equipment Store"; "Cooking Oil Shop"; "Packaging Supplies"; "Paper Mill";
  "Printing Ink Store"; "Label Printing"; "Advertising Print Shop"; "Merchandise Store";
  "Souvenir Kiosk"; "Festival Booth"; "Holiday Decor Store"; "Halloween Shop";
  "Christmas Market"; "Fireworks Stand"; "Gift Basket Store"; "Luxury Gifting Service";
  "Diamond Store"; "Gemstone Boutique"; "Goldsmith"; "Silversmith";
  "Engraving Shop"; "Watch Customization"; "Vintage Car Rental"; "Classic Car Restoration";
  "Motor Garage"; "Auto Parts Shop"; "Tire Shop"; "Car Wash";
  "Detailing Center"; "Tow Truck Service"; "Scrapyard"; "Metal Recycling";
  "E-waste Recycling"; "Battery Recycling"; "Eco-Friendly Products"; "Zero Waste Store";
  "Thrift Shop"; "Second-Hand Store"; "Pawn Broker"; "Consignment Store";
  "Auction House"; "Art Auction"; "Collector’s Shop"; "Stamp Shop";
  "Coin Shop"; "Antique Bookstore"; "Rare Vinyl Store"; "Vintage Clothing Shop";
  "Retro Arcade"; "Classic Game Shop"  
].

(** ** Identity assignment *)

(** [selected_theme.lower().replace(' ', '-').replace('store', '')
      .replace('shop', '').replace('manager', '').strip('-')] *)
Definition theme_suffix (selected_theme : text) : text :=
  strip_char "-"
    (replace (txt "manager") []
       (replace (txt "shop") []
          (replace (txt "store") []
             (replace (txt " ") (txt "-") (lower selected_theme))))).

(** [pool[(i - 1) % len(pool)]] for the unit index [i] of [range(1, n + 1)];
    the pools of the source are not empty. *)
Definition theme_at (pool : list text) (i : nat) : text :=
  nth ((i - 1) mod length pool)%nat pool [].

(** ** Regular-expression search and substitution

    The patterns of the source are embedded as matchers: a matcher looks at
    the text that starts at the current position and says whether the pattern
    matches there.  The patterns below are deterministic: the greedy choice of
    every repetition is the only one that can succeed, so a matcher follows
    the greedy path. *)

(** [re.search(pattern, s)]: the match at the leftmost position. *)
Fixpoint re_search {A : Type} (matcher : text -> option A) (s : text) : option A :=
  match matcher s with
  | Some g => Some g
  | None =>
      match s with
      | [] => None
      | _ :: s' => re_search matcher s'
      end
  end.

(** [re.sub(pattern, repl, s)] for a pattern that has no look-behind and never
    matches the empty string.  At a match the matcher gives the expanded
    replacement and the length of the match; [skip] counts the matched
    characters still to be passed over. *)
Fixpoint re_sub_from (matcher : text -> option (text * nat)) (skip : nat) (s : text)
  : text :=
  match s with
  | [] => []
  | c :: s' =>
      match skip with
      | S k => re_sub_from matcher k s'
      | O =>
          match matcher s with
          | Some (repl, len) => repl ++ re_sub_from matcher (len - 1) s'
          | None => c :: re_sub_from matcher 0 s'
          end
      end
  end.

Definition re_sub (matcher : text -> option (text * nat)) (s : text) : text :=
  re_sub_from matcher 0 s.

(** The number of characters consumed between a text and one of its suffixes. *)
Definition consumed (s rest : text) : nat := (length s - length rest)%nat.

(** ** JSON extraction and repair ([app.py]) *)

Definition is_quote (c : ascii) : bool := Ascii.eqb c DQUOTE.
Definition not_quote (c : ascii) : bool := negb (is_quote c).
Definition not_newline (c : ascii) : bool := negb (Ascii.eqb c LF).

(** The look-ahead of the pattern below ([.*], a double quote, characters
    other than the double quote, [$]): the rest of the line holds a double
    quote after which no double quote follows up to the end of the text. *)
Definition last_quote_on_this_line (rest : text) : bool :=
  existsb is_quote (take_while not_newline rest)
  && negb (existsb is_quote (drop_while not_newline rest)).

(** [re.sub] of the pattern: a line feed that no backslash precedes and that
    the look-ahead above follows.  The replacement template is the two
    characters backslash and [n], which [re.sub] expands to a line feed. *)
Fixpoint escape_bare_newlines_from (previous : option ascii) (s : text) : text :=
  match s with
  | [] => []
  | c :: s' =>
      (if Ascii.eqb c LF
          && negb (bool_decide (previous = Some BACKSLASH))
          && last_quote_on_this_line s'
       then [LF]
       else [c])
        ++ escape_bare_newlines_from (Some c) s'
  end.

Definition escape_bare_newlines (s : text) : text :=
  escape_bare_newlines_from None s.

(** The first lines of [clean_openai_json_response]: the markdown fence is
    removed and the text trimmed. *)
Definition strip_code_fences (response_text : text) : text :=
  let cleaned := strip response_text in
  let cleaned :=
    if startswith (txt "```json") cleaned then skipn 7 cleaned
    else if startswith (txt "```") cleaned then skipn 3 cleaned
    else cleaned in
  let cleaned :=
    if endswith (txt "```") cleaned
    then firstn (length cleaned - 3) cleaned
    else cleaned in
  strip cleaned.

Definition no_json_message : text := txt "No valid JSON object found in response".

(** What [json.loads] does with a text: it returns the value, or it raises
    [json.JSONDecodeError]; on a text nested too deeply for the interpreter
    it raises [RecursionError]; on an integer of more digits than the
    interpreter converts it raises a [ValueError] whose message starts as
    [digits_limit_message] does. *)
Inductive loads_outcome :=
  | LoadsValue
  | LoadsDecodeError
  | LoadsRecursionError (message : text)
  | LoadsDigitsError (detail : text).

Definition digits_limit_message : text := txt "Exceeds the limit (".

(** The exception that leaves [json.loads] when it is not a
    [json.JSONDecodeError]. *)
Definition loads_exception (outcome : loads_outcome) : option exn :=
  match outcome with
  | LoadsValue => None
  | LoadsDecodeError => None
  | LoadsRecursionError message => Some (RecursionError message)
  | LoadsDigitsError detail => Some (ValueError (digits_limit_message ++ detail))
  end.

Section JsonRepair.

(** [json.loads] on a text. *)
Variable json_loads : text -> loads_outcome.

(** [json.loads(s)] went through: the test of the [try] blocks of
    [attempt_json_repair], whose [except] clause catches every exception. *)
Definition loads_ok (s : text) : bool :=
  match json_loads s with
  | LoadsValue => true
  | LoadsDecodeError => false
  | LoadsRecursionError _ => false
  | LoadsDigitsError _ => false
  end.

(** The two [try] blocks catch [json.JSONDecodeError] alone: any other
    exception of [json.loads] leaves the function. *)
Definition clean_openai_json_response (response_text : text) : result text :=
  let cleaned := strip_code_fences response_text in
  let start_idx := find "{" cleaned in
  let end_idx := rfind "}" cleaned + 1 in
  if (start_idx =? -1) || (end_idx =? 0) then
    Raise (ValueError no_json_message)
  else
    let json_content := slice cleaned start_idx end_idx in
    match json_loads json_content with
    | LoadsValue => Return json_content
    | LoadsRecursionError message => Raise (RecursionError message)
    | LoadsDigitsError detail =>
        Raise (ValueError (digits_limit_message ++ detail))
    | LoadsDecodeError =>
        let json_content := escape_bare_newlines json_content in
        match json_loads json_content with
        | LoadsValue => Return json_content
        | LoadsDecodeError => Return json_content
        | LoadsRecursionError message => Raise (RecursionError message)
        | LoadsDigitsError detail =>
            Raise (ValueError (digits_limit_message ++ detail))
        end
    end.

(** Strategy 1:
    [s.replace('\n', '\\n').replace('\r', '\\r').replace('\t', '\\t')] *)
Definition escape_control_characters (s : text) : text :=
  replace [TAB] (txt "\t")
    (replace [CR] (txt "\r")
       (replace [LF] (txt "\n") s)).

(** A run of characters other than the double quote, then a double quote:
    the run, and the text after the quote. *)
Definition until_quote (s : text) : option (text * text) :=
  match drop_while not_quote s with
  | _ :: rest => Some (take_while not_quote s, rest)
  | [] => None
  end.

(** Strategy 2: [re.sub] of the pattern made of a colon, [\s*] and a double
    quote (group 1), then three times a run of characters other than the
    double quote (groups 2, 3 and 4), each followed by a double quote; the
    replacement puts a backslash before the second and the third of the four
    double quotes. *)
Definition match_inner_quotes (s : text) : option (text * nat) :=
  match s with
  | ":"%char :: s1 =>
      match drop_while isspace s1 with
      | "034"%char :: s2 =>
          match until_quote s2 with
          | Some (g2, s3) =>
              match until_quote s3 with
              | Some (g3, s4) =>
                  match until_quote s4 with
                  | Some (g4, s5) =>
                      Some ((":"%char :: take_while isspace s1 ++ [DQUOTE])
                              ++ g2 ++ [BACKSLASH; DQUOTE]
                              ++ g3 ++ [BACKSLASH; DQUOTE]
                              ++ g4 ++ [DQUOTE],
                            consumed s s5)
                  | None => None
                  end
              | None => None
              end
          | None => None
          end
      | _ => None
      end
  | _ => None
  end.

Definition escape_inner_quotes (s : text) : text := re_sub match_inner_quotes s.

Definition is_closer (c : ascii) : bool := Ascii.eqb c "}" || Ascii.eqb c "]".

(** Strategy 3: [re.sub] of a comma followed by [\s*] and a closing brace
    or bracket (group 1); the comma is removed. *)
Definition match_trailing_comma (s : text) : option (text * nat) :=
  match s with
  | ","%char :: s1 =>
      match drop_while isspace s1 with
      | c :: rest =>
          if is_closer c
          then Some (take_while isspace s1 ++ [c], consumed s rest)
          else None
      | [] => None
      end
  | _ => None
  end.

Definition remove_trailing_commas (s : text) : text :=
  re_sub match_trailing_comma s.

(** The counting loop of [fix_unterminated_strings]: a double quote counts
    when it is the first character or the character before it is not a
    backslash. *)
Fixpoint count_unescaped_quotes (previous : option ascii) (value_part : text) : nat :=
  match value_part with
  | [] => 0%nat
  | c :: rest =>
      ((if is_quote c && negb (bool_decide (previous = Some BACKSLASH))
        then 1 else 0)
       + count_unescaped_quotes (Some c) rest)%nat
  end.

Definition not_colon (c : ascii) : bool := negb (Ascii.eqb c ":").

(** The body of the [for line in lines] loop. *)
Definition fix_line (line : text) : text :=
  match drop_while not_colon line with
  | _ :: after_colon =>
      let value_part := strip after_colon in
      if Nat.odd (count_unescaped_quotes None value_part)
         && negb (endswith [DQUOTE] (rstrip value_part))
      then rstrip line ++ [DQUOTE]
      else line
  | [] => line
  end.

(** Strategy 4 *)
Definition fix_unterminated_strings (json_str : text) : text :=
  join [LF] (map fix_line (split_on LF json_str)).

(** Strategy 5: [re.sub] of a closing brace, [\s*] (group 1) and a double
    quote; a comma is inserted after the brace. *)
Definition match_missing_comma (s : text) : option (text * nat) :=
  match s with
  | "}"%char :: s1 =>
      match drop_while isspace s1 with
      | "034"%char :: rest =>
          Some (txt "}," ++ take_while isspace s1 ++ [DQUOTE], consumed s rest)
      | _ => None
      end
  | _ => None
  end.

Definition insert_missing_commas (s : text) : text :=
  re_sub match_missing_comma s.

Definition repair_strategies : list (text -> text) :=
  [ escape_control_characters;
    escape_inner_quotes;
    remove_trailing_commas;
    fix_unterminated_strings;
    insert_missing_commas ].

(** The [for i, strategy in enumerate(repair_strategies)] loop.  No strategy
    raises on a [str], so after a rejected attempt [current_json] is the
    text that attempt produced. *)
Fixpoint repair_loop (strategies : list (text -> text)) (current_json : text)
  : option text :=
  match strategies with
  | [] => None
  | strategy :: rest =>
      let repaired := strategy current_json in
      if loads_ok repaired then Some repaired
      else repair_loop rest repaired
  end.

(** [attempt_json_repair]: every exception is caught and turned into [None]. *)
Definition attempt_json_repair (response_text : text) : option text :=
  match clean_openai_json_response response_text with
  | Raise _ => None
  | Return cleaned => repair_loop repair_strategies cleaned
  end.

End JsonRepair.

(** ** Values of the response dictionaries *)

(** A test case of the request: a dictionary read with [dict.get], so every
    key may be absent. *)
Record TestCase := mkTestCase {
  tc_id : option text;
  tc_display_text : option text;
  tc_criteria : option text;
  tc_evaluation_type : option text;
  tc_order : option Z;
  tc_reason_for_failure : option text;
  tc_weightage : option Z
}.

(** A test case as [format_test_cases_from_original] builds it. *)
Record FormattedTestCase := mkFormattedTestCase {
  ftc_id : text;
  ftc_display_text : text;
  ftc_criteria : text;
  ftc_evaluation_type : text;
  ftc_order : Z;
  ftc_reason_for_failure : option text;
  ftc_weightage : Z
}.

Inductive pyval :=
  | PStr (s : text)
  | PTests (cases : list FormattedTestCase).

Global Instance pyval_inhabited : Inhabited pyval := populate (PStr []).

(** ** Delimiter protocol ([parse_structured_response]) *)

(** [THEME:\s*(.+)], group 1.  After the greedy white space the rest of the
    line is taken.  When the white space runs to the end of the text the
    pattern backtracks to the last white-space character that is not a line
    feed, which is then the whole group. *)
Definition match_theme (s : text) : option text :=
  if startswith (txt "THEME:") s then
    let rest := skipn 6 s in
    match drop_while isspace rest with
    | (_ :: _) as tail => Some (take_while not_newline tail)
    | [] =>
        match drop_while (Ascii.eqb LF) (rev (take_while isspace rest)) with
        | c :: _ => Some [c]
        | [] => None
        end
    end
  else None.

Definition replica_word : text := txt "replica".

(** The optional hyphen [-?] *)
Definition skip_hyphen (s : text) : text :=
  match s with
  | c :: after_hyphen => if Ascii.eqb c "-" then after_hyphen else s
  | [] => s
  end.

(** [\s*-?\s*Replica\s*\d*\s*] with [re.IGNORECASE]; the replacement is the
    empty text. *)
Definition match_replica (s : text) : option (text * nat) :=
  let s3 := drop_while isspace (skip_hyphen (drop_while isspace s)) in
  if startswith replica_word (lower s3) then
    let s4 := skipn 7 s3 in
    let s5 := drop_while isspace s4 in
    let s6 := drop_while isdigit s5 in
    let s7 := drop_while isspace s6 in
    Some ([], consumed s s7)
  else None.

Definition untitled_theme : text := txt "Untitled Theme".
Definition custom_theme : text := txt "Custom Theme".

(** The theme line before the placeholder is put in: the trimmed result of
    the substitution. *)
Definition sanitize_theme (raw_theme : text) : text :=
  strip (re_sub match_replica raw_theme).

Definition extract_theme (response_text : text) : text :=
  let raw_theme :=
    match re_search match_theme response_text with
    | Some group => strip group
    | None => untitled_theme
    end in
  let theme := sanitize_theme raw_theme in
  if bool_decide (theme = []) then custom_theme else theme.

(** ** The theme line laid out around copies of the marker

    A theme line is laid out below as segments with a copy of the marker
    [\s*-?\s*Replica\s*\d*\s*] after each of them, and an ending.  The
    fields of a copy are the parts of the pattern, each as long as the
    pattern takes it. *)
Record ReplicaMarker := mkReplicaMarker {
  lead_space : text;
  has_hyphen : bool;
  hyphen_space : text;
  marker_word : text;
  word_space : text;
  marker_digits : text;
  trail_space : text
}.

Definition marker_text (m : ReplicaMarker) : text :=
  lead_space m ++ (if has_hyphen m then ["-"%char] else []) ++ hyphen_space m
  ++ marker_word m ++ word_space m ++ marker_digits m ++ trail_space m.

(** The fields are of their classes; white space between the hyphen and the
    word is there only after a hyphen, and white space after the digits only
    after a digit (any other is part of the field before). *)
Definition marker_ok (m : ReplicaMarker) : bool :=
  forallb isspace (lead_space m)
  && forallb isspace (hyphen_space m)
  && (has_hyphen m || bool_decide (hyphen_space m = []))
  && bool_decide (lower (marker_word m) = replica_word)
  && forallb isspace (word_space m)
  && forallb isdigit (marker_digits m)
  && forallb isspace (trail_space m)
  && (negb (bool_decide (marker_digits m = []))
      || bool_decide (trail_space m = [])).

(** The segment before a copy of the marker does not end in white space,
    and it ends in a hyphen only when the copy has its own. *)
Definition segment_end_clear (segment : text) (m : ReplicaMarker) : bool :=
  match last segment with
  | None => true
  | Some z => negb (isspace z) && (negb (Ascii.eqb z "-") || has_hyphen m)
  end.

(** What follows a copy of the marker does not start with white space, nor
    with a digit when the copy ends with its word, its white space or its
    digits. *)
Definition starts_clear (m : ReplicaMarker) (rest : text) : bool :=
  match rest with
  | [] => true
  | c :: _ =>
      negb (isspace c)
      && (negb (isdigit c) || negb (bool_decide (trail_space m = [])))
  end.

Fixpoint layout (pieces : list (text * ReplicaMarker)) (ending : text) : text :=
  match pieces with
  | [] => ending
  | (segment, m) :: more => segment ++ marker_text m ++ layout more ending
  end.

(** No segment holds the word, nor does the ending, and the copies of the
    marker are set off from the segments around them. *)
Fixpoint well_separated (pieces : list (text * ReplicaMarker)) (ending : text)
  : bool :=
  match pieces with
  | [] => negb (contains replica_word (lower ending))
  | (segment, m) :: more =>
      negb (contains replica_word (lower segment))
      && segment_end_clear segment m
      && marker_ok m
      && starts_clear m (layout more ending)
      && well_separated more ending
  end.

(** What a copy of the marker starts with: white space, the hyphen, or the
    first letter of the word. *)
Definition marker_head (s : text) : Prop :=
  exists h s', s = h :: s'
               /\ (isspace h = true \/ h = "-"%char \/ to_lower h = "r"%char).

(** The segments and the ending, joined. *)
Definition kept_text (pieces : list (text * ReplicaMarker)) (ending : text)
  : text :=
  concat (map fst pieces) ++ ending.

(** The lazy group [(.*?)] with [re.DOTALL]: the shortest text after which
    the rest of the pattern matches. *)
Fixpoint lazy_until (stop : text -> bool) (s : text) : option text :=
  if stop s then Some []
  else match s with
       | [] => None
       | c :: s' =>
           match lazy_until stop s' with
           | Some g => Some (c :: g)
           | None => None
           end
       end.

(** [START\s*(.*?)\s*END] with [re.DOTALL], group 1 *)
Definition match_section (start_tag end_tag : text) (s : text) : option text :=
  if startswith start_tag s then
    lazy_until (fun rest => startswith end_tag (drop_while isspace rest))
      (drop_while isspace (skipn (length start_tag) s))
  else None.

Definition extract_section (start_tag end_tag : text) (response_text : text) : text :=
  match re_search (match_section start_tag end_tag) response_text with
  | Some group => strip group
  | None => []
  end.

(** [parse_structured_response]; on a [str] no step of the [try] block
    raises, so the dictionary is always returned. *)
Definition parse_structured_response (response_text : text)
  : option (gmap string pyval) :=
  let theme := extract_theme response_text in
  let html_code := extract_section (txt "HTML_START") (txt "HTML_END") response_text in
  let css_code := extract_section (txt "CSS_START") (txt "CSS_END") response_text in
  let js_code := extract_section (txt "JS_START") (txt "JS_END") response_text in
  let question_text :=
    extract_section (txt "QUESTION_START") (txt "QUESTION_END") response_text in
  let test_cases_text :=
    extract_section (txt "TESTS_START") (txt "TESTS_END") response_text in
  Some (list_to_map
          [ ("short_text"%string, PStr theme);
            ("html_code"%string, PStr html_code);
            ("css_code"%string, PStr css_code);
            ("js_code"%string, PStr js_code);
            ("question_text"%string, PStr question_text);
            ("test_cases"%string, PStr test_cases_text);
            ("html_solution"%string, PStr html_code);
            ("css_solution"%string, PStr css_code);
            ("js_solution"%string, PStr js_code);
            ("subtopic"%string, PStr []);
            ("course"%string, PStr []);
            ("module"%string, PStr []);
            ("unit"%string, PStr []) ]).

(** ** Tags and test cases ([app.py]) *)

(** A [text] holds the UTF-8 encoding of a Python [str]: a character is a
    lead byte followed by its continuation bytes, those of the form
    10xxxxxx. *)
Definition is_continuation (c : ascii) : bool :=
  (128 <=? nat_of_ascii c)%nat && (nat_of_ascii c <? 192)%nat.

(** [s[:k]] for a [k] that is not negative: the first [k] characters. *)
Fixpoint take_chars (k : nat) (s : text) : text :=
  match s with
  | [] => []
  | c :: rest =>
      if is_continuation c then c :: take_chars k rest
      else match k with
           | O => []
           | S k' => c :: take_chars k' rest
           end
  end.

(** [len(s)]: the number of characters. *)
Definition char_count (s : text) : nat :=
  length (List.filter (fun c => negb (is_continuation c)) s).

(** The continuation bytes [s] starts with, and the characters after them. *)
Fixpoint split_characters (s : text) : text * list text :=
  match s with
  | [] => ([], [])
  | c :: rest =>
      let '(continuation, chars) := split_characters rest in
      if is_continuation c then (c :: continuation, chars)
      else ([], (c :: continuation) :: chars)
  end.

(** [iter(s)]: the characters of [s], each a text of its own. *)
Definition characters (s : text) : list text := snd (split_characters s).

(** The value the request carries under [tag_names] is whatever JSON value
    the client sent.  The values that are neither a string, a list nor an
    object, by their Python type: *)
Inductive py_scalar := PyNone | PyBool | PyInt | PyFloat.

(** An element of a list sent as [tag_names]. *)
Inductive tag_value :=
  | TagStr (s : text)
  | TagScalar (t : py_scalar)
  | TagList
  | TagDict.

(** [data.get('tag_names', [])]: the empty list when the key is absent.
    Iterating an object yields its keys. *)
Inductive tag_names_value :=
  | TagNamesList (tags : list tag_value)
  | TagNamesStr (s : text)
  | TagNamesDict (keys : list text)
  | TagNamesScalar (t : py_scalar).

(** [type(v).__name__] *)
Definition scalar_type_name (t : py_scalar) : text :=
  match t with
  | PyNone => txt "NoneType"
  | PyBool => txt "bool"
  | PyInt => txt "int"
  | PyFloat => txt "float"
  end.

Definition tag_type_name (tag : tag_value) : text :=
  match tag with
  | TagStr _ => txt "str"
  | TagScalar t => scalar_type_name t
  | TagList => txt "list"
  | TagDict => txt "dict"
  end.

(** The [for tag in tag_list] loop of [extract_tag_value]:
    [tag.startswith] is an attribute of strings only. *)
Fixpoint extract_tag_loop (tags : list tag_value) (prefix : text) : result text :=
  match tags with
  | [] => Return []
  | TagStr tag :: tags =>
      if startswith prefix tag
      then Return (title (replace (txt "_") (txt " ") (replace prefix [] tag)))
      else extract_tag_loop tags prefix
  | tag :: _ =>
      Raise (AttributeError
               (txt "'" ++ tag_type_name tag
                ++ txt "' object has no attribute 'startswith'"))
  end.

(** [extract_tag_value] *)
Definition extract_tag_value (tag_list : tag_names_value) (prefix : text)
  : result text :=
  match tag_list with
  | TagNamesList tags => extract_tag_loop tags prefix
  | TagNamesStr s => extract_tag_loop (TagStr <$> characters s) prefix
  | TagNamesDict keys => extract_tag_loop (TagStr <$> keys) prefix
  | TagNamesScalar t =>
      Raise (TypeError (txt "'" ++ scalar_type_name t
                        ++ txt "' object is not iterable"))
  end.

(** The dictionary display that [generate_replicas] of [app.py] passes to
    [replica_data.update]: its four values are computed in the order they
    are written, and the first call that raises ends the computation. *)
Definition tag_metadata (tag_names : tag_names_value)
  : result (text * text * text * text) :=
  match extract_tag_value tag_names (txt "SUB_TOPIC_") with
  | Raise e => Raise e
  | Return subtopic =>
      match extract_tag_value tag_names (txt "COURSE_") with
      | Raise e => Raise e
      | Return course =>
          match extract_tag_value tag_names (txt "MODULE_") with
          | Raise e => Raise e
          | Return module_ =>
              match extract_tag_value tag_names (txt "UNIT_") with
              | Raise e => Raise e
              | Return unit_ => Return (subtopic, course, module_, unit_)
              end
          end
      end
  end.

(** [l[:k]] *)
Definition take_py {A : Type} (k : Z) (l : list A) : list A :=
  if 0 <=? k then firstn (Z.to_nat k) l
  else firstn (length l - Z.to_nat (- k)) l.

(** The [for i, test_case in enumerate(...)] loop of
    [format_test_cases_from_original].  [uuid4] is the stream of the
    identifiers that [uuid.uuid4] hands out and [next] the number of those
    already drawn. *)
Fixpoint format_each (uuid4 : nat -> text) (i : Z) (cases : list TestCase) (next : nat)
  : list FormattedTestCase * nat :=
  match cases with
  | [] => ([], next)
  | test_case :: rest =>
      let test_case_id := uuid4 next in
      let formatted_test_case :=
        {| ftc_id := test_case_id;
           ftc_display_text := default [] (tc_display_text test_case);
           ftc_criteria := default [] (tc_criteria test_case);
           ftc_evaluation_type :=
             default (txt "CLIENT_SIDE_EVALUATION") (tc_evaluation_type test_case);
           ftc_order := default (i + 1) (tc_order test_case);
           ftc_reason_for_failure := tc_reason_for_failure test_case;
           ftc_weightage := default 10 (tc_weightage test_case) |} in
      let '(formatted, next') := format_each uuid4 (i + 1) rest (S next) in
      (formatted_test_case :: formatted, next')
  end.

(** [format_test_cases_from_original(original_test_cases, num_replicas)];
    [num_replicas] is [None] when the argument is left out.  The argument
    [original_test_cases] is a list here, so the [isinstance] guard, which
    returns the empty list for anything else, is passed. *)
Definition format_test_cases_from_original
    (uuid4 : nat -> text) (original_test_cases : list TestCase)
    (num_replicas : option Z) (next : nat)
  : list FormattedTestCase * nat :=
  let max_test_cases := Z.of_nat (length original_test_cases) in
  let max_test_cases :=
    match num_replicas with
    | Some n => if negb (n =? 0) && (n <? max_test_cases) then n else max_test_cases
    | None => max_test_cases
    end in
  format_each uuid4 0 (take_py max_test_cases original_test_cases) next.

(** ** Batch orchestration ([generate_replicas]) *)

(** The request after the check of the required fields: [num_replicas] is
    [int(data['num_replicas'])], the four optional texts are read with
    [data.get(key, '')]. *)
Record Request := mkRequest {
  req_test_cases : list TestCase;
  req_tag_names : tag_names_value;
  req_num_replicas : Z;
  req_subtopic : option text;
  req_course : option text;
  req_module : option text;
  req_unit : option text
}.

(** What [openai.ChatCompletion.create] does for one unit: it raises, or the
    content of the first choice is read from the response. *)
Inductive api_result :=
  | ApiRaises (message : text)
  | ApiReturns (response_content : text).

(** The state of the [for i in range(1, num_replicas + 1)] loop.  [dispatched]
    lists, latest first, the identities compiled into the prompts sent so
    far: unit index, theme, identifier suffix. *)
Record BatchState := mkBatchState {
  all_replicas : gmap string (gmap string pyval);
  total_output_tokens : Z;
  next_uuid : nat;
  dispatched : list (nat * text * text)
}.

(** [f'replica_{i}'] *)
Definition replica_key (i : nat) : string := "replica_" +:+ pretty i.

Definition api_error_entry (message : text) : gmap string pyval :=
  {[ "error"%string := PStr (txt "API Error: " ++ message) ]}.

Definition parse_failure_entry (i : nat) (response_content : text)
  : gmap string pyval :=
  <[ "error"%string :=
       PStr (txt ("Failed to parse structured response for replica " +:+ pretty i)) ]>
    {[ "raw_response"%string := PStr (take_chars 500 response_content) ]}.

(** The entry of the [except Exception as e] arm of the inner [try] of
    [app.py]. *)
Definition parse_exception_entry (i : nat) (e : exn) (response_content : text)
  : gmap string pyval :=
  <[ "error"%string :=
       PStr (txt ("Failed to parse replica " +:+ pretty i +:+ ": ") ++ str_exn e) ]>
    {[ "raw_response"%string := PStr (take_chars 500 response_content) ]}.

(** [entry.update({'subtopic': .., 'course': .., 'module': .., 'unit': ..})] *)
Definition update_metadata (subtopic course module_ unit_ : text)
    (entry : gmap string pyval) : gmap string pyval :=
  <[ "unit"%string := PStr unit_ ]>
    (<[ "module"%string := PStr module_ ]>
       (<[ "course"%string := PStr course ]>
          (<[ "subtopic"%string := PStr subtopic ]> entry))).

(** The response of the endpoint. *)
Record BatchResponse := mkBatchResponse {
  replicas : gmap string (gmap string pyval);
  input_tokens : Z;
  output_tokens : Z;
  response_total_tokens : Z;
  session_usage : Z * Z
}.

Inductive http_response :=
  | Ok200 (body : BatchResponse)
  | Error500 (message : text).

Section Batch.

(** The generation service, asked for unit [i] with the prompt compiled
    from the request, the theme, the suffix and the palette. *)
Variable service : nat -> text -> text -> api_result.

(** The tokenizer: [count_tokens] with [tiktoken] at hand, which returns
    the number of tokens, an [int]; [Ledger.count_tokens] has the estimate
    that it returns without [tiktoken]. *)
Variable count_tokens : text -> Z.

(** [uuid.uuid4]: the stream of identifiers. *)
Variable uuid4 : nat -> text.

(** The parsing step: [parse_structured_response] below, which catches what
    is raised inside it and returns [None] then; the loop body is written for
    any parser so that its failure arm can be exercised. *)
Variable parse : text -> option (gmap string pyval).

(** The request, the compiled prompt, the configured key. *)
Variable data : Request.
Variable formatted_prompt : text.
Variable current_api_key : text.

(** The outcome of the inner [try] of [app.py] once the response is there.
    The test cases are formatted, and their identifiers drawn, before the
    tags are read; what the reading of the tags raises is caught by the
    [except Exception as e] arm. *)
Definition record_response_app (i : nat) (response_content : text) (next : nat)
  : gmap string pyval * nat :=
  match parse response_content with
  | Some replica_data =>
      if bool_decide (replica_data = ∅) then
        (parse_failure_entry i response_content, next)
      else
        let original_test_cases := req_test_cases data in
        let '(formatted_test_cases, next') :=
          format_test_cases_from_original uuid4 original_test_cases
            (Some (Z.of_nat (length original_test_cases))) next in
        let replica_data :=
          <[ "test_cases"%string := PTests formatted_test_cases ]> replica_data in
        match tag_metadata (req_tag_names data) with
        | Return (subtopic, course, module_, unit_) =>
            (update_metadata subtopic course module_ unit_ replica_data, next')
        | Raise e => (parse_exception_entry i e response_content, next')
        end
  | None => (parse_failure_entry i response_content, next)
  end.

(** The outcome of the inner [try] of [main.py]. *)
Definition record_response_main (i : nat) (response_content : text) (next : nat)
  : gmap string pyval * nat :=
  match parse response_content with
  | Some replica_data =>
      if bool_decide (replica_data = ∅) then
        (parse_failure_entry i response_content, next)
      else (replica_data, next)
  | None => (parse_failure_entry i response_content, next)
  end.

(** One turn of the loop, for the pool the themes are read from and the
    inner [try] of the file. *)
Definition unit_step
    (pool : list text)
    (record_response : nat -> text -> nat -> gmap string pyval * nat)
    (st : BatchState) (i : nat) : BatchState :=
  let selected_theme := theme_at pool i in
  let suffix := theme_suffix selected_theme in
  let log := (i, selected_theme, suffix) :: dispatched st in
  match service i selected_theme suffix with
  | ApiRaises message =>
      {| all_replicas := <[ replica_key i := api_error_entry message ]> (all_replicas st);
         total_output_tokens := total_output_tokens st;
         next_uuid := next_uuid st;
         dispatched := log |}
  | ApiReturns response_content =>
      let '(entry, next') := record_response i response_content (next_uuid st) in
      {| all_replicas := <[ replica_key i := entry ]> (all_replicas st);
         total_output_tokens := total_output_tokens st + count_tokens response_content;
         next_uuid := next';
         dispatched := log |}
  end.

Definition initial_state (next : nat) : BatchState :=
  {| all_replicas := ∅; total_output_tokens := 0; next_uuid := next; dispatched := [] |}.

(** [range(1, num_replicas + 1)] *)
Definition unit_indices (num_replicas : Z) : list nat :=
  seq 1 (Z.to_nat num_replicas).

Definition run_units
    (pool : list text)
    (record_response : nat -> text -> nat -> gmap string pyval * nat)
    (next : nat) : BatchState :=
  fold_left (unit_step pool record_response)
    (unit_indices (req_num_replicas data)) (initial_state next).

(** The end of [generate_replicas], the same in both files: the token
    counters, and the loop that puts the request's own [subtopic], [course],
    [module] and [unit] on every entry. *)
Definition finish (st : BatchState) (usage : Z -> TokenRow -> TokenRow)
    (ledger : TokenRow) : BatchResponse * TokenRow :=
  let input := count_tokens formatted_prompt in
  let total_request_tokens := input + total_output_tokens st in
  let ledger' := usage total_request_tokens ledger in
  let generated_replicas :=
    update_metadata
      (default [] (req_subtopic data)) (default [] (req_course data))
      (default [] (req_module data)) (default [] (req_unit data))
      <$> all_replicas st in
  ({| replicas := generated_replicas;
      input_tokens := input;
      output_tokens := total_output_tokens st;
      response_total_tokens := total_request_tokens;
      session_usage := get_token_usage ledger' |},
   ledger').

(** [generate_replicas] of [app.py], from the check of the API key on.
    [shuffled_themes] is what [random.shuffle] made of the copy of
    [themes]; the ledger is the database row. *)
Definition generate_replicas_app
    (shuffled_themes : list text) (next : nat) (ledger : TokenRow)
  : http_response * TokenRow * nat :=
  if bool_decide (current_api_key = []) then
    (Error500 (txt "OpenAI API key not configured"), ledger, next)
  else
    let st := run_units shuffled_themes record_response_app next in
    let '(body, ledger') :=
      finish st (fun t => update_token_usage t t) ledger in
    (Ok200 body, ledger', next_uuid st).

(** [generate_replicas] of [main.py]: [shuffled_themes] is computed but the
    loop reads [themes]; the ledger is the module's [token_usage]
    dictionary. *)
Definition generate_replicas_main
    (shuffled_themes : list text) (next : nat) (ledger : TokenRow)
  : http_response * TokenRow * nat :=
  if bool_decide (current_api_key = []) then
    (Error500 (txt "OpenAI API key not configured"), ledger, next)
  else
    let st := run_units themes record_response_main next in
    let '(body, ledger') :=
      finish st (fun t row =>
                   {| session_tokens := session_tokens row + t;
                      total_tokens := total_tokens row + t |}) ledger in
    (Ok200 body, ledger', next_uuid st).

End Batch.

(** The two endpoints as deployed: the parsing step is
    [parse_structured_response]. *)
Module App.
Definition generate_replicas
    (service : nat -> text -> text -> api_result) (count_tokens : text -> Z)
    (uuid4 : nat -> text) :=
  generate_replicas_app service count_tokens uuid4 parse_structured_response.
End App.

Module Main.
Definition generate_replicas
    (service : nat -> text -> text -> api_result) (count_tokens : text -> Z) :=
  generate_replicas_main service count_tokens parse_structured_response.
End Main.

(** ** The repair chain as the specification words it

    Each strategy receives the output of the previous attempt; the first
    attempt that parses wins. *)

(** The successive attempts: the first strategy applied to the cleaned text,
    the second to the result of the first, and so on. *)
Fixpoint chained_attempts (strategies : list (text -> text)) (previous : text)
  : list text :=
  match strategies with
  | [] => []
  | strategy :: rest => strategy previous :: chained_attempts rest (strategy previous)
  end.

(** The first element that satisfies the test. *)
Definition first_accepted (accepts : text -> bool) (attempts : list text)
  : option text :=
  List.find accepts attempts.

(** ** Notions used to state the properties of the batch *)

Section BatchNotions.

Variable service : nat -> text -> text -> api_result.
Variable pool : list text.
Variable record_response : nat -> text -> nat -> gmap string pyval * nat.

(** What the turn for unit [i] stores in its slot, and the identifier
    counter it leaves, when it starts with the counter at [next]. *)
Definition unit_entry (i : nat) (next : nat) : gmap string pyval * nat :=
  match service i (theme_at pool i) (theme_suffix (theme_at pool i)) with
  | ApiRaises message => (api_error_entry message, next)
  | ApiReturns response_content => record_response i response_content next
  end.

(** The identifier counter after the turns for the units of [l]. *)
Fixpoint counter_after (l : list nat) (next : nat) : nat :=
  match l with
  | [] => next
  | i :: l' => counter_after l' (snd (unit_entry i next))
  end.

End BatchNotions.

(** The keys written by [update_metadata]. *)
Definition metadata_keys : gset string :=
  {[ "subtopic"%string; "course"%string; "module"%string; "unit"%string ]}.

(** The parsing step failed: [None], or a dictionary that is empty. *)
Definition parse_failed (parsed : option (gmap string pyval)) : Prop :=
  parsed = None \/ parsed = Some ∅.

(** The copy of the original test case that stands at [position], when the
    identifiers of the copies are drawn from [first_id] on. *)
Definition copy_of (uuid4 : nat -> text) (first_id position : nat)
    (original : TestCase) : FormattedTestCase :=
  {| ftc_id := uuid4 (first_id + position)%nat;
     ftc_display_text := default [] (tc_display_text original);
     ftc_criteria := default [] (tc_criteria original);
     ftc_evaluation_type :=
       default (txt "CLIENT_SIDE_EVALUATION") (tc_evaluation_type original);
     ftc_order := default (Z.of_nat position + 1) (tc_order original);
     ftc_reason_for_failure := tc_reason_for_failure original;
     ftc_weightage := default 10 (tc_weightage original) |}.

(** The copies of all the originals, in their order. *)
Definition copies (uuid4 : nat -> text) (first_id : nat) (originals : list TestCase)
  : list FormattedTestCase :=
  imap (copy_of uuid4 first_id) originals.

(** The four values of the tags were read without an exception. *)
Definition tags_read (tag_names : tag_names_value) : bool :=
  match tag_metadata tag_names with
  | Return _ => true
  | Raise _ => false
  end.

(** The unit was parsed: its call returned and the parser gave a dictionary
    that is not empty. *)
Definition parsed_unit (service : nat -> text -> text -> api_result)
    (parse : text -> option (gmap string pyval)) (pool : list text) (i : nat)
  : Prop :=
  exists content replica_data,
    service i (theme_at pool i) (theme_suffix (theme_at pool i))
    = ApiReturns content
    /\ parse content = Some replica_data /\ replica_data <> ∅.

(** The slot of a key in the answer of the endpoint. *)
Definition response_slot (answer : http_response * TokenRow * nat) (k : string)
  : option (gmap string pyval) :=
  match answer with
  | (Ok200 body, _, _) => replicas body !! k
  | (Error500 _, _, _) => None
  end.

(** A field of the entry in the slot of a key. *)
Definition response_field (answer : http_response * TokenRow * nat)
    (k field : string) : option pyval :=
  response_slot answer k ≫= (fun entry => entry !! field).

(** ** Sample collaborators and requests *)

(** A service whose call always raises, with the theme it was asked for as
    the message. *)
Definition raising_service : nat -> text -> text -> api_result :=
  fun _ selected_theme _ => ApiRaises selected_theme.

(** A service that answers every unit with the same delimited text. *)
Definition bakery_response : text :=
  txt "THEME: Bakery
HTML_START
<p id=total-bakery></p>
HTML_END".

Definition bakery_service : nat -> text -> text -> api_result :=
  fun _ _ _ => ApiReturns bakery_response.

Definition length_tokens : text -> Z := fun s => Z.of_nat (length s).

(** Identifiers numbered in the order they are drawn. *)
Definition numbered_uuid4 : nat -> text := fun k => txt ("uuid-" +:+ pretty k).

Definition empty_ledger : TokenRow := {| session_tokens := 0; total_tokens := 0 |}.

(** The two test cases and the tags of [test_api.py]. *)
Definition test_api_cases : list TestCase :=
  [ {| tc_id := Some (txt "test-1");
       tc_display_text :=
         Some (txt "When the Calculate button is clicked, it should show result");
       tc_criteria :=
         Some (txt "document.getElementById('calculate').click(); const result = document.getElementById('result').textContent; assert(result === 'Clicked');");
       tc_evaluation_type := Some (txt "CLIENT_SIDE_EVALUATION");
       tc_order := Some 1;
       tc_reason_for_failure := None;
       tc_weightage := Some 10 |};
    {| tc_id := Some (txt "test-2");
       tc_display_text := Some (txt "Input field should exist");
       tc_criteria :=
         Some (txt "const input = document.getElementById('test-input'); assert(input !== null);");
       tc_evaluation_type := Some (txt "CLIENT_SIDE_EVALUATION");
       tc_order := Some 2;
       tc_reason_for_failure := None;
       tc_weightage := Some 10 |} ].

Definition test_api_tags : tag_names_value :=
  TagNamesList
    (TagStr <$> map txt [ "SUB_TOPIC_CSS_FLEXBOX";
                          "COURSE_Modern_Responsive_Web_Design";
                          "MODULE_Introduction_to_CSS_Flexbox";
                          "UNIT_Introduction_to_CSS_Flexbox" ]).

(** The request of [test_api.py] asking for [n] replicas; it has no
    [subtopic], [course], [module] or [unit] of its own. *)
Definition test_api_request (n : Z) : Request :=
  {| req_test_cases := test_api_cases;
     req_tag_names := test_api_tags;
     req_num_replicas := n;
     req_subtopic := None; req_course := None;
     req_module := None; req_unit := None |}.

(** The same request with [tag_names] sent as [null]. *)
Definition null_tags_request (n : Z) : Request :=
  {| req_test_cases := test_api_cases;
     req_tag_names := TagNamesScalar PyNone;
     req_num_replicas := n;
     req_subtopic := None; req_course := None;
     req_module := None; req_unit := None |}.

(** ** Notions used to state further properties of the batch *)

(** The tokens of the response of unit [i]: none when its call raised. *)
Definition returned_tokens (service : nat -> text -> text -> api_result)
    (count_tokens : text -> Z) (pool : list text) (i : nat) : Z :=
  match service i (theme_at pool i) (theme_suffix (theme_at pool i)) with
  | ApiRaises _ => 0
  | ApiReturns response_content => count_tokens response_content
  end.

Definition sum_Z (l : list Z) : Z := fold_right Z.add 0 l.

(** [parsed_unit] as a test. *)
Definition is_parsed (service : nat -> text -> text -> api_result)
    (parse : text -> option (gmap string pyval)) (pool : list text) (i : nat)
  : bool :=
  match service i (theme_at pool i) (theme_suffix (theme_at pool i)) with
  | ApiRaises _ => false
  | ApiReturns response_content =>
      match parse response_content with
      | Some replica_data => negb (bool_decide (replica_data = ∅))
      | None => false
      end
  end.

(** The keys of the dictionary that [parse_structured_response] returns. *)
Definition record_keys : gset string :=
  list_to_set
    [ "short_text"%string; "html_code"%string; "css_code"%string;
      "js_code"%string; "question_text"%string; "test_cases"%string;
      "html_solution"%string; "css_solution"%string; "js_solution"%string;
      "subtopic"%string; "course"%string; "module"%string; "unit"%string ].

(** ** Notions used to state properties of the delimiter parser *)

(** The tag occurs in the text at one of its first [n] positions. *)
Definition occurs_before (tag s : text) (n : nat) : bool :=
  existsb (fun k => startswith tag (skipn k s)) (seq 0 n).

(** ** Original code of the request ([generate_replicas], before the loop)

    The request carries its solutions as dictionaries that are read with
    [dict.get]; their values are texts here. *)

(** An entry of [code_details]. *)
Record CodeDetail := mkCodeDetail {
  cd_language : option text;
  cd_code_data : option text
}.

(** An entry of [solutions_metadata]. *)
Record Solution := mkSolution {
  sol_code_details : option (list CodeDetail)
}.

(** The body of the [for code_detail in code_details] loop, on
    [(html_code, css_code, js_code)]. *)
Definition code_step (codes : text * text * text) (code_detail : CodeDetail)
  : text * text * text :=
  let '(html_code, css_code, js_code) := codes in
  if bool_decide (cd_language code_detail = Some (txt "HTML")) then
    (default [] (cd_code_data code_detail), css_code, js_code)
  else if bool_decide (cd_language code_detail = Some (txt "CSS")) then
    (html_code, default [] (cd_code_data code_detail), js_code)
  else if bool_decide (cd_language code_detail = Some (txt "JAVASCRIPT")) then
    (html_code, css_code, default [] (cd_code_data code_detail))
  else codes.

(** [solutions = data['solutions_metadata'][0] if data['solutions_metadata']
    else {}], [solutions.get('code_details', [])] *)
Definition code_details_of (solutions_metadata : list Solution) : list CodeDetail :=
  match solutions_metadata with
  | solutions :: _ => default [] (sol_code_details solutions)
  | [] => []
  end.

(** The three texts that are put into the prompt template. *)
Definition original_code (solutions_metadata : list Solution)
  : text * text * text :=
  fold_left code_step (code_details_of solutions_metadata) ([], [], []).

(** The code of the last entry written in a language, the empty text when
    there is none. *)
Definition last_code (language : text) (code_details : list CodeDetail) : text :=
  match last (filter (fun d => cd_language d = Some language) code_details) with
  | Some code_detail => default [] (cd_code_data code_detail)
  | None => []
  end.

(* ===================================================================== *)
(** * Part II. Properties                                                  *)
(* ===================================================================== *)

(** ** Characters and texts *)

Lemma eqb_true_iff (a b : ascii) : Ascii.eqb a b = true <-> a = b.
Proof. apply Ascii.eqb_eq. Qed.

Lemma eqb_false_iff (a b : ascii) : Ascii.eqb a b = false <-> a <> b.
Proof. apply Ascii.eqb_neq. Qed.

Lemma find_from_absent ch s i :
  ch ∉ s -> find_from ch s i = -1.
Proof.
  revert i. induction s as [|c s IH]; intros i Hn; simpl; [reflexivity|].
  destruct (Ascii.eqb c ch) eqn:E.
  - apply eqb_true_iff in E. subst. exfalso. apply Hn. left.
  - apply IH. intros Hin. apply Hn. now right.
Qed.

Lemma find_from_first ch pre post i :
  ch ∉ pre -> find_from ch (pre ++ ch :: post) i = i + Z.of_nat (length pre).
Proof.
  revert i. induction pre as [|c pre IH]; intros i Hn; simpl.
  - rewrite Ascii.eqb_refl. lia.
  - destruct (Ascii.eqb c ch) eqn:E.
    + apply eqb_true_iff in E. subst. exfalso. apply Hn. left.
    + rewrite IH; [lia|]. intros Hin. apply Hn. now right.
Qed.

Lemma find_from_lower_bound ch s i :
  ch ∈ s -> i <= find_from ch s i.
Proof.
  revert i. induction s as [|c s IH]; intros i Hin; simpl.
  - inversion Hin.
  - destruct (Ascii.eqb c ch) eqn:E; [lia|].
    apply eqb_false_iff in E.
    apply elem_of_cons in Hin as [->|Hin]; [congruence|].
    specialize (IH (i + 1) Hin). lia.
Qed.

Lemma find_absent_iff ch s : find ch s = -1 <-> ch ∉ s.
Proof.
  unfold find. split.
  - intros H Hin. apply (find_from_lower_bound ch s 0) in Hin. lia.
  - apply find_from_absent.
Qed.

Lemma rfind_from_absent ch s i last :
  ch ∉ s -> rfind_from ch s i last = last.
Proof.
  revert i last. induction s as [|c s IH]; intros i last Hn; simpl; [reflexivity|].
  destruct (Ascii.eqb c ch) eqn:E.
  - apply eqb_true_iff in E. subst. exfalso. apply Hn. left.
  - apply IH. intros Hin. apply Hn. now right.
Qed.

Lemma rfind_from_last ch pre post i last :
  ch ∉ post -> rfind_from ch (pre ++ ch :: post) i last = i + Z.of_nat (length pre).
Proof.
  revert i last. induction pre as [|c pre IH]; intros i last Hn; simpl.
  - rewrite Ascii.eqb_refl. rewrite rfind_from_absent by assumption. lia.
  - rewrite IH by assumption. lia.
Qed.

Lemma rfind_from_lower_bound ch s i last :
  ch ∈ s -> i <= rfind_from ch s i last.
Proof.
  intros Hin. apply list_elem_of_split_r in Hin as (pre & post & -> & Hn).
  rewrite rfind_from_last by assumption. lia.
Qed.

Lemma rfind_absent_iff ch s : rfind ch s + 1 = 0 <-> ch ∉ s.
Proof.
  unfold rfind. split.
  - intros H Hin. apply (rfind_from_lower_bound ch s 0 (-1)) in Hin. lia.
  - intros Hn. rewrite rfind_from_absent by assumption. reflexivity.
Qed.

Lemma slice_between (pre mid post : text) (a b : ascii) :
  slice (pre ++ a :: mid ++ b :: post)
        (Z.of_nat (length pre)) (Z.of_nat (length pre + 1 + length mid) + 1)
  = a :: mid ++ [b].
Proof.
  unfold slice. rewrite Nat2Z.id.
  rewrite skipn_app, skipn_all, Nat.sub_diag. simpl.
  replace (Z.to_nat _) with (S (length mid + 1)) by lia.
  simpl. f_equal.
  replace (mid ++ b :: post) with ((mid ++ [b]) ++ post)
    by (rewrite <- app_assoc; reflexivity).
  rewrite firstn_app.
  replace (length mid + 1)%nat with (length (mid ++ [b]))
    by (rewrite length_app; reflexivity).
  rewrite firstn_all, Nat.sub_diag. simpl. apply app_nil_r.
Qed.

(** The substitution of [clean_openai_json_response] puts a line feed where
    a line feed stood. *)
Lemma escape_bare_newlines_from_id previous s :
  escape_bare_newlines_from previous s = s.
Proof.
  revert previous. induction s as [|c s IH]; intros previous; simpl; [reflexivity|].
  rewrite IH.
  destruct (Ascii.eqb c LF) eqn:E; simpl; [|reflexivity].
  apply eqb_true_iff in E. subst c.
  destruct (negb _ && _); reflexivity.
Qed.

Lemma escape_bare_newlines_id s : escape_bare_newlines s = s.
Proof. apply escape_bare_newlines_from_id. Qed.

(** ** JSON extraction *)

(** Past the check of the braces the slice is returned, unless [json.loads]
    raises on it an exception that is not a [json.JSONDecodeError]. *)
Lemma clean_after_slice json_loads response_text :
  let cleaned := strip_code_fences response_text in
  let json_content := slice cleaned (find "{" cleaned) (rfind "}" cleaned + 1) in
  find "{" cleaned <> -1 -> rfind "}" cleaned + 1 <> 0 ->
  clean_openai_json_response json_loads response_text
  = match loads_exception (json_loads json_content) with
    | Some e => Raise e
    | None => Return json_content
    end.
Proof.
  intros cleaned json_content Hs He. unfold clean_openai_json_response.
  fold cleaned. apply Z.eqb_neq in Hs, He. rewrite Hs, He. cbn [orb].
  fold json_content. rewrite escape_bare_newlines_id.
  destruct (json_loads json_content); reflexivity.
Qed.

Lemma slice_empty (s : text) (a b : Z) : b <= a -> slice s a b = [].
Proof.
  intros H. unfold slice. replace (Z.to_nat (b - a)) with 0%nat by lia.
  reflexivity.
Qed.

(** The first opening brace when it stands after the last closing brace. *)
Lemma find_after_last (pre post : text) :
  "{"%char ∉ pre -> "}"%char ∉ post -> "{"%char ∈ post ->
  rfind "}" (pre ++ "}"%char :: post) + 1 <= find "{" (pre ++ "}"%char :: post).
Proof.
  intros Hpre Hpost Hin.
  apply list_elem_of_split_l in Hin as (p1 & p2 & -> & Hp1).
  unfold find, rfind. rewrite rfind_from_last by assumption.
  replace (pre ++ "}"%char :: p1 ++ "{"%char :: p2)
    with ((pre ++ "}"%char :: p1) ++ "{"%char :: p2)
    by (rewrite <- app_assoc; reflexivity).
  rewrite find_from_first.
  - rewrite length_app. simpl. lia.
  - rewrite elem_of_app, elem_of_cons. intros [H|[H|H]];
      [contradiction|discriminate|contradiction].
Qed.

(** The claim that a text with both braces gives the slice from the first
    opening brace through the last closing brace, never an empty result,
    fails: where the last closing brace stands before the first opening
    brace the empty text is returned, without an error; and on an object
    nested too deeply for [json.loads], or on one with an integer of too
    many digits, nothing is returned: the [RecursionError] or the
    [ValueError] of [json.loads] leaves the function. *)
Example clean_reversed_braces :
  let response_text := txt "done } and then { nothing" in
  let cleaned := strip_code_fences response_text in
  ("{"%char ∈ cleaned /\ "}"%char ∈ cleaned
   /\ clean_openai_json_response (fun _ => LoadsDecodeError) response_text
      = Return [])
  /\ clean_openai_json_response
       (fun _ => LoadsRecursionError (txt "maximum recursion depth exceeded"))
       (txt "{1}")
     = Raise (RecursionError (txt "maximum recursion depth exceeded"))
  /\ clean_openai_json_response (fun _ => LoadsDigitsError (txt "4300 digits)"))
       (txt "{1}")
     = Raise (ValueError (txt "Exceeds the limit (4300 digits)")).
Proof.
  split; [|split; reflexivity].
  split; [|split; [|reflexivity]];
    refine (bool_decide_unpack _ _); vm_compute; exact I.
Qed.

(** C5, amended.  [clean_openai_json_response] raises the error "No valid
    JSON object found in response" exactly when the text left after the fence
    markers are stripped has no opening brace or no closing brace.  When both
    are there and the first opening brace stands before the last closing
    brace, it returns the text from that opening brace through that closing
    brace, whether [json.loads] accepts it or raises [JSONDecodeError]; any
    other exception of [json.loads], a [RecursionError] or the [ValueError]
    of an integer of too many digits, leaves the function.  When the last
    closing brace stands before the first opening brace, the slice is empty
    and, [json.loads] raising [JSONDecodeError] on the empty text, the empty
    text is returned. *)
Theorem clean_openai_json_response_no_json_iff_brace_missing :
  forall (json_loads : text -> loads_outcome) (response_text : text),
    let cleaned := strip_code_fences response_text in
    (clean_openai_json_response json_loads response_text
       = Raise (ValueError no_json_message)
     <-> ("{"%char ∉ cleaned \/ "}"%char ∉ cleaned))
    /\ (forall pre mid post,
          cleaned = pre ++ "{"%char :: mid ++ "}"%char :: post ->
          "{"%char ∉ pre -> "}"%char ∉ post ->
          clean_openai_json_response json_loads response_text
          = match loads_exception
                    (json_loads ("{"%char :: mid ++ ["}"%char])) with
            | Some e => Raise e
            | None => Return ("{"%char :: mid ++ ["}"%char])
            end)
    /\ (forall pre post,
          cleaned = pre ++ "}"%char :: post ->
          "{"%char ∉ pre -> "}"%char ∉ post -> "{"%char ∈ post ->
          json_loads [] = LoadsDecodeError ->
          clean_openai_json_response json_loads response_text = Return []).
Proof.
  intros json_loads response_text cleaned.
  assert (Hboth : "{"%char ∈ cleaned -> "}"%char ∈ cleaned ->
                  clean_openai_json_response json_loads response_text
                  = match loads_exception
                            (json_loads (slice cleaned (find "{" cleaned)
                                           (rfind "}" cleaned + 1))) with
                    | Some e => Raise e
                    | None => Return (slice cleaned (find "{" cleaned)
                                        (rfind "}" cleaned + 1))
                    end).
  { intros Ho Hc. apply clean_after_slice.
    - rewrite find_absent_iff. tauto.
    - rewrite rfind_absent_iff. tauto. }
  split; [|split].
  - split.
    + intros Hraise.
      destruct (decide ("{"%char ∈ cleaned)) as [Ho|Ho]; [|now left].
      destruct (decide ("}"%char ∈ cleaned)) as [Hc|Hc]; [|now right].
      rewrite (Hboth Ho Hc) in Hraise.
      destruct (json_loads _) as [| |message|detail]; discriminate Hraise.
    + intros Hmiss. unfold clean_openai_json_response. fold cleaned.
      destruct Hmiss as [Ho|Hc].
      * apply find_absent_iff in Ho. rewrite Ho. reflexivity.
      * apply rfind_absent_iff in Hc. rewrite Hc.
        rewrite orb_true_r. reflexivity.
  - intros pre mid post Hdec Hpre Hpost.
    assert (Hslice : slice cleaned (find "{" cleaned) (rfind "}" cleaned + 1)
                     = "{"%char :: mid ++ ["}"%char]).
    { rewrite Hdec. unfold find, rfind.
      rewrite find_from_first by assumption.
      replace (pre ++ "{"%char :: mid ++ "}"%char :: post)
        with ((pre ++ "{"%char :: mid) ++ "}"%char :: post)
        by (rewrite <- app_assoc; reflexivity).
      rewrite rfind_from_last by assumption.
      rewrite <- app_assoc. simpl.
      rewrite length_app. simpl.
      replace (0 + Z.of_nat (length pre)) with (Z.of_nat (length pre)) by lia.
      replace (0 + Z.of_nat (length pre + S (length mid)) + 1)
        with (Z.of_nat (length pre + 1 + length mid) + 1) by lia.
      apply slice_between. }
    rewrite Hboth, Hslice; [reflexivity| |].
    + rewrite Hdec. apply elem_of_app. right. left.
    + rewrite Hdec. apply elem_of_app. right. right.
      apply elem_of_app. right. left.
  - intros pre post Hdec Hpre Hpost Hin Hempty.
    rewrite Hboth.
    + rewrite slice_empty, Hempty; [reflexivity|].
      rewrite Hdec. now apply find_after_last.
    + rewrite Hdec. apply elem_of_app. right. now right.
    + rewrite Hdec. apply elem_of_app. right. left.
Qed.

(** A response wrapped in a markdown fence: the object between the braces is
    returned. *)
Lemma clean_openai_json_response_no_json_iff_brace_missing_witness :
  clean_openai_json_response (fun _ => LoadsDecodeError) (txt "```json {1} ```")
  = Return (txt "{1}")
  /\ clean_openai_json_response (fun _ => LoadsDecodeError) (txt "}{")
     = Return [].
Proof.
  split.
  - apply (proj1 (proj2 (clean_openai_json_response_no_json_iff_brace_missing
                           (fun _ => LoadsDecodeError) (txt "```json {1} ```")))
             [] (txt "1") []).
    + vm_compute. reflexivity.
    + vm_compute. intros H. inversion H.
    + vm_compute. intros H. inversion H.
  - apply (proj2 (proj2 (clean_openai_json_response_no_json_iff_brace_missing
                           (fun _ => LoadsDecodeError) (txt "}{")))
             [] (txt "{")).
    + vm_compute. reflexivity.
    + vm_compute. intros H. inversion H.
    + refine (bool_decide_unpack _ _). vm_compute. exact I.
    + refine (bool_decide_unpack _ _). vm_compute. exact I.
    + reflexivity.
Defined.

(** ** JSON repair *)

Lemma repair_loop_first_accepted json_loads strategies current_json :
  repair_loop json_loads strategies current_json
  = first_accepted (loads_ok json_loads)
      (chained_attempts strategies current_json).
Proof.
  revert current_json.
  induction strategies as [|strategy rest IH]; intros current_json; simpl.
  - reflexivity.
  - destruct (loads_ok json_loads (strategy current_json)); [reflexivity|].
    apply IH.
Qed.

Lemma first_accepted_none accepts attempts :
  first_accepted accepts attempts = None
  <-> Forall (fun a => accepts a = false) attempts.
Proof.
  unfold first_accepted. induction attempts as [|a attempts IH]; simpl.
  - split; [constructor | reflexivity].
  - destruct (accepts a) eqn:E.
    + split; [discriminate|]. intros H. inversion H; subst. congruence.
    + rewrite IH. split.
      * intros H. now constructor.
      * intros H. now inversion H.
Qed.

Lemma first_accepted_some accepts attempts r :
  first_accepted accepts attempts = Some r
  <-> exists before after,
        attempts = before ++ r :: after
        /\ accepts r = true
        /\ Forall (fun a => accepts a = false) before.
Proof.
  unfold first_accepted. induction attempts as [|a attempts IH]; simpl.
  - split; [discriminate|]. intros (before & after & H & _).
    destruct before; discriminate.
  - destruct (accepts a) eqn:E.
    + split.
      * intros [= <-]. exists [], attempts. repeat split; [assumption|constructor].
      * intros (before & after & H & Hr & Hb).
        destruct before as [|b before]; simpl in H.
        -- congruence.
        -- injection H as <- _. inversion Hb; subst. congruence.
    + rewrite IH. split.
      * intros (before & after & -> & Hr & Hb).
        exists (a :: before), after. repeat split; [assumption|now constructor].
      * intros (before & after & H & Hr & Hb).
        destruct before as [|b before]; simpl in H.
        -- injection H as -> _. congruence.
        -- injection H as <- ->. inversion Hb; subst. eauto.
Qed.

(** C4.  [attempt_json_repair] is total and returns [None] or a text, never
    an exception.  The five strategies are tried in their order, each on the
    output of the attempt before it, the first on the cleaned text; the result
    is the first attempt on which [json.loads] goes through, and [None] when
    there is none or when the cleaning raised: no JSON object found, or an
    exception of [json.loads] other than [json.JSONDecodeError]. *)
Theorem attempt_json_repair_first_accepted_in_chain :
  forall (json_loads : text -> loads_outcome) (response_text : text),
    attempt_json_repair json_loads response_text
    = match clean_openai_json_response json_loads response_text with
      | Raise _ => None
      | Return cleaned =>
          let a1 := escape_control_characters cleaned in
          let a2 := escape_inner_quotes a1 in
          let a3 := remove_trailing_commas a2 in
          let a4 := fix_unterminated_strings a3 in
          let a5 := insert_missing_commas a4 in
          first_accepted (loads_ok json_loads) [a1; a2; a3; a4; a5]
      end
    /\ (forall cleaned,
          clean_openai_json_response json_loads response_text = Return cleaned ->
          (forall repaired,
             attempt_json_repair json_loads response_text = Some repaired <->
             exists before after,
               chained_attempts repair_strategies cleaned = before ++ repaired :: after
               /\ json_loads repaired = LoadsValue
               /\ Forall (fun a => json_loads a <> LoadsValue) before)
          /\ (attempt_json_repair json_loads response_text = None <->
              Forall (fun a => json_loads a <> LoadsValue)
                (chained_attempts repair_strategies cleaned))).
Proof.
  intros json_loads response_text. unfold attempt_json_repair.
  assert (Hok : forall a, loads_ok json_loads a = true <-> json_loads a = LoadsValue).
  { intros a. unfold loads_ok. destruct (json_loads a); split; congruence. }
  assert (Hno : forall l, Forall (fun a => loads_ok json_loads a = false) l
                          <-> Forall (fun a => json_loads a <> LoadsValue) l).
  { intros l. apply Forall_iff. intros a. rewrite <- Hok.
    destruct (loads_ok json_loads a); split; congruence. }
  split.
  - destruct (clean_openai_json_response json_loads response_text) as [cleaned|e];
      [|reflexivity].
    rewrite repair_loop_first_accepted. reflexivity.
  - intros cleaned ->. rewrite repair_loop_first_accepted. split.
    + intros repaired. rewrite first_accepted_some.
      split; intros (before & after & H1 & H2 & H3); exists before, after;
        (split; [exact H1|split; [now apply Hok|now apply Hno]]).
    + rewrite first_accepted_none. apply Hno.
Qed.

(** A trailing comma: the first two attempts are rejected, the third one, made
    by the third strategy on their output, is returned. *)
Lemma attempt_json_repair_first_accepted_in_chain_witness :
  let json_loads :=
    fun s => if bool_decide (s = txt "{1}") then LoadsValue else LoadsDecodeError in
  attempt_json_repair json_loads (txt "{1,}") = Some (txt "{1}").
Proof.
  intros json_loads.
  apply (proj1 (proj2 (attempt_json_repair_first_accepted_in_chain
                         json_loads (txt "{1,}")) (txt "{1,}") eq_refl)
           (txt "{1}")).
  exists [txt "{1,}"; txt "{1,}"],
         [txt "{1}"; txt "{1}"].
  split; [vm_compute; reflexivity|]. split; [vm_compute; reflexivity|].
  repeat constructor; vm_compute; discriminate.
Defined.

(** ** The batch loop *)

Lemma replica_key_inj i j : replica_key i = replica_key j -> i = j.
Proof.
  unfold replica_key. intros H.
  apply (inj (String.append "replica_")) in H.
  now apply (inj pretty) in H.
Qed.

Section BatchLoop.

Variable service : nat -> text -> text -> api_result.
Variable count_tokens : text -> Z.
Variable pool : list text.
Variable record_response : nat -> text -> nat -> gmap string pyval * nat.

Let step := unit_step service count_tokens pool record_response.
Let entry_of := unit_entry service pool record_response.

Lemma unit_step_replicas st i :
  all_replicas (step st i)
  = <[ replica_key i := fst (entry_of i (next_uuid st)) ]> (all_replicas st).
Proof.
  unfold step, unit_step, entry_of, unit_entry.
  destruct (service i _ _) as [message|content]; [reflexivity|].
  destruct (record_response i content (next_uuid st)); reflexivity.
Qed.

Lemma unit_step_counter st i :
  next_uuid (step st i) = snd (entry_of i (next_uuid st)).
Proof.
  unfold step, unit_step, entry_of, unit_entry.
  destruct (service i _ _) as [message|content]; [reflexivity|].
  destruct (record_response i content (next_uuid st)); reflexivity.
Qed.

Lemma unit_step_dispatched st i :
  dispatched (step st i)
  = (i, theme_at pool i, theme_suffix (theme_at pool i)) :: dispatched st.
Proof.
  unfold step, unit_step.
  destruct (service i _ _) as [message|content]; [reflexivity|].
  destruct (record_response i content (next_uuid st)); reflexivity.
Qed.

Lemma fold_counter l st :
  next_uuid (fold_left step l st)
  = counter_after service pool record_response l (next_uuid st).
Proof.
  revert st. induction l as [|i l IH]; intros st; simpl; [reflexivity|].
  rewrite IH, unit_step_counter. reflexivity.
Qed.

Lemma fold_dispatched l st :
  dispatched (fold_left step l st)
  = rev (map (fun i => (i, theme_at pool i, theme_suffix (theme_at pool i))) l)
      ++ dispatched st.
Proof.
  revert st. induction l as [|i l IH]; intros st; simpl; [reflexivity|].
  rewrite IH, unit_step_dispatched, <- app_assoc. reflexivity.
Qed.

(** A key that belongs to no unit of the list keeps its slot. *)
Lemma fold_lookup_other l st k :
  (forall i, i ∈ l -> k <> replica_key i) ->
  all_replicas (fold_left step l st) !! k = all_replicas st !! k.
Proof.
  revert st. induction l as [|i l IH]; intros st Hk; simpl; [reflexivity|].
  rewrite IH.
  - rewrite unit_step_replicas, lookup_insert_ne; [reflexivity|].
    intros Heq. apply (Hk i); [left|now symmetry].
  - intros j Hj. apply Hk. now right.
Qed.

(** The slot of a unit holds what its own turn stored: the turns of the
    later units do not touch it. *)
Lemma fold_lookup_unit before i after st :
  i ∉ after ->
  all_replicas (fold_left step (before ++ i :: after) st) !! replica_key i
  = Some (fst (entry_of i
                 (counter_after service pool record_response before (next_uuid st)))).
Proof.
  intros Hi. rewrite fold_left_app. simpl.
  rewrite fold_lookup_other.
  - rewrite unit_step_replicas, lookup_insert_eq, fold_counter. reflexivity.
  - intros j Hj Heq. apply replica_key_inj in Heq. subst j. contradiction.
Qed.

End BatchLoop.

Lemma seq_split_at (i n : nat) :
  (1 <= i <= n)%nat ->
  seq 1 n = seq 1 (i - 1) ++ i :: seq (S i) (n - i).
Proof.
  intros Hi. replace n with ((i - 1) + S (n - i))%nat at 1 by lia.
  rewrite seq_app. simpl. replace (S (i - 1)) with i by lia. reflexivity.
Qed.

Lemma unit_indices_spec (n : Z) (i : nat) :
  i ∈ unit_indices n <-> (1 <= i)%nat /\ Z.of_nat i <= n.
Proof.
  unfold unit_indices. rewrite list_elem_of_In, in_seq. lia.
Qed.

Section RunUnits.

Variable service : nat -> text -> text -> api_result.
Variable count_tokens : text -> Z.
Variable data : Request.
Variable pool : list text.
Variable record_response : nat -> text -> nat -> gmap string pyval * nat.
Variable next : nat.

Let final := run_units service count_tokens data pool record_response next.

(** The identifier counter when the turn of unit [i] starts. *)
Let counter_at (i : nat) : nat :=
  counter_after service pool record_response (seq 1 (i - 1)) next.

Lemma run_units_slot i :
  (1 <= i)%nat -> Z.of_nat i <= req_num_replicas data ->
  all_replicas final !! replica_key i
  = Some (fst (unit_entry service pool record_response i (counter_at i))).
Proof.
  intros H1 Hn. unfold final, run_units, unit_indices, counter_at.
  rewrite (seq_split_at i (Z.to_nat (req_num_replicas data))) by lia.
  rewrite fold_lookup_unit; [reflexivity|].
  rewrite list_elem_of_In, in_seq. lia.
Qed.

Lemma run_units_no_slot k :
  (forall i, (1 <= i)%nat -> Z.of_nat i <= req_num_replicas data ->
             k <> replica_key i) ->
  all_replicas final !! k = None.
Proof.
  intros Hk. unfold final, run_units.
  rewrite fold_lookup_other; [apply lookup_empty|].
  intros i Hi. apply unit_indices_spec in Hi as [H1 Hn]. now apply Hk.
Qed.

Lemma run_units_slots k :
  is_Some (all_replicas final !! k)
  <-> exists i, (1 <= i)%nat /\ Z.of_nat i <= req_num_replicas data
                /\ k = replica_key i.
Proof.
  split.
  - intros Hsome.
    destruct (decide (k ∈ map replica_key (unit_indices (req_num_replicas data))))
      as [Hin|Hout].
    + apply list_elem_of_In, in_map_iff in Hin as (i & <- & Hi).
      apply list_elem_of_In, unit_indices_spec in Hi as [H1 Hn]. eauto.
    + rewrite run_units_no_slot in Hsome; [now destruct Hsome|].
      intros i H1 Hn ->. apply Hout.
      apply list_elem_of_In, in_map, list_elem_of_In, unit_indices_spec. lia.
  - intros (i & H1 & Hn & ->). rewrite run_units_slot by assumption. eauto.
Qed.

Lemma run_units_dispatched :
  dispatched final
  = rev (map (fun i => (i, theme_at pool i, theme_suffix (theme_at pool i)))
           (unit_indices (req_num_replicas data))).
Proof.
  unfold final, run_units. rewrite fold_dispatched. simpl. apply app_nil_r.
Qed.

End RunUnits.

(** ** Token accounting *)

Section BatchAccounting.

Variable service : nat -> text -> text -> api_result.
Variable count_tokens : text -> Z.
Variable pool : list text.
Variable record_response : nat -> text -> nat -> gmap string pyval * nat.

Lemma unit_step_tokens st i :
  total_output_tokens (unit_step service count_tokens pool record_response st i)
  = total_output_tokens st + returned_tokens service count_tokens pool i.
Proof.
  unfold unit_step, returned_tokens.
  destruct (service i _ _) as [message|content]; [simpl; lia|].
  destruct (record_response i content (next_uuid st)); reflexivity.
Qed.

Lemma fold_tokens l st :
  total_output_tokens
    (fold_left (unit_step service count_tokens pool record_response) l st)
  = total_output_tokens st
    + sum_Z (map (returned_tokens service count_tokens pool) l).
Proof.
  revert st. induction l as [|i l IH]; intros st; simpl; [lia|].
  rewrite IH, unit_step_tokens. lia.
Qed.

Lemma run_units_tokens data next :
  total_output_tokens
    (run_units service count_tokens data pool record_response next)
  = sum_Z (map (returned_tokens service count_tokens pool)
             (unit_indices (req_num_replicas data))).
Proof. unfold run_units. rewrite fold_tokens. reflexivity. Qed.

Lemma run_units_counter data next :
  next_uuid (run_units service count_tokens data pool record_response next)
  = counter_after service pool record_response
      (unit_indices (req_num_replicas data)) next.
Proof. unfold run_units. rewrite fold_counter. reflexivity. Qed.

End BatchAccounting.

(** ** Token ledger *)

Lemma is_int64_bounds (n : Z) :
  Ledger.is_int64 n = true <-> - 2 ^ 63 <= n <= 2 ^ 63 - 1.
Proof.
  unfold Ledger.is_int64, Ledger.int64_min, Ledger.int64_max.
  rewrite andb_true_iff, !Z.leb_le. reflexivity.
Qed.

(** Integer counters updated by an integer: the sums are exact as long as
    they have 64 bits. *)
Lemma update_integers (s t d : Z) :
  Ledger.is_int64 d = true ->
  Ledger.is_int64 (s + d) = true -> Ledger.is_int64 (t + d) = true ->
  Ledger.update_token_usage (Ledger.PyInt d) (Ledger.PyInt d)
    {| Ledger.session_tokens := Ledger.SqlInteger s;
       Ledger.total_tokens := Ledger.SqlInteger t |}
  = Return {| Ledger.session_tokens := Ledger.SqlInteger (s + d);
              Ledger.total_tokens := Ledger.SqlInteger (t + d) |}.
Proof.
  intros Hd Hs Ht. unfold Ledger.update_token_usage, Ledger.sql_bind.
  rewrite Hd.
  cbn [Ledger.session_tokens Ledger.total_tokens Ledger.sql_add].
  rewrite Hs, Ht. reflexivity.
Qed.

(** The ledger that a batch of [app.py] leaves: both counters are updated by
    the tokens of the prompt and of the responses that came back. *)
Lemma app_ledger_after_batch
    service count_tokens uuid4 parse data formatted_prompt current_api_key
    shuffled_themes next ledger :
  current_api_key <> [] ->
  let cost :=
    count_tokens formatted_prompt
    + sum_Z (map (returned_tokens service count_tokens shuffled_themes)
               (unit_indices (req_num_replicas data))) in
  exists body next',
    generate_replicas_app service count_tokens uuid4 parse data formatted_prompt
      current_api_key shuffled_themes next ledger
    = (Ok200 body, update_token_usage cost cost ledger, next')
    /\ response_total_tokens body = cost
    /\ session_usage body = get_token_usage (update_token_usage cost cost ledger).
Proof.
  intros Hkey cost. unfold generate_replicas_app.
  rewrite (bool_decide_eq_false_2 _ Hkey). unfold finish.
  rewrite run_units_tokens. fold cost.
  eexists _, _. split; [reflexivity|]. split; reflexivity.
Qed.





(** What the inner [try] stores, by the outcome of the parsing step. *)
Lemma record_response_app_cases uuid4 parse data i response_content next :
  (parse_failed (parse response_content)
   /\ fst (record_response_app uuid4 parse data i response_content next)
      = parse_failure_entry i response_content)
  \/ (exists replica_data,
        parse response_content = Some replica_data /\ replica_data <> ∅
        /\ fst (record_response_app uuid4 parse data i response_content next)
           = match tag_metadata (req_tag_names data) with
             | Return (subtopic, course, module_, unit_) =>
                 update_metadata subtopic course module_ unit_
                   (<[ "test_cases"%string :=
                         PTests (fst (format_test_cases_from_original uuid4
                                        (req_test_cases data)
                                        (Some (Z.of_nat (length (req_test_cases data))))
                                        next)) ]> replica_data)
             | Raise e => parse_exception_entry i e response_content
             end).
Proof.
  unfold record_response_app, parse_failed.
  destruct (parse response_content) as [replica_data|]; [|left; auto].
  case_bool_decide as Hempty; [subst; left; auto|].
  right. exists replica_data. repeat split; [assumption|].
  destruct (format_test_cases_from_original _ _ _ _).
  destruct (tag_metadata (req_tag_names data)) as [[[[? ?] ?] ?]|e]; reflexivity.
Qed.

(** The four values of the tags are those of the four calls of
    [extract_tag_value]. *)
Lemma tag_metadata_return tag_names subtopic course module_ unit_ :
  tag_metadata tag_names = Return (subtopic, course, module_, unit_)
  <-> extract_tag_value tag_names (txt "SUB_TOPIC_") = Return subtopic
      /\ extract_tag_value tag_names (txt "COURSE_") = Return course
      /\ extract_tag_value tag_names (txt "MODULE_") = Return module_
      /\ extract_tag_value tag_names (txt "UNIT_") = Return unit_.
Proof.
  unfold tag_metadata.
  destruct (extract_tag_value tag_names (txt "SUB_TOPIC_")) as [s|e1];
    [|split; [discriminate|intros [H _]; discriminate]].
  destruct (extract_tag_value tag_names (txt "COURSE_")) as [c|e2];
    [|split; [discriminate|intros (_ & H & _); discriminate]].
  destruct (extract_tag_value tag_names (txt "MODULE_")) as [m|e3];
    [|split; [discriminate|intros (_ & _ & H & _); discriminate]].
  destruct (extract_tag_value tag_names (txt "UNIT_")) as [u|e4];
    [|split; [discriminate|intros (_ & _ & _ & H); discriminate]].
  split.
  - intros [= -> -> -> ->]. auto.
  - intros ([= ->] & [= ->] & [= ->] & [= ->]). reflexivity.
Qed.

(** A list of strings is read without an exception. *)
Lemma extract_tag_loop_strings (tags : list text) prefix :
  exists value, extract_tag_loop (TagStr <$> tags) prefix = Return value.
Proof.
  induction tags as [|tag tags IH]; simpl.
  - eauto.
  - destruct (startswith prefix tag); eauto.
Qed.

Lemma tag_metadata_strings (tags : list text) :
  exists subtopic course module_ unit_,
    tag_metadata (TagNamesList (TagStr <$> tags))
    = Return (subtopic, course, module_, unit_).
Proof.
  destruct (extract_tag_loop_strings tags (txt "SUB_TOPIC_")) as [s Hs].
  destruct (extract_tag_loop_strings tags (txt "COURSE_")) as [c Hc].
  destruct (extract_tag_loop_strings tags (txt "MODULE_")) as [m Hm].
  destruct (extract_tag_loop_strings tags (txt "UNIT_")) as [u Hu].
  exists s, c, m, u. apply tag_metadata_return. auto.
Qed.

Lemma record_response_main_cases parse i response_content next :
  (parse_failed (parse response_content)
   /\ fst (record_response_main parse i response_content next)
      = parse_failure_entry i response_content)
  \/ (exists replica_data,
        parse response_content = Some replica_data /\ replica_data <> ∅
        /\ fst (record_response_main parse i response_content next) = replica_data).
Proof.
  unfold record_response_main, parse_failed.
  destruct (parse response_content) as [replica_data|]; [|left; auto].
  case_bool_decide as Hempty; [subst; left; auto|].
  right. exists replica_data. auto.
Qed.

(** The body of a request that got past the check of the API key. *)
Lemma generate_replicas_app_body
    service count_tokens uuid4 parse data formatted_prompt current_api_key
    shuffled_themes next ledger :
  current_api_key <> [] ->
  exists body ledger',
    generate_replicas_app service count_tokens uuid4 parse data formatted_prompt
      current_api_key shuffled_themes next ledger
    = (Ok200 body, ledger',
       next_uuid (run_units service count_tokens data shuffled_themes
                    (record_response_app uuid4 parse data) next))
    /\ replicas body
       = update_metadata
           (default [] (req_subtopic data)) (default [] (req_course data))
           (default [] (req_module data)) (default [] (req_unit data))
         <$> all_replicas (run_units service count_tokens data shuffled_themes
                             (record_response_app uuid4 parse data) next).
Proof.
  intros Hkey. unfold generate_replicas_app.
  rewrite bool_decide_eq_false_2 by assumption.
  simpl. eauto.
Qed.

Lemma generate_replicas_main_body
    service count_tokens parse data formatted_prompt current_api_key
    shuffled_themes next ledger :
  current_api_key <> [] ->
  exists body ledger',
    generate_replicas_main service count_tokens parse data formatted_prompt
      current_api_key shuffled_themes next ledger
    = (Ok200 body, ledger',
       next_uuid (run_units service count_tokens data themes
                    (record_response_main parse) next))
    /\ replicas body
       = update_metadata
           (default [] (req_subtopic data)) (default [] (req_course data))
           (default [] (req_module data)) (default [] (req_unit data))
         <$> all_replicas (run_units service count_tokens data themes
                             (record_response_main parse) next).
Proof.
  intros Hkey. unfold generate_replicas_main.
  rewrite bool_decide_eq_false_2 by assumption.
  simpl. eauto.
Qed.

(** C1.  With the API key configured, for every request, every behaviour of
    the service and every behaviour of the parsing step, [generate_replicas]
    of [app.py] and of [main.py] answer with a mapping whose keys are exactly
    [replica_1] .. [replica_N].  The slot of unit [i] is decided by the
    outcome of unit [i] alone: an API failure entry when its call raised, a
    parse failure entry when its response did not parse, the parsed record
    otherwise; no outcome of another unit changes it.  In [app.py] the
    parsed record carries the four values read from the request's
    [tag_names]; a list of strings is read without an exception, and for a
    [tag_names] whose reading raises the slot holds the entry of the
    [except] arm, with the message of the exception and the first 500
    characters of the response. *)
Theorem batch_fills_every_slot_despite_failures :
  forall (service : nat -> text -> text -> api_result) (count_tokens : text -> Z)
         (uuid4 : nat -> text) (parse : text -> option (gmap string pyval))
         (data : Request) (formatted_prompt current_api_key : text)
         (shuffled_themes : list text) (next : nat) (ledger : TokenRow),
    current_api_key <> [] ->
    let n := req_num_replicas data in
    let meta :=
      update_metadata
        (default [] (req_subtopic data)) (default [] (req_course data))
        (default [] (req_module data)) (default [] (req_unit data)) in
    (exists body ledger' next',
       generate_replicas_app service count_tokens uuid4 parse data
         formatted_prompt current_api_key shuffled_themes next ledger
       = (Ok200 body, ledger', next')
       /\ (forall k, is_Some (replicas body !! k)
                     <-> exists i, (1 <= i)%nat /\ Z.of_nat i <= n
                                   /\ k = replica_key i)
       /\ (forall i, (1 <= i)%nat -> Z.of_nat i <= n ->
             exists entry,
               replicas body !! replica_key i = Some entry
               /\ match service i (theme_at shuffled_themes i)
                          (theme_suffix (theme_at shuffled_themes i)) with
                  | ApiRaises message => entry = meta (api_error_entry message)
                  | ApiReturns content =>
                      (parse_failed (parse content)
                       /\ entry = meta (parse_failure_entry i content))
                      \/ (exists replica_data formatted,
                            parse content = Some replica_data
                            /\ replica_data <> ∅
                            /\ match tag_metadata (req_tag_names data) with
                               | Return (subtopic, course, module_, unit_) =>
                                   extract_tag_value (req_tag_names data)
                                     (txt "SUB_TOPIC_") = Return subtopic
                                   /\ extract_tag_value (req_tag_names data)
                                        (txt "COURSE_") = Return course
                                   /\ extract_tag_value (req_tag_names data)
                                        (txt "MODULE_") = Return module_
                                   /\ extract_tag_value (req_tag_names data)
                                        (txt "UNIT_") = Return unit_
                                   /\ entry
                                      = meta (update_metadata
                                                subtopic course module_ unit_
                                                (<[ "test_cases"%string :=
                                                      PTests formatted ]>
                                                   replica_data))
                               | Raise e =>
                                   entry = meta (parse_exception_entry i e content)
                               end)
                  end)
       /\ (forall tags : list text,
             req_tag_names data = TagNamesList (TagStr <$> tags) ->
             exists subtopic course module_ unit_,
               tag_metadata (req_tag_names data)
               = Return (subtopic, course, module_, unit_)))
    /\ (exists body ledger' next',
          generate_replicas_main service count_tokens parse data
            formatted_prompt current_api_key shuffled_themes next ledger
          = (Ok200 body, ledger', next')
          /\ (forall k, is_Some (replicas body !! k)
                        <-> exists i, (1 <= i)%nat /\ Z.of_nat i <= n
                                      /\ k = replica_key i)
          /\ (forall i, (1 <= i)%nat -> Z.of_nat i <= n ->
                exists entry,
                  replicas body !! replica_key i = Some entry
                  /\ match service i (theme_at themes i)
                             (theme_suffix (theme_at themes i)) with
                     | ApiRaises message => entry = meta (api_error_entry message)
                     | ApiReturns content =>
                         (parse_failed (parse content)
                          /\ entry = meta (parse_failure_entry i content))
                         \/ (exists replica_data,
                               parse content = Some replica_data
                               /\ replica_data <> ∅
                               /\ entry = meta replica_data)
                     end)).
Proof.
  intros service count_tokens uuid4 parse data formatted_prompt current_api_key
    shuffled_themes next ledger Hkey n meta.
  split.
  - destruct (generate_replicas_app_body service count_tokens uuid4 parse data
                formatted_prompt current_api_key shuffled_themes next ledger Hkey)
      as (body & ledger' & Hrun & Hrep).
    exists body, ledger'. eexists. split; [exact Hrun|]. rewrite Hrep.
    split; [|split].
    + intros k. rewrite lookup_fmap, fmap_is_Some. apply run_units_slots.
    + intros i H1 Hn. rewrite lookup_fmap, run_units_slot by assumption.
      simpl. eexists. split; [reflexivity|].
      unfold unit_entry.
      destruct (service i _ _) as [message|content]; [reflexivity|].
      destruct (record_response_app_cases uuid4 parse data i content
                  (counter_after service shuffled_themes
                     (record_response_app uuid4 parse data) (seq 1 (i - 1)) next))
        as [[Hfail ->]|(replica_data & Hp & Hne & ->)].
      * left. auto.
      * right. exists replica_data. eexists. split; [exact Hp|].
        split; [exact Hne|].
        destruct (tag_metadata (req_tag_names data))
          as [[[[subtopic course] module_] unit_]|e] eqn:Htags; [|reflexivity].
        apply tag_metadata_return in Htags as (Hs & Hc & Hm & Hu).
        repeat (split; [assumption|]). reflexivity.
    + intros tags ->. apply tag_metadata_strings.
  - destruct (generate_replicas_main_body service count_tokens parse data
                formatted_prompt current_api_key shuffled_themes next ledger Hkey)
      as (body & ledger' & Hrun & Hrep).
    exists body, ledger'. eexists. split; [exact Hrun|]. rewrite Hrep. split.
    + intros k. rewrite lookup_fmap, fmap_is_Some. apply run_units_slots.
    + intros i H1 Hn. rewrite lookup_fmap, run_units_slot by assumption.
      simpl. eexists. split; [reflexivity|].
      unfold unit_entry.
      destruct (service i _ _) as [message|content]; [reflexivity|].
      destruct (record_response_main_cases parse i content
                  (counter_after service themes
                     (record_response_main parse) (seq 1 (i - 1)) next))
        as [[Hfail ->]|(replica_data & Hp & Hne & ->)].
      * left. auto.
      * right. eauto.
Qed.

(** Three units, the call for the second one raises: the third slot is there
    all the same. *)
Lemma batch_fills_every_slot_despite_failures_witness :
  let service := fun (i : nat) (_ _ : text) =>
                   if (i =? 2)%nat then ApiRaises (txt "timeout")
                   else ApiReturns (txt "THEME: Bakery") in
  let data := {| req_test_cases := []; req_tag_names := TagNamesList [];
                 req_num_replicas := 3;
                 req_subtopic := None; req_course := None;
                 req_module := None; req_unit := None |} in
  exists body ledger' next',
    App.generate_replicas service (fun s => Z.of_nat (length s))
      (fun k => txt (pretty k)) data (txt "prompt") (txt "sk") (rev themes) 0%nat
      {| session_tokens := 0; total_tokens := 0 |}
    = (Ok200 body, ledger', next')
    /\ is_Some (replicas body !! replica_key 3).
Proof.
  intros service data.
  destruct (batch_fills_every_slot_despite_failures
              service (fun s => Z.of_nat (length s)) (fun k => txt (pretty k))
              parse_structured_response data (txt "prompt") (txt "sk")
              (rev themes) 0%nat {| session_tokens := 0; total_tokens := 0 |})
    as [(body & ledger' & next' & Hrun & Hkeys & _) _].
  - discriminate.
  - exists body, ledger', next'. split; [exact Hrun|].
    apply Hkeys. exists 3%nat. simpl. repeat split; lia.
Defined.

(** ** Theme assignment *)

(** [app.py] reads the themes of its units from the shuffled pool, in a
    cycle. *)
Lemma app_dispatches_shuffled_cycle
    service count_tokens uuid4 parse data shuffled_themes next :
  dispatched (run_units service count_tokens data shuffled_themes
                (record_response_app uuid4 parse data) next)
  = rev (map (fun i =>
                let selected_theme :=
                  nth ((i - 1) mod length shuffled_themes)%nat shuffled_themes [] in
                (i, selected_theme, theme_suffix selected_theme))
           (seq 1 (Z.to_nat (req_num_replicas data)))).
Proof. apply run_units_dispatched. Qed.

(** C2.  [main.py] shuffles a copy of the pool and then does not read it: its
    answer is the same whatever the shuffle gave, and unit 1 gets the first
    theme of the unshuffled pool.  With the pool shuffled into its reverse,
    position 0 of the shuffled pool is "Classic Game Shop"; [app.py] asks
    the service for that theme, [main.py] for "Coffee Shop Manager" (the
    sample service raises with the theme it was asked for as its message). *)
Theorem main_reads_unshuffled_pool :
  (forall service count_tokens parse data formatted_prompt current_api_key
          shuffled_themes shuffled_themes' next ledger,
      generate_replicas_main service count_tokens parse data formatted_prompt
        current_api_key shuffled_themes next ledger
      = generate_replicas_main service count_tokens parse data formatted_prompt
          current_api_key shuffled_themes' next ledger)
  /\ theme_at (rev themes) 1 = txt "Classic Game Shop"
  /\ response_field
       (Main.generate_replicas raising_service length_tokens
          (test_api_request 1) (txt "prompt") (txt "sk") (rev themes) 0%nat
          empty_ledger)
       (replica_key 1) "error"
     = Some (PStr (txt "API Error: Coffee Shop Manager"))
  /\ response_field
       (App.generate_replicas raising_service length_tokens numbered_uuid4
          (test_api_request 1) (txt "prompt") (txt "sk") (rev themes) 0%nat
          empty_ledger)
       (replica_key 1) "error"
     = Some (PStr (txt "API Error: Classic Game Shop")).
Proof.
  split; [reflexivity|].
  split; [vm_compute; reflexivity|].
  split; vm_compute; reflexivity.
Qed.

(** ** Identifier suffixes *)

Lemma map_nth_seq {A : Type} (l : list A) (d : A) (n : nat) :
  (n <= length l)%nat -> map (fun i => nth i l d) (seq 0 n) = firstn n l.
Proof.
  revert n. induction l as [|x l IH]; intros [|n] Hn; simpl in *;
    try reflexivity; try lia.
  f_equal. rewrite <- seq_shift, map_map. apply IH. lia.
Qed.

(** Within the size of the pool the cycle does not wrap: the units get the
    first themes of the pool. *)
Lemma themes_within_pool (pool : list text) (n : nat) :
  (n <= length pool)%nat -> map (theme_at pool) (seq 1 n) = firstn n pool.
Proof.
  intros Hn. rewrite <- seq_shift, map_map.
  rewrite <- (map_nth_seq pool [] n Hn).
  apply map_ext_in. intros i Hi. apply in_seq in Hi.
  unfold theme_at. simpl. rewrite Nat.sub_0_r.
  rewrite Nat.mod_small by lia. reflexivity.
Qed.

Lemma NoDup_firstn {A : Type} (l : list A) (n : nat) :
  NoDup l -> NoDup (firstn n l).
Proof.
  intros H. apply (sublist_NoDup (firstn n l) l); [assumption|].
  apply sublist_take.
Qed.

Lemma NoDup_rev_list {A : Type} (l : list A) : NoDup l -> NoDup (rev l).
Proof.
  intros H. apply NoDup_ListNoDup, List.NoDup_rev, NoDup_ListNoDup, H.
Qed.

Lemma NoDup_permuted {A : Type} (l l' : list A) :
  Permutation l l' -> NoDup l -> NoDup l'.
Proof.
  intros Hp H. apply NoDup_ListNoDup.
  eapply Permutation_NoDup; [exact Hp|]. now apply NoDup_ListNoDup.
Qed.

Lemma pool_suffixes_distinct : NoDup (map theme_suffix themes).
Proof. refine (bool_decide_unpack _ _). vm_compute. exact I. Qed.

Lemma pool_suffixes_nonempty : Forall (fun s => s <> []) (map theme_suffix themes).
Proof. refine (bool_decide_unpack _ _). vm_compute. exact I. Qed.

(** C6.  Whatever order the shuffle put the pool in, for a batch of at most
    as many units as the pool has themes, the identifier suffixes compiled
    into the prompts of the units are pairwise distinct and none is empty. *)
Theorem suffixes_distinct_within_pool_size :
  forall (service : nat -> text -> text -> api_result) (count_tokens : text -> Z)
         (data : Request) (shuffled_themes : list text)
         (record_response : nat -> text -> nat -> gmap string pyval * nat)
         (next : nat),
    Permutation themes shuffled_themes ->
    0 <= req_num_replicas data <= Z.of_nat (length themes) ->
    let suffixes :=
      map snd (dispatched (run_units service count_tokens data shuffled_themes
                             record_response next)) in
    length suffixes = Z.to_nat (req_num_replicas data)
    /\ NoDup suffixes
    /\ Forall (fun s => s <> []) suffixes.
Proof.
  intros service count_tokens data shuffled_themes record_response next
    Hperm Hn suffixes.
  assert (Hlen : length shuffled_themes = length themes)
    by (symmetry; now apply Permutation_length).
  assert (Hsuf : suffixes
                 = rev (map theme_suffix
                          (firstn (Z.to_nat (req_num_replicas data)) shuffled_themes))).
  { unfold suffixes. rewrite run_units_dispatched, map_rev, map_map. simpl.
    unfold unit_indices.
    rewrite <- (themes_within_pool shuffled_themes) by lia.
    rewrite map_map. reflexivity. }
  rewrite Hsuf. split; [|split].
  - rewrite length_rev, length_map, length_firstn. lia.
  - apply NoDup_rev_list. rewrite <- firstn_map. apply NoDup_firstn.
    eapply NoDup_permuted; [|apply pool_suffixes_distinct].
    now apply Permutation_map.
  - apply Forall_rev. rewrite <- firstn_map. apply Forall_take.
    eapply Permutation_Forall; [|apply pool_suffixes_nonempty].
    now apply Permutation_map.
Qed.

(** Three units on the reversed pool. *)
Lemma suffixes_distinct_within_pool_size_witness :
  let suffixes :=
    map snd (dispatched (run_units raising_service length_tokens
                           (test_api_request 3) (rev themes)
                           (record_response_main parse_structured_response)
                           0%nat)) in
  length suffixes = 3%nat /\ NoDup suffixes /\ Forall (fun s => s <> []) suffixes.
Proof.
  apply (suffixes_distinct_within_pool_size raising_service length_tokens
           (test_api_request 3) (rev themes)
           (record_response_main parse_structured_response) 0%nat).
  - apply Permutation_rev.
  - vm_compute. split; discriminate.
Defined.

(** ** Entries of the answer *)

Lemma update_metadata_fields s c m u entry :
  update_metadata s c m u entry !! "subtopic"%string = Some (PStr s)
  /\ update_metadata s c m u entry !! "course"%string = Some (PStr c)
  /\ update_metadata s c m u entry !! "module"%string = Some (PStr m)
  /\ update_metadata s c m u entry !! "unit"%string = Some (PStr u).
Proof. unfold update_metadata. repeat split; by simplify_map_eq. Qed.

Lemma update_metadata_other s c m u entry k :
  k ∉ metadata_keys ->
  update_metadata s c m u entry !! k = entry !! k.
Proof.
  unfold metadata_keys, update_metadata. intros Hk.
  rewrite !lookup_insert_ne; [reflexivity|..]; intros <-; apply Hk;
    rewrite !elem_of_union, !elem_of_singleton; tauto.
Qed.

Lemma update_metadata_dom s c m u entry :
  dom (update_metadata s c m u entry) = dom entry ∪ metadata_keys.
Proof.
  unfold metadata_keys, update_metadata. rewrite !dom_insert_L.
  apply set_eq. intros x. rewrite !elem_of_union, !elem_of_singleton. tauto.
Qed.

Section Slots.

Variable service : nat -> text -> text -> api_result.
Variable count_tokens : text -> Z.
Variable uuid4 : nat -> text.
Variable parse : text -> option (gmap string pyval).
Variable data : Request.
Variable formatted_prompt current_api_key : text.
Variable shuffled_themes : list text.
Variable next : nat.
Variable ledger : TokenRow.

Hypothesis key_configured : current_api_key <> [].

Let meta :=
  update_metadata
    (default [] (req_subtopic data)) (default [] (req_course data))
    (default [] (req_module data)) (default [] (req_unit data)).

Let app_answer :=
  generate_replicas_app service count_tokens uuid4 parse data formatted_prompt
    current_api_key shuffled_themes next ledger.

Let main_answer :=
  generate_replicas_main service count_tokens parse data formatted_prompt
    current_api_key shuffled_themes next ledger.

(** The identifier counter when the turn of unit [i] of [app.py] starts. *)
Let app_counter_at (i : nat) : nat :=
  counter_after service shuffled_themes (record_response_app uuid4 parse data)
    (seq 1 (i - 1)) next.

Lemma app_slot k :
  response_slot app_answer k
  = meta <$> all_replicas
               (run_units service count_tokens data shuffled_themes
                  (record_response_app uuid4 parse data) next) !! k.
Proof.
  unfold app_answer.
  destruct (generate_replicas_app_body service count_tokens uuid4 parse data
              formatted_prompt current_api_key shuffled_themes next ledger
              key_configured) as (body & ledger' & -> & Hrep).
  simpl. rewrite Hrep, lookup_fmap. reflexivity.
Qed.

Lemma main_slot k :
  response_slot main_answer k
  = meta <$> all_replicas
               (run_units service count_tokens data themes
                  (record_response_main parse) next) !! k.
Proof.
  unfold main_answer.
  destruct (generate_replicas_main_body service count_tokens parse data
              formatted_prompt current_api_key shuffled_themes next ledger
              key_configured) as (body & ledger' & -> & Hrep).
  simpl. rewrite Hrep, lookup_fmap. reflexivity.
Qed.

Lemma app_slot_of_unit i :
  (1 <= i)%nat -> Z.of_nat i <= req_num_replicas data ->
  response_slot app_answer (replica_key i)
  = Some (meta (fst (unit_entry service shuffled_themes
                       (record_response_app uuid4 parse data) i
                       (app_counter_at i)))).
Proof.
  intros H1 Hn. rewrite app_slot, run_units_slot by assumption. reflexivity.
Qed.

Lemma main_slot_of_unit i :
  (1 <= i)%nat -> Z.of_nat i <= req_num_replicas data ->
  exists counter,
    response_slot main_answer (replica_key i)
    = Some (meta (fst (unit_entry service themes
                         (record_response_main parse) i counter))).
Proof.
  intros H1 Hn. rewrite main_slot, run_units_slot by assumption. eauto.
Qed.

(** A slot that is filled is the slot of a unit of the batch. *)
Lemma app_slot_in_range k entry :
  response_slot app_answer k = Some entry ->
  exists i, (1 <= i)%nat /\ Z.of_nat i <= req_num_replicas data
            /\ k = replica_key i.
Proof.
  rewrite app_slot. intros H.
  eapply (proj1 (run_units_slots _ _ _ _ _ _ _)).
  eapply fmap_is_Some. rewrite H. eauto.
Qed.

(** Every entry of the answer of [app.py] carries the four texts of the
    request as its metadata, whatever its turn stored under these keys. *)
Lemma app_returned_metadata k entry :
  response_slot app_answer k = Some entry ->
  entry !! "subtopic"%string = Some (PStr (default [] (req_subtopic data)))
  /\ entry !! "course"%string = Some (PStr (default [] (req_course data)))
  /\ entry !! "module"%string = Some (PStr (default [] (req_module data)))
  /\ entry !! "unit"%string = Some (PStr (default [] (req_unit data))).
Proof.
  rewrite app_slot. intros H.
  apply fmap_Some in H as (stored & _ & ->).
  apply update_metadata_fields.
Qed.

End Slots.

(** ** Metadata of the returned records *)

(** C8.  The request of [test_api.py]: its tags give "Css Flexbox", "Modern
    Responsive Web Design", "Introduction To Css Flexbox" twice; the unit is
    parsed (its title is "Bakery"), yet the record that [app.py] returns has
    the empty text in [subtopic], [course], [module] and [unit]: the loop at
    the end of [generate_replicas] writes the request's own four fields,
    absent here, over what the tags gave. *)
Theorem returned_metadata_overwritten_by_request_fields :
  let answer :=
    App.generate_replicas bakery_service length_tokens numbered_uuid4
      (test_api_request 2) (txt "prompt") (txt "sk") (rev themes) 0%nat
      empty_ledger in
  (extract_tag_value test_api_tags (txt "SUB_TOPIC_")
   = Return (txt "Css Flexbox")
   /\ extract_tag_value test_api_tags (txt "COURSE_")
      = Return (txt "Modern Responsive Web Design")
   /\ extract_tag_value test_api_tags (txt "MODULE_")
      = Return (txt "Introduction To Css Flexbox")
   /\ extract_tag_value test_api_tags (txt "UNIT_")
      = Return (txt "Introduction To Css Flexbox"))
  /\ response_field answer (replica_key 1) "short_text" = Some (PStr (txt "Bakery"))
  /\ response_field answer (replica_key 1) "subtopic" = Some (PStr [])
  /\ response_field answer (replica_key 1) "course" = Some (PStr [])
  /\ response_field answer (replica_key 1) "module" = Some (PStr [])
  /\ response_field answer (replica_key 1) "unit" = Some (PStr []).
Proof.
  intros answer. split.
  - repeat split; vm_compute; reflexivity.
  - repeat split; vm_compute; reflexivity.
Qed.

(** ** Failure entries *)

(** The claim that an API failure is returned with nothing but its error
    message fails: the entry of a unit whose call raised also has the four
    metadata keys. *)
Lemma api_failure_entry_not_error_only :
  let answer :=
    App.generate_replicas raising_service length_tokens numbered_uuid4
      (test_api_request 1) (txt "prompt") (txt "sk") (rev themes) 0%nat
      empty_ledger in
  ~ (exists message,
       response_slot answer (replica_key 1)
       = Some {[ "error"%string := PStr message ]}).
Proof.
  intros answer [message Hentry].
  assert (Hfield : response_field answer (replica_key 1) "subtopic"
                   = Some (PStr [])) by (vm_compute; reflexivity).
  unfold response_field in Hfield. rewrite Hentry in Hfield. simpl in Hfield.
  rewrite lookup_singleton_ne in Hfield; discriminate.
Qed.

Lemma api_error_entry_fields message :
  api_error_entry message !! "error"%string
  = Some (PStr (txt "API Error: " ++ message))
  /\ api_error_entry message !! "raw_response"%string = None
  /\ dom (api_error_entry message) = {[ "error"%string ]}.
Proof.
  unfold api_error_entry. split; [|split].
  - apply lookup_singleton_eq.
  - by apply lookup_singleton_ne.
  - apply dom_singleton_L.
Qed.

Lemma parse_failure_entry_fields i response_content :
  parse_failure_entry i response_content !! "error"%string
  = Some (PStr (txt ("Failed to parse structured response for replica "
                       +:+ pretty i)))
  /\ parse_failure_entry i response_content !! "raw_response"%string
     = Some (PStr (take_chars 500 response_content))
  /\ dom (parse_failure_entry i response_content)
     = {[ "error"%string; "raw_response"%string ]}.
Proof.
  unfold parse_failure_entry. split; [|split].
  - apply lookup_insert_eq.
  - rewrite lookup_insert_ne by done. apply lookup_singleton_eq.
  - rewrite dom_insert_L, dom_singleton_L. reflexivity.
Qed.

(** The fields of a failure entry once the metadata is on it. *)
Lemma failure_entry_with_metadata s c m u (entry : gmap string pyval) :
  update_metadata s c m u entry !! "error"%string = entry !! "error"%string
  /\ update_metadata s c m u entry !! "raw_response"%string
     = entry !! "raw_response"%string.
Proof.
  split; apply update_metadata_other; unfold metadata_keys;
    rewrite !elem_of_union, !elem_of_singleton; intros [[[?|?]|?]|?]; discriminate.
Qed.

Lemma parse_failed_not_parsed (parsed : option (gmap string pyval)) replica_data :
  parse_failed parsed -> parsed = Some replica_data -> replica_data <> ∅ -> False.
Proof. intros [->| ->] H; [discriminate|]. injection H as <-. congruence. Qed.

Lemma parse_exception_entry_fields i e response_content :
  parse_exception_entry i e response_content !! "error"%string
  = Some (PStr (txt ("Failed to parse replica " +:+ pretty i +:+ ": ")
                ++ str_exn e))
  /\ parse_exception_entry i e response_content !! "raw_response"%string
     = Some (PStr (take_chars 500 response_content))
  /\ dom (parse_exception_entry i e response_content)
     = {[ "error"%string; "raw_response"%string ]}.
Proof.
  unfold parse_exception_entry. split; [|split].
  - apply lookup_insert_eq.
  - rewrite lookup_insert_ne by done. apply lookup_singleton_eq.
  - rewrite dom_insert_L, dom_singleton_L. reflexivity.
Qed.

(** [parse_structured_response] returns a dictionary that is not empty. *)
Lemma parse_structured_response_not_failed content :
  ~ parse_failed (parse_structured_response content).
Proof.
  unfold parse_failed. intros [H|H].
  - unfold parse_structured_response in H. discriminate H.
  - apply (f_equal (fun parsed : option (gmap string pyval) =>
                      match parsed with
                      | Some d => d !! "short_text"%string
                      | None => None
                      end)) in H.
    unfold parse_structured_response, list_to_map in H.
    cbn [foldr fst snd] in H.
    rewrite lookup_insert_eq, lookup_empty in H. discriminate H.
Qed.

Lemma parse_structured_response_not_empty content replica_data :
  parse_structured_response content = Some replica_data -> replica_data <> ∅.
Proof.
  intros H ->. apply (parse_structured_response_not_failed content).
  right. exact H.
Qed.

(** [take_chars k] keeps [k] characters, all of them when there are fewer,
    and stops in front of a character. *)
Lemma take_chars_count k s :
  char_count (take_chars k s) = Nat.min k (char_count s).
Proof.
  revert k. induction s as [|c rest IH]; intros k; simpl.
  - now rewrite Nat.min_0_r.
  - unfold char_count in *. simpl.
    destruct (is_continuation c) eqn:Hc; simpl.
    + rewrite Hc. simpl. apply IH.
    + destruct k as [|k]; simpl; [reflexivity|].
      rewrite Hc. simpl. now rewrite IH.
Qed.

Lemma take_chars_prefix k s :
  exists rest,
    s = take_chars k s ++ rest
    /\ match rest with
       | [] => True
       | c :: _ => is_continuation c = false
       end.
Proof.
  revert k. induction s as [|c rest IH]; intros k; simpl.
  - exists []. auto.
  - destruct (is_continuation c) eqn:Hc.
    + destruct (IH k) as (r & Hr & Hb). exists r. simpl. now rewrite <- Hr.
    + destruct k as [|k].
      * exists (c :: rest). auto.
      * destruct (IH k) as (r & Hr & Hb). exists r. simpl. now rewrite <- Hr.
Qed.

(** C10, amended.  In the answer of [app.py] and of [main.py], the entry of a
    unit whose call raised has the error message "API Error: ..." and no
    [raw_response]; the entry of a unit whose response came but did not parse
    has an error message and, under [raw_response], the first 500 characters
    of the response.  So has, in [app.py], the entry of a unit whose response
    parsed but for which reading the request's [tag_names] raised, its
    message being "Failed to parse replica i: " and the text of the
    exception; with [parse_structured_response], which never fails, this is
    the only way to such an entry.  Either entry has, besides, the four
    metadata keys that the end of [generate_replicas] puts on every entry,
    and nothing else. *)
Theorem failure_entries_differ_by_raw_response :
  forall (service : nat -> text -> text -> api_result) (count_tokens : text -> Z)
         (uuid4 : nat -> text) (parse : text -> option (gmap string pyval))
         (data : Request) (formatted_prompt current_api_key : text)
         (shuffled_themes : list text) (next : nat) (ledger : TokenRow)
         (i : nat),
    current_api_key <> [] ->
    (1 <= i)%nat -> Z.of_nat i <= req_num_replicas data ->
    let raised_shape (message : text) (entry : gmap string pyval) :=
      entry !! "error"%string = Some (PStr (txt "API Error: " ++ message))
      /\ entry !! "raw_response"%string = None
      /\ dom entry = {[ "error"%string ]} ∪ metadata_keys in
    let unparsed_shape (message content : text) (entry : gmap string pyval) :=
      entry !! "error"%string = Some (PStr message)
      /\ entry !! "raw_response"%string = Some (PStr (take_chars 500 content))
      /\ dom entry = {[ "error"%string; "raw_response"%string ]} ∪ metadata_keys in
    (exists entry,
       response_slot
         (generate_replicas_app service count_tokens uuid4 parse data
            formatted_prompt current_api_key shuffled_themes next ledger)
         (replica_key i) = Some entry
       /\ match service i (theme_at shuffled_themes i)
                  (theme_suffix (theme_at shuffled_themes i)) with
          | ApiRaises message => raised_shape message entry
          | ApiReturns content =>
              (parse_failed (parse content) ->
               unparsed_shape
                 (txt ("Failed to parse structured response for replica "
                         +:+ pretty i)) content entry)
              /\ (forall e,
                    ~ parse_failed (parse content) ->
                    tag_metadata (req_tag_names data) = Raise e ->
                    unparsed_shape
                      (txt ("Failed to parse replica " +:+ pretty i +:+ ": ")
                       ++ str_exn e) content entry)
          end)
    /\ (exists entry,
          response_slot
            (generate_replicas_main service count_tokens parse data
               formatted_prompt current_api_key shuffled_themes next ledger)
            (replica_key i) = Some entry
          /\ match service i (theme_at themes i)
                     (theme_suffix (theme_at themes i)) with
             | ApiRaises message => raised_shape message entry
             | ApiReturns content =>
                 parse_failed (parse content) ->
                 unparsed_shape
                   (txt ("Failed to parse structured response for replica "
                           +:+ pretty i)) content entry
             end)
    /\ (forall content, ~ parse_failed (parse_structured_response content))
    /\ (forall k content,
          char_count (take_chars k content) = Nat.min k (char_count content)
          /\ exists rest,
               content = take_chars k content ++ rest
               /\ match rest with
                  | [] => True
                  | c :: _ => is_continuation c = false
                  end).
Proof.
  intros service count_tokens uuid4 parse data formatted_prompt current_api_key
    shuffled_themes next ledger i Hkey H1 Hn raised_shape unparsed_shape.
  assert (Hraised : forall message,
            raised_shape message
              (update_metadata
                 (default [] (req_subtopic data)) (default [] (req_course data))
                 (default [] (req_module data)) (default [] (req_unit data))
                 (api_error_entry message))).
  { intros message. unfold raised_shape.
    destruct (api_error_entry_fields message) as (He & Hr & Hd).
    destruct (failure_entry_with_metadata
                (default [] (req_subtopic data)) (default [] (req_course data))
                (default [] (req_module data)) (default [] (req_unit data))
                (api_error_entry message)) as [-> ->].
    rewrite update_metadata_dom, Hd. auto. }
  assert (Hunparsed : forall content,
            unparsed_shape
              (txt ("Failed to parse structured response for replica "
                      +:+ pretty i)) content
              (update_metadata
                 (default [] (req_subtopic data)) (default [] (req_course data))
                 (default [] (req_module data)) (default [] (req_unit data))
                 (parse_failure_entry i content))).
  { intros content. unfold unparsed_shape.
    destruct (parse_failure_entry_fields i content) as (He & Hr & Hd).
    destruct (failure_entry_with_metadata
                (default [] (req_subtopic data)) (default [] (req_course data))
                (default [] (req_module data)) (default [] (req_unit data))
                (parse_failure_entry i content)) as [-> ->].
    rewrite update_metadata_dom, Hd. auto. }
  split; [|split; [|split]].
  - rewrite app_slot_of_unit by assumption. eexists. split; [reflexivity|].
    unfold unit_entry.
    destruct (service i _ _) as [message|content]; cbn [fst]; [apply Hraised|].
    destruct (record_response_app_cases uuid4 parse data i content
                (counter_after service shuffled_themes
                   (record_response_app uuid4 parse data) (seq 1 (i - 1)) next))
      as [[Hfail ->]|(replica_data & Hp & Hne & ->)].
    + split; [intros _; apply Hunparsed|]. intros e Hok. now destruct Hok.
    + split.
      * intros Hfail. destruct (parse_failed_not_parsed _ _ Hfail Hp Hne).
      * intros e _ ->. unfold unparsed_shape.
        destruct (parse_exception_entry_fields i e content) as (He & Hr & Hd).
        destruct (failure_entry_with_metadata
                    (default [] (req_subtopic data)) (default [] (req_course data))
                    (default [] (req_module data)) (default [] (req_unit data))
                    (parse_exception_entry i e content)) as [-> ->].
        rewrite update_metadata_dom, Hd. auto.
  - destruct (main_slot_of_unit service count_tokens parse data formatted_prompt
                current_api_key shuffled_themes next ledger Hkey i H1 Hn)
      as [counter ->].
    eexists. split; [reflexivity|].
    unfold unit_entry.
    destruct (service i _ _) as [message|content]; cbn [fst]; [apply Hraised|].
    intros Hfail.
    destruct (record_response_main_cases parse i content counter)
      as [[_ ->]|(replica_data & Hp & Hne & _)].
    + apply Hunparsed.
    + destruct (parse_failed_not_parsed _ _ Hfail Hp Hne).
  - apply parse_structured_response_not_failed.
  - intros k content. split; [apply take_chars_count|apply take_chars_prefix].
Qed.

(** One unit whose call raises; one unit whose response a failing parser
    rejects; and one unit of [app.py] as deployed, whose response parses
    while the request has [null] for its [tag_names]. *)
Lemma failure_entries_differ_by_raw_response_witness :
  (exists entry,
     response_slot
       (App.generate_replicas raising_service length_tokens numbered_uuid4
          (test_api_request 1) (txt "prompt") (txt "sk") (rev themes) 0%nat
          empty_ledger)
       (replica_key 1) = Some entry
     /\ entry !! "raw_response"%string = None)
  /\ (exists entry,
        response_slot
          (generate_replicas_main bakery_service length_tokens (fun _ => None)
             (test_api_request 1) (txt "prompt") (txt "sk") (rev themes) 0%nat
             empty_ledger)
          (replica_key 1) = Some entry
        /\ is_Some (entry !! "raw_response"%string))
  /\ (exists entry,
        response_slot
          (App.generate_replicas bakery_service length_tokens numbered_uuid4
             (null_tags_request 1) (txt "prompt") (txt "sk") (rev themes) 0%nat
             empty_ledger)
          (replica_key 1) = Some entry
        /\ entry !! "error"%string
           = Some (PStr (txt "Failed to parse replica 1: 'NoneType' object is not iterable"))
        /\ is_Some (entry !! "raw_response"%string)).
Proof.
  split; [|split].
  - destruct (failure_entries_differ_by_raw_response
                raising_service length_tokens numbered_uuid4
                parse_structured_response (test_api_request 1) (txt "prompt")
                (txt "sk") (rev themes) 0%nat empty_ledger 1%nat)
      as [(entry & Hslot & Hshape) _]; [discriminate|lia|simpl; lia|].
    exists entry. split; [exact Hslot|]. exact (proj1 (proj2 Hshape)).
  - destruct (failure_entries_differ_by_raw_response
                bakery_service length_tokens numbered_uuid4
                (fun _ => None) (test_api_request 1) (txt "prompt")
                (txt "sk") (rev themes) 0%nat empty_ledger 1%nat)
      as (_ & (entry & Hslot & Hshape) & _); [discriminate|lia|simpl; lia|].
    exists entry. split; [exact Hslot|].
    destruct (Hshape (or_introl eq_refl)) as (_ & -> & _). eauto.
  - destruct (failure_entries_differ_by_raw_response
                bakery_service length_tokens numbered_uuid4
                parse_structured_response (null_tags_request 1) (txt "prompt")
                (txt "sk") (rev themes) 0%nat empty_ledger 1%nat)
      as ((entry & Hslot & Hshape) & _ & Hdeployed & _);
      [discriminate|lia|simpl; lia|].
    exists entry. split; [exact Hslot|].
    destruct (proj2 Hshape (TypeError (txt "'NoneType' object is not iterable"))
                (Hdeployed _) eq_refl) as (He & Hr & _).
    split; [exact He|]. rewrite Hr. eauto.
Defined.

(** ** Test cases of the returned records *)

Lemma format_each_copies uuid4 (k first_id : nat) cases :
  format_each uuid4 (Z.of_nat k) cases (first_id + k)
  = (imap (fun p => copy_of uuid4 first_id (k + p)) cases,
     (first_id + k + length cases)%nat).
Proof.
  revert k. induction cases as [|test_case rest IH]; intros k.
  - simpl. rewrite Nat.add_0_r. reflexivity.
  - specialize (IH (S k)).
    replace (Z.of_nat (S k)) with (Z.of_nat k + 1) in IH by lia.
    replace (first_id + S k)%nat with (S (first_id + k)) in IH by lia.
    cbn [format_each]. rewrite IH. rewrite imap_cons. cbn [length].
    f_equal.
    + f_equal.
      * unfold copy_of. rewrite Nat.add_0_r. reflexivity.
      * apply imap_ext. intros p x _. unfold compose.
        replace (k + S p)%nat with (S k + p)%nat by lia. reflexivity.
    + lia.
Qed.

Lemma take_py_all {A : Type} (l : list A) : take_py (Z.of_nat (length l)) l = l.
Proof.
  unfold take_py. rewrite (proj2 (Z.leb_le 0 _)) by lia.
  rewrite Nat2Z.id. apply firstn_all.
Qed.

(** Called as [generate_replicas] calls it, with the number of originals as
    its cap, the function copies every original. *)
Lemma format_all_originals uuid4 originals next :
  format_test_cases_from_original uuid4 originals
    (Some (Z.of_nat (length originals))) next
  = (copies uuid4 next originals, (next + length originals)%nat).
Proof.
  unfold format_test_cases_from_original.
  rewrite Z.ltb_irrefl, andb_false_r, take_py_all.
  pose proof (format_each_copies uuid4 0 next originals) as H.
  simpl in H. rewrite !Nat.add_0_r in H. exact H.
Qed.

Lemma format_each_length uuid4 i cases next :
  length (fst (format_each uuid4 i cases next)) = length cases.
Proof.
  revert i next. induction cases as [|c rest IH]; intros i next; simpl;
    [reflexivity|].
  specialize (IH (i + 1) (S next)).
  destruct (format_each uuid4 (i + 1) rest (S next)). simpl in *. now rewrite IH.
Qed.

(** The function itself caps the copies at the smaller of a positive cap and
    the number of originals. *)
Lemma format_test_cases_cap uuid4 originals (cap : Z) next :
  0 < cap ->
  Z.of_nat (length (fst (format_test_cases_from_original uuid4 originals
                           (Some cap) next)))
  = Z.min cap (Z.of_nat (length originals)).
Proof.
  intros Hcap. unfold format_test_cases_from_original.
  rewrite format_each_length.
  rewrite (proj2 (Z.eqb_neq cap 0)) by lia. simpl.
  destruct (Z.ltb_spec cap (Z.of_nat (length originals))) as [Hlt|Hge].
  - unfold take_py. rewrite (proj2 (Z.leb_le 0 cap)) by lia.
    rewrite length_firstn. lia.
  - rewrite take_py_all. lia.
Qed.

Lemma copies_lookup uuid4 first_id originals p copy :
  copies uuid4 first_id originals !! p = Some copy ->
  exists original,
    originals !! p = Some original /\ copy = copy_of uuid4 first_id p original.
Proof.
  unfold copies. rewrite list_lookup_imap.
  destruct (originals !! p) as [original|]; simpl; [|discriminate].
  intros [= <-]. eauto.
Qed.

Lemma not_metadata_key_test_cases : "test_cases"%string ∉ metadata_keys.
Proof.
  unfold metadata_keys. rewrite !elem_of_union, !elem_of_singleton.
  intros [[[?|?]|?]|?]; discriminate.
Qed.

Section AppTestCases.

Variable service : nat -> text -> text -> api_result.
Variable count_tokens : text -> Z.
Variable uuid4 : nat -> text.
Variable parse : text -> option (gmap string pyval).
Variable data : Request.
Variable pool : list text.

Let record := record_response_app uuid4 parse data.
Let originals := req_test_cases data.

Lemma record_parsed i content replica_data counter :
  parse content = Some replica_data -> replica_data <> ∅ ->
  record i content counter
  = (match tag_metadata (req_tag_names data) with
     | Return (subtopic, course, module_, unit_) =>
         update_metadata subtopic course module_ unit_
           (<[ "test_cases"%string := PTests (copies uuid4 counter originals) ]>
              replica_data)
     | Raise e => parse_exception_entry i e content
     end,
     (counter + length originals)%nat).
Proof.
  intros Hp Hne. unfold record, record_response_app. rewrite Hp.
  rewrite bool_decide_eq_false_2 by assumption.
  rewrite format_all_originals.
  destruct (tag_metadata (req_tag_names data)) as [[[[? ?] ?] ?]|e]; reflexivity.
Qed.

Lemma record_failed i content counter :
  parse_failed (parse content) ->
  record i content counter = (parse_failure_entry i content, counter).
Proof.
  unfold record, record_response_app. intros [-> | ->]; [reflexivity|].
  rewrite bool_decide_eq_true_2; reflexivity.
Qed.

Lemma parse_outcome content :
  parse_failed (parse content)
  \/ exists replica_data, parse content = Some replica_data /\ replica_data <> ∅.
Proof.
  unfold parse_failed. destruct (parse content) as [d|]; [|auto].
  destruct (decide (d = ∅)) as [->|Hne]; eauto.
Qed.

(** The test cases embedded in what a turn stores: the copies of all the
    originals with identifiers drawn from the counter on, for a parsed
    unit whose tags were read; none for a failure entry. *)
Lemma unit_entry_test_cases i counter cases :
  fst (unit_entry service pool record i counter) !! "test_cases"%string
  = Some (PTests cases) ->
  parsed_unit service parse pool i
  /\ tags_read (req_tag_names data) = true
  /\ cases = copies uuid4 counter originals.
Proof.
  unfold unit_entry, parsed_unit, tags_read.
  destruct (service i _ _) as [message|content] eqn:Hs.
  - simpl. unfold api_error_entry. rewrite lookup_singleton_ne by done.
    discriminate.
  - destruct (parse_outcome content) as [Hfail|(d & Hp & Hne)].
    + rewrite record_failed by assumption. simpl.
      unfold parse_failure_entry.
      rewrite lookup_insert_ne by done.
      rewrite lookup_singleton_ne by done. discriminate.
    + rewrite (record_parsed i content d) by assumption. cbn [fst].
      destruct (tag_metadata (req_tag_names data)) as [[[[s c] m] u]|e].
      * rewrite update_metadata_other by apply not_metadata_key_test_cases.
        rewrite lookup_insert_eq. intros [= <-].
        split; [exists content, d; auto|split; reflexivity].
      * unfold parse_exception_entry.
        rewrite lookup_insert_ne by done.
        rewrite lookup_singleton_ne by done. discriminate.
Qed.

Lemma unit_entry_parsed_counter i counter :
  parsed_unit service parse pool i ->
  snd (unit_entry service pool record i counter)
  = (counter + length originals)%nat.
Proof.
  intros (content & d & Hs & Hp & Hne). unfold unit_entry. rewrite Hs.
  rewrite (record_parsed i content d) by assumption. reflexivity.
Qed.

Lemma unit_entry_parsed i counter :
  parsed_unit service parse pool i ->
  tags_read (req_tag_names data) = true ->
  fst (unit_entry service pool record i counter) !! "test_cases"%string
  = Some (PTests (copies uuid4 counter originals)).
Proof.
  intros (content & d & Hs & Hp & Hne) Htags. unfold unit_entry. rewrite Hs.
  rewrite (record_parsed i content d) by assumption. cbn [fst].
  unfold tags_read in Htags.
  destruct (tag_metadata (req_tag_names data)) as [[[[s c] m] u]|e];
    [|discriminate].
  rewrite update_metadata_other by apply not_metadata_key_test_cases.
  apply lookup_insert_eq.
Qed.

Lemma unit_entry_counter_grows i counter :
  (counter <= snd (unit_entry service pool record i counter))%nat.
Proof.
  unfold unit_entry. destruct (service i _ _) as [message|content]; [simpl; lia|].
  destruct (parse_outcome content) as [Hfail|(d & Hp & Hne)].
  - rewrite record_failed by assumption. simpl. lia.
  - rewrite (record_parsed i content d) by assumption. simpl. lia.
Qed.

Lemma counter_after_grows l counter :
  (counter <= counter_after service pool record l counter)%nat.
Proof.
  revert counter. induction l as [|i l IH]; intros counter; simpl; [lia|].
  etransitivity; [apply (unit_entry_counter_grows i)|apply IH].
Qed.

Lemma counter_after_app l1 l2 counter :
  counter_after service pool record (l1 ++ l2) counter
  = counter_after service pool record l2
      (counter_after service pool record l1 counter).
Proof.
  revert counter. induction l1 as [|i l1 IH]; intros counter; simpl;
    [reflexivity|apply IH].
Qed.

(** The identifiers of a parsed unit are all drawn before the turn of any
    later unit starts. *)
Lemma counter_of_later_unit next i j :
  (1 <= i)%nat -> (i < j)%nat -> parsed_unit service parse pool i ->
  (counter_after service pool record (seq 1 (i - 1)) next + length originals
   <= counter_after service pool record (seq 1 (j - 1)) next)%nat.
Proof.
  intros H1 Hij Hparsed.
  rewrite (seq_split_at i (j - 1)) by lia.
  rewrite counter_after_app. simpl.
  rewrite (unit_entry_parsed_counter i _ Hparsed).
  apply counter_after_grows.
Qed.

End AppTestCases.

Section EmbeddedTestCases.

Variable service : nat -> text -> text -> api_result.
Variable count_tokens : text -> Z.
Variable uuid4 : nat -> text.
Variable parse : text -> option (gmap string pyval).
Variable data : Request.
Variable formatted_prompt current_api_key : text.
Variable shuffled_themes : list text.
Variable next : nat.
Variable ledger : TokenRow.

Hypothesis key_configured : current_api_key <> [].

Let answer :=
  generate_replicas_app service count_tokens uuid4 parse data formatted_prompt
    current_api_key shuffled_themes next ledger.
Let originals := req_test_cases data.
Let counter_at (i : nat) : nat :=
  counter_after service shuffled_themes (record_response_app uuid4 parse data)
    (seq 1 (i - 1)) next.

(** The test cases found in a slot of the answer are those its turn
    stored: the loop at the end does not touch them. *)
Lemma app_field_test_cases i :
  (1 <= i)%nat -> Z.of_nat i <= req_num_replicas data ->
  response_field answer (replica_key i) "test_cases"
  = fst (unit_entry service shuffled_themes
           (record_response_app uuid4 parse data) i (counter_at i))
      !! "test_cases"%string.
Proof.
  intros H1 Hn. unfold response_field, answer.
  rewrite app_slot_of_unit by assumption. simpl.
  apply update_metadata_other, not_metadata_key_test_cases.
Qed.

Lemma app_embedded_cases i cases :
  response_field answer (replica_key i) "test_cases" = Some (PTests cases) ->
  (1 <= i)%nat /\ Z.of_nat i <= req_num_replicas data
  /\ parsed_unit service parse shuffled_themes i
  /\ tags_read (req_tag_names data) = true
  /\ cases = copies uuid4 (counter_at i) originals.
Proof.
  intros Hfield.
  assert (Hrange : (1 <= i)%nat /\ Z.of_nat i <= req_num_replicas data).
  { unfold response_field in Hfield.
    destruct (response_slot answer (replica_key i)) as [entry|] eqn:Hslot;
      [|discriminate].
    apply app_slot_in_range in Hslot as (i' & H1 & Hn & Heq);
      [|assumption].
    apply replica_key_inj in Heq. subst i'. auto. }
  destruct Hrange as [H1 Hn].
  rewrite app_field_test_cases in Hfield by assumption.
  apply unit_entry_test_cases in Hfield as (Hparsed & Htags & ->). auto.
Qed.

End EmbeddedTestCases.

(** C3.  [format_test_cases_from_original] caps the copies at the smaller of
    its cap and the number of originals, as its docstring says ("Only
    generate as many test cases as specified by the user or available in
    original"); [generate_replicas] of [app.py] calls it with the number of
    originals as the cap, so that the record of a parsed unit embeds a copy
    of every original whatever the number of replicas asked for.  For the
    request of [test_api.py] asking for one replica, the function called with
    the number of replicas gives one copy, and the record that is returned
    embeds two, more than the smaller of 1 and 2.  The copies themselves are
    those of the originals, in their order. *)
Theorem embedded_test_cases_exceed_replica_count :
  (let data := test_api_request 1 in
   let answer :=
     App.generate_replicas bakery_service length_tokens numbered_uuid4
       data (txt "prompt") (txt "sk") (rev themes) 0%nat empty_ledger in
   length (fst (format_test_cases_from_original numbered_uuid4
                  (req_test_cases data) (Some (req_num_replicas data)) 0%nat))
   = 1%nat
   /\ exists cases,
        response_field answer (replica_key 1) "test_cases" = Some (PTests cases)
        /\ length cases = 2%nat
        /\ ~ (Z.of_nat (length cases)
              <= Z.min (req_num_replicas data)
                       (Z.of_nat (length (req_test_cases data)))))
  /\ (forall (uuid4 : nat -> text) (originals : list TestCase) (cap : Z)
             (next : nat),
        0 < cap ->
        Z.of_nat (length (fst (format_test_cases_from_original uuid4 originals
                                 (Some cap) next)))
        = Z.min cap (Z.of_nat (length originals)))
  /\ (forall (service : nat -> text -> text -> api_result)
             (count_tokens : text -> Z) (uuid4 : nat -> text)
             (parse : text -> option (gmap string pyval))
             (data : Request) (formatted_prompt current_api_key : text)
             (shuffled_themes : list text) (next : nat) (ledger : TokenRow),
        current_api_key <> [] ->
        let answer :=
          generate_replicas_app service count_tokens uuid4 parse data
            formatted_prompt current_api_key shuffled_themes next ledger in
        let originals := req_test_cases data in
        (forall i,
            (1 <= i)%nat -> Z.of_nat i <= req_num_replicas data ->
            parsed_unit service parse shuffled_themes i ->
            tags_read (req_tag_names data) = true ->
            exists first_id,
              response_field answer (replica_key i) "test_cases"
              = Some (PTests (copies uuid4 first_id originals)))
        /\ (forall i cases,
              response_field answer (replica_key i) "test_cases"
              = Some (PTests cases) ->
              length cases = length originals
              /\ forall p copy,
                   cases !! p = Some copy ->
                   exists original,
                     originals !! p = Some original
                     /\ ftc_display_text copy
                        = default [] (tc_display_text original)
                     /\ ftc_criteria copy = default [] (tc_criteria original)
                     /\ ftc_reason_for_failure copy
                        = tc_reason_for_failure original)).
Proof.
  split; [|split].
  - intros data answer. split; [vm_compute; reflexivity|].
    exists (copies numbered_uuid4 0 test_api_cases).
    split; [vm_compute; reflexivity|]. split; [reflexivity|].
    vm_compute. intros H. apply H. reflexivity.
  - intros uuid4 originals cap next. apply format_test_cases_cap.
  - intros service count_tokens uuid4 parse data formatted_prompt current_api_key
      shuffled_themes next ledger Hkey answer originals.
    split.
    + intros i H1 Hn Hparsed Htags. eexists. unfold answer.
      rewrite app_field_test_cases by assumption.
      apply (unit_entry_parsed service uuid4 parse data shuffled_themes i _
               Hparsed Htags).
    + intros i cases Hfield.
      apply app_embedded_cases in Hfield as (_ & _ & _ & _ & ->); [|assumption].
      split; [apply length_imap|].
      intros p copy Hcopy.
      apply copies_lookup in Hcopy as (original & Horig & ->).
      exists original. repeat split; assumption || reflexivity.
Qed.

(** Three replicas are asked for with the two test cases of [test_api.py]:
    here the two numbers agree, two copies by either way. *)
Lemma embedded_test_cases_exceed_replica_count_witness :
  Z.of_nat (length (fst (format_test_cases_from_original numbered_uuid4
                           test_api_cases (Some 3) 0%nat)))
  = 2
  /\ exists first_id,
       response_field
         (App.generate_replicas bakery_service length_tokens numbered_uuid4
            (test_api_request 3) (txt "prompt") (txt "sk") (rev themes) 0%nat
            empty_ledger)
         (replica_key 3) "test_cases"
       = Some (PTests (copies numbered_uuid4 first_id test_api_cases)).
Proof.
  split.
  - apply (proj1 (proj2 embedded_test_cases_exceed_replica_count)
             numbered_uuid4 test_api_cases 3 0%nat). lia.
  - apply (proj1 (proj2 (proj2 embedded_test_cases_exceed_replica_count)
                    bakery_service length_tokens numbered_uuid4
                    parse_structured_response (test_api_request 3)
                    (txt "prompt") (txt "sk") (rev themes) 0%nat empty_ledger
                    ltac:(discriminate)) 3%nat).
    + lia.
    + simpl. lia.
    + destruct (parse_structured_response bakery_response) as [d|] eqn:Hp.
      * exists bakery_response, d. split; [reflexivity|].
        split; [exact Hp|].
        exact (parse_structured_response_not_empty _ _ Hp).
      * unfold parse_structured_response in Hp. discriminate Hp.
    + reflexivity.
Defined.

Lemma txt_inj (s t : string) : txt s = txt t -> s = t.
Proof.
  unfold txt. intros H. apply (f_equal string_of_list_ascii) in H.
  now rewrite !string_of_list_ascii_of_string in H.
Qed.

Lemma numbered_uuid4_inj a b : numbered_uuid4 a = numbered_uuid4 b -> a = b.
Proof.
  unfold numbered_uuid4. intros H. apply txt_inj in H.
  apply (inj (String.append "uuid-")) in H.
  now apply (inj pretty) in H.
Qed.

(** ** Theme line *)

Lemma take_drop_while p (s : text) : take_while p s ++ drop_while p s = s.
Proof.
  induction s as [|c s IH]; simpl; [reflexivity|].
  destruct (p c); simpl; [now rewrite IH|reflexivity].
Qed.

Lemma take_while_all p (s : text) : forallb p (take_while p s) = true.
Proof.
  induction s as [|c s IH]; simpl; [reflexivity|].
  destruct (p c) eqn:E; simpl; [now rewrite E|reflexivity].
Qed.

Lemma drop_while_head p (s : text) c r : drop_while p s = c :: r -> p c = false.
Proof.
  induction s as [|x s IH]; simpl; [discriminate|].
  destruct (p x) eqn:E; [exact IH|]. intros [= <- _]. exact E.
Qed.

Lemma drop_while_all p (x y : text) :
  forallb p x = true -> drop_while p (x ++ y) = drop_while p y.
Proof.
  induction x as [|c x IH]; simpl; [reflexivity|].
  intros H. apply andb_true_iff in H as [-> H]. now apply IH.
Qed.

Lemma drop_while_stops p (x y : text) :
  drop_while p x <> [] -> drop_while p (x ++ y) = drop_while p x ++ y.
Proof.
  induction x as [|c x IH]; simpl; [congruence|].
  destruct (p c); [exact IH|reflexivity].
Qed.

Lemma drop_while_fixed p c (s : text) : p c = false -> drop_while p (c :: s) = c :: s.
Proof. intros H. simpl. now rewrite H. Qed.

(** A text that ends with a character outside the class keeps that end when
    the class is dropped from its front. *)
Lemma drop_while_keeps_last p (x : text) z :
  p z = false -> exists r, drop_while p (x ++ [z]) = r ++ [z].
Proof.
  intros Hz. induction x as [|c x IH]; simpl.
  - rewrite Hz. now exists [].
  - destruct (p c); [exact IH|]. now exists (c :: x).
Qed.

Lemma drop_while_idem p (s : text) : drop_while p (drop_while p s) = drop_while p s.
Proof.
  induction s as [|c s IH]; simpl; [reflexivity|].
  destruct (p c) eqn:E; [exact IH|]. simpl. now rewrite E.
Qed.

Lemma forallb_rev_text p (s : text) : forallb p (rev s) = forallb p s.
Proof.
  induction s as [|c s IH]; simpl; [reflexivity|].
  rewrite forallb_app, IH. simpl. rewrite andb_true_r. apply andb_comm.
Qed.

(** [rstrip] cuts a run of the class off the end. *)
Lemma rstrip_by_decomposition p (s : text) :
  exists ws, s = rstrip_by p s ++ ws /\ forallb p ws = true.
Proof.
  unfold rstrip_by. exists (rev (take_while p (rev s))). split.
  - rewrite <- rev_app_distr, take_drop_while, rev_involutive. reflexivity.
  - rewrite forallb_rev_text. apply take_while_all.
Qed.

Lemma rstrip_by_last p (x : text) :
  rstrip_by p x = [] \/ exists b z, rstrip_by p x = b ++ [z] /\ p z = false.
Proof.
  unfold rstrip_by. destruct (drop_while p (rev x)) as [|c r] eqn:E.
  - now left.
  - right. exists (rev r), c. split; [reflexivity|].
    eapply drop_while_head. exact E.
Qed.

Lemma rstrip_by_ends_outside p (b : text) z :
  p z = false -> rstrip_by p (b ++ [z]) = b ++ [z].
Proof.
  intros Hz. unfold rstrip_by. rewrite rev_app_distr. simpl. rewrite Hz.
  simpl. now rewrite rev_involutive.
Qed.

Lemma rstrip_by_class_end p (s ws : text) :
  forallb p ws = true -> rstrip_by p (s ++ ws) = rstrip_by p s.
Proof.
  intros H. unfold rstrip_by. rewrite rev_app_distr.
  rewrite drop_while_all; [reflexivity|]. now rewrite forallb_rev_text.
Qed.

Lemma rstrip_by_idem p (s : text) : rstrip_by p (rstrip_by p s) = rstrip_by p s.
Proof.
  unfold rstrip_by. rewrite rev_involutive, drop_while_idem. reflexivity.
Qed.

(** Trimming the end first changes nothing of the trimmed text. *)
Lemma strip_by_rstrip_by p (s : text) : strip_by p (rstrip_by p s) = strip_by p s.
Proof.
  unfold strip_by, lstrip_by.
  destruct (rstrip_by_decomposition p s) as (ws & Hs & Hws).
  destruct (rstrip_by_last p s) as [Hnil|(b & z & Hb & Hz)].
  - rewrite Hnil. simpl. rewrite Hs at 1. rewrite Hnil. simpl.
    rewrite <- (app_nil_r ws), drop_while_all by assumption. reflexivity.
  - rewrite Hs at 2. rewrite Hb.
    destruct (drop_while_keeps_last p b z Hz) as [r Hr].
    rewrite (drop_while_stops p (b ++ [z]) ws)
      by (rewrite Hr; destruct r; discriminate).
    rewrite rstrip_by_class_end by assumption. reflexivity.
Qed.

Lemma startswith_self_app (p x : text) : startswith p (p ++ x) = true.
Proof.
  induction p as [|a p IH]; simpl; [reflexivity|].
  now rewrite Ascii.eqb_refl, IH.
Qed.

Lemma startswith_app_mono (p x y : text) :
  startswith p x = true -> startswith p (x ++ y) = true.
Proof.
  revert x. induction p as [|a p IH]; intros [|b x]; simpl; try reflexivity;
    try discriminate.
  intros H. apply andb_true_iff in H as [-> H]. simpl. now apply IH.
Qed.

(** A prefix found in [v ++ rest] lies in [v], or [v] is its beginning and
    what is left of it starts [rest]. *)
Lemma startswith_app_cases (p v rest : text) :
  startswith p (v ++ rest) = true ->
  startswith p v = true
  \/ exists p2, p = v ++ p2 /\ p2 <> [] /\ startswith p2 rest = true.
Proof.
  revert p. induction v as [|b v IH]; intros p H; simpl in *.
  - destruct p as [|a p]; [now left|].
    right. exists (a :: p). repeat split; [discriminate|assumption].
  - destruct p as [|a p]; [now left|].
    apply andb_true_iff in H as [Hab H]. apply eqb_true_iff in Hab. subst b.
    destruct (IH p H) as [Hv|(p2 & -> & Hne & Hp2)].
    + left. simpl. now rewrite Ascii.eqb_refl.
    + right. exists p2. auto.
Qed.

Lemma contains_startswith (p s : text) :
  contains p s = false -> startswith p s = false.
Proof.
  destruct s; simpl; intros H; apply orb_false_iff in H; tauto.
Qed.

Lemma contains_app_r (p x y : text) :
  contains p (x ++ y) = false -> contains p y = false.
Proof.
  induction x as [|c x IH]; [trivial|].
  simpl. intros H. apply orb_false_iff in H as [_ H]. now apply IH.
Qed.

Lemma contains_app_l (p x y : text) :
  contains p (x ++ y) = false -> contains p x = false.
Proof.
  induction x as [|c x IH]; simpl.
  - intros H. rewrite orb_false_r.
    destruct (startswith p []) eqn:E; [|reflexivity].
    rewrite <- H. destruct y; simpl.
    + now rewrite E.
    + destruct p; [reflexivity|discriminate].
  - intros H. apply orb_false_iff in H as [Hs H].
    rewrite (IH H), orb_false_r.
    destruct (startswith p (c :: x)) eqn:E; [|reflexivity].
    rewrite <- Hs. symmetry. apply (startswith_app_mono p (c :: x) y E).
Qed.

Lemma contains_found (p pre rest : text) :
  startswith p rest = true -> contains p (pre ++ rest) = true.
Proof.
  intros H. induction pre as [|c pre IH]; simpl.
  - destruct rest; simpl in *; now rewrite H.
  - rewrite IH. apply orb_true_r.
Qed.

Lemma lower_app (x y : text) : lower (x ++ y) = lower x ++ lower y.
Proof. apply map_app. Qed.

Lemma space_not_upper c : isspace c = true -> isupper c = false.
Proof.
  unfold isspace, isupper. cbv zeta. intros H.
  apply andb_false_iff.
  destruct (Nat.leb_spec 65 (code c)); [|now left]. right.
  apply Nat.leb_gt.
  apply orb_true_iff in H as [H|H].
  - apply orb_true_iff in H as [H|H];
      apply andb_true_iff in H as [_ H]; apply Nat.leb_le in H; lia.
  - apply Nat.eqb_eq in H. lia.
Qed.

Lemma to_lower_space c : isspace c = true -> to_lower c = c.
Proof. intros H. unfold to_lower. now rewrite (space_not_upper c H). Qed.

Lemma digit_not_space c : isdigit c = true -> isspace c = false.
Proof.
  unfold isspace, isdigit. cbv zeta. intros H.
  apply andb_true_iff in H as [H1 H2].
  apply Nat.leb_le in H1, H2.
  apply orb_false_iff. split; [apply orb_false_iff; split|].
  - apply andb_false_iff. right. apply Nat.leb_gt. lia.
  - apply andb_false_iff. right. apply Nat.leb_gt. lia.
  - apply Nat.eqb_neq. lia.
Qed.

Lemma replica_word_no_space c : c ∈ replica_word -> isspace c = false.
Proof.
  intros H. unfold replica_word, txt in H. simpl in H.
  repeat (apply elem_of_cons in H as [->|H]; [reflexivity|]).
  inversion H.
Qed.

(** A text without the word, followed by white space: the word does not
    start at its beginning. *)
Lemma replica_not_across_space (v : text) w rest :
  contains replica_word (lower v) = false -> isspace w = true ->
  startswith replica_word (lower (v ++ w :: rest)) = false.
Proof.
  intros Hv Hw. destruct (startswith _ _) eqn:E; [|reflexivity].
  rewrite lower_app in E.
  apply startswith_app_cases in E as [E|(p2 & Hp & Hne & E)].
  - apply contains_startswith in Hv. congruence.
  - destruct p2 as [|h p2]; [congruence|].
    simpl in E. apply andb_true_iff in E as [E _].
    apply eqb_true_iff in E. rewrite (to_lower_space w Hw) in E. subst h.
    assert (Hin : w ∈ replica_word).
    { rewrite Hp. apply elem_of_app. right. left. }
    apply replica_word_no_space in Hin. congruence.
Qed.

Lemma drop_while_skip p c (s : text) :
  p c = true -> drop_while p (c :: s) = drop_while p s.
Proof. intros H. simpl. now rewrite H. Qed.

Lemma match_replica_without_word s :
  startswith replica_word
    (lower (drop_while isspace (skip_hyphen (drop_while isspace s)))) = false ->
  match_replica s = None.
Proof. intros H. unfold match_replica. cbv zeta. now rewrite H. Qed.

(** Inside a text that does not hold the word and ends outside the white
    space, no match starts, when what follows begins with white space and
    has a hyphen as its first character that is not white space. *)
Lemma no_match_before_suffix (u : text) z rest :
  isspace z = false ->
  contains replica_word (lower (u ++ [z])) = false ->
  (exists w rest', rest = w :: rest' /\ isspace w = true) ->
  (exists rest', drop_while isspace rest = "-"%char :: rest') ->
  match_replica ((u ++ [z]) ++ rest) = None.
Proof.
  intros Hz Hc (w & rest1 & -> & Hw) (rest2 & Hrest).
  apply match_replica_without_word.
  destruct (drop_while_keeps_last isspace u z Hz) as [r Hr].
  rewrite (drop_while_stops isspace (u ++ [z]))
    by (rewrite Hr; destruct r; discriminate).
  assert (Hcr : contains replica_word (lower (r ++ [z])) = false).
  { rewrite <- Hr. rewrite <- (take_drop_while isspace (u ++ [z])) in Hc.
    rewrite lower_app in Hc. eapply contains_app_r. exact Hc. }
  assert (Hhead : forall c r', r ++ [z] = c :: r' -> isspace c = false).
  { intros c r' Heq. rewrite <- Hr in Heq. eapply drop_while_head. exact Heq. }
  rewrite Hr. clear Hr Hc u.
  destruct (r ++ [z]) as [|c r'] eqn:Hu; [destruct r; discriminate|].
  cbn [app skip_hyphen]. destruct (Ascii.eqb c "-") eqn:Ec.
  - (* the hyphen is taken *)
    destruct r' as [|c' r''].
    + cbn [app]. rewrite Hrest. reflexivity.
    + assert (Hlast : exists r3, c' :: r'' = r3 ++ [z]).
      { destruct r as [|x r]; simpl in Hu; [discriminate|].
        injection Hu as _ Hu. eauto. }
      destruct Hlast as [r3 Hr3]. rewrite Hr3 in *.
      destruct (drop_while_keeps_last isspace r3 z Hz) as [r4 Hr4].
      rewrite (drop_while_stops isspace (r3 ++ [z]))
        by (rewrite Hr4; destruct r4; discriminate).
      apply replica_not_across_space; [|assumption].
      change (c :: r3 ++ [z]) with ([c] ++ (r3 ++ [z])) in Hcr.
      rewrite <- (take_drop_while isspace (r3 ++ [z])) in Hcr.
      rewrite !lower_app in Hcr.
      apply contains_app_r in Hcr. apply contains_app_r in Hcr.
      exact Hcr.
  - (* no hyphen *)
    change ((c :: r') ++ w :: rest1) with (c :: (r' ++ w :: rest1)).
    rewrite drop_while_fixed by (eapply Hhead; reflexivity).
    change (c :: r' ++ w :: rest1) with ((c :: r') ++ w :: rest1).
    now apply replica_not_across_space.
Qed.

Lemma replica_word_head_no_space (word : text) :
  lower word = replica_word ->
  length word = 7%nat
  /\ exists c word', word = c :: word' /\ isspace c = false.
Proof.
  intros H. split.
  - rewrite <- (length_map to_lower). unfold lower in H. rewrite H. reflexivity.
  - destruct word as [|c word']; [discriminate|].
    exists c, word'. split; [reflexivity|].
    destruct (isspace c) eqn:E; [|reflexivity].
    unfold lower, replica_word, txt in H. simpl in H.
    injection H as H _. rewrite (to_lower_space c E) in H. subst c.
    discriminate.
Qed.

Lemma digits_then_space_dropped (digits : text) :
  forallb isdigit digits = true ->
  drop_while isspace (drop_while isdigit (drop_while isspace digits)) = [].
Proof.
  intros H.
  assert (Hd : drop_while isspace digits = digits).
  { destruct digits as [|d digits]; [reflexivity|].
    simpl in H. apply andb_true_iff in H as [H _].
    apply drop_while_fixed, digit_not_space, H. }
  rewrite Hd, <- (app_nil_r digits), drop_while_all by assumption.
  reflexivity.
Qed.

(** The trailing suffix, with the white space before it, is one match that
    runs to the end of the text. *)
Lemma match_replica_suffix (ws word digits : text) :
  forallb isspace ws = true -> lower word = replica_word ->
  forallb isdigit digits = true ->
  let s := ws ++ txt " - " ++ word ++ txt " " ++ digits in
  match_replica s = Some ([], length s).
Proof.
  intros Hws Hword Hdigits s.
  destruct (replica_word_head_no_space word Hword) as (Hlen & c & word' & -> & Hc).
  unfold match_replica. cbv zeta. unfold s.
  rewrite drop_while_all by assumption.
  change (txt " - " ++ (c :: word') ++ txt " " ++ digits)
    with (" "%char :: "-"%char :: " "%char :: c :: word' ++ " "%char :: digits).
  rewrite drop_while_skip by reflexivity.
  rewrite drop_while_fixed by reflexivity.
  cbn [skip_hyphen]. change (Ascii.eqb "-" "-") with true. cbv iota.
  rewrite drop_while_skip by reflexivity.
  rewrite drop_while_fixed by assumption.
  change (c :: word' ++ " "%char :: digits)
    with ((c :: word') ++ " "%char :: digits).
  rewrite lower_app, Hword, startswith_self_app.
  rewrite skipn_app, Hlen, skipn_all2 by lia.
  rewrite Nat.sub_diag. cbn [skipn app].
  rewrite drop_while_skip by reflexivity.
  rewrite digits_then_space_dropped by assumption.
  unfold consumed. cbn [length]. rewrite Nat.sub_0_r. reflexivity.
Qed.

Lemma re_sub_from_skip_all matcher skip (s : text) :
  (length s <= skip)%nat -> re_sub_from matcher skip s = [].
Proof.
  revert skip. induction s as [|c s IH]; intros skip H; simpl; [reflexivity|].
  destruct skip as [|k]; simpl in H; [lia|]. apply IH. lia.
Qed.

(** A match that runs from the start to the end of a text that is not empty
    leaves its replacement. *)
Lemma re_sub_whole_match matcher c (s repl : text) :
  matcher (c :: s) = Some (repl, length (c :: s)) ->
  re_sub matcher (c :: s) = repl.
Proof.
  intros H. unfold re_sub. simpl. rewrite H. simpl.
  rewrite Nat.sub_0_r, re_sub_from_skip_all by lia. apply app_nil_r.
Qed.

(** Where no match starts the text is copied. *)
Lemma re_sub_prefix_unmatched matcher (body rest : text) :
  (forall b1 c b2, body = b1 ++ c :: b2 -> matcher ((c :: b2) ++ rest) = None) ->
  re_sub matcher (body ++ rest) = body ++ re_sub matcher rest.
Proof.
  unfold re_sub. induction body as [|c body IH]; intros H; [reflexivity|].
  pose proof (H [] c body eq_refl) as Hc. simpl in Hc.
  simpl. rewrite Hc. f_equal. apply IH.
  intros b1 c' b2 ->. apply (H (c :: b1) c' b2). reflexivity.
Qed.

Lemma skip_hyphen_suffix (s : text) : exists pre, s = pre ++ skip_hyphen s.
Proof.
  destruct s as [|c s]; simpl; [now exists []|].
  destruct (Ascii.eqb c "-"); [now exists [c]|now exists []].
Qed.

(** A match holds the word. *)
Lemma match_replica_needs_word (s : text) :
  match_replica s <> None -> contains replica_word (lower s) = true.
Proof.
  unfold match_replica. cbv zeta.
  destruct (startswith replica_word _) eqn:E; [intros _|congruence].
  destruct (skip_hyphen_suffix (drop_while isspace s)) as [pre Hpre].
  rewrite <- (take_drop_while isspace s).
  rewrite Hpre at 1.
  rewrite <- (take_drop_while isspace (skip_hyphen (drop_while isspace s))) at 1.
  rewrite !app_assoc, lower_app. now apply contains_found.
Qed.

Lemma re_sub_replica_without_word (raw : text) :
  contains replica_word (lower raw) = false -> re_sub match_replica raw = raw.
Proof.
  intros H. rewrite <- (app_nil_r raw) at 1.
  rewrite re_sub_prefix_unmatched; [apply app_nil_r|].
  intros b1 c b2 ->. rewrite app_nil_r.
  destruct (match_replica (c :: b2)) eqn:E; [|reflexivity].
  assert (Hw : contains replica_word (lower (c :: b2)) = true)
    by (apply match_replica_needs_word; congruence).
  rewrite lower_app in H. apply contains_app_r in H. congruence.
Qed.

Lemma ends_with_last (b1 b2 b : text) c z :
  b1 ++ c :: b2 = b ++ [z] -> exists u, c :: b2 = u ++ [z].
Proof.
  intros H. destruct (exists_last (l := c :: b2)) as (u & z' & Hu);
    [discriminate|].
  exists u. rewrite Hu in *. rewrite app_assoc in H.
  apply app_inj_tail in H as [_ ->]. reflexivity.
Qed.

Lemma re_sub_trailing_suffix (t word digits : text) :
  contains replica_word (lower t) = false ->
  lower word = replica_word -> forallb isdigit digits = true ->
  re_sub match_replica (t ++ txt " - " ++ word ++ txt " " ++ digits)
  = rstrip t.
Proof.
  intros Ht Hword Hdigits.
  destruct (rstrip_by_decomposition isspace t) as (ws & Hdec & Hws).
  fold (rstrip t) in Hdec.
  set (suffix := txt " - " ++ word ++ txt " " ++ digits).
  assert (Hmatch : re_sub match_replica (ws ++ suffix) = []).
  { pose proof (match_replica_suffix ws word digits Hws Hword Hdigits) as Hm.
    cbv zeta in Hm. fold suffix in Hm.
    destruct (ws ++ suffix) as [|c s] eqn:Es.
    - destruct ws; discriminate.
    - now apply re_sub_whole_match. }
  rewrite Hdec at 1. rewrite <- app_assoc.
  destruct (rstrip_by_last isspace t) as [Hnil|(b & z & Hb & Hz)];
    fold (rstrip t) in *.
  - rewrite Hnil. simpl. exact Hmatch.
  - rewrite re_sub_prefix_unmatched; [rewrite Hmatch; apply app_nil_r|].
    intros b1 c b2 Hsplit. rewrite Hb in Hsplit. symmetry in Hsplit.
    destruct (ends_with_last b1 b2 b c z Hsplit) as [u Hu]. rewrite Hu.
    apply no_match_before_suffix.
    + exact Hz.
    + rewrite Hdec, Hb, <- Hsplit, Hu in Ht.
      rewrite <- !app_assoc in Ht. rewrite lower_app in Ht.
      apply contains_app_r in Ht. rewrite app_assoc, lower_app in Ht.
      now apply contains_app_l in Ht.
    + destruct ws as [|w ws'].
      * exists " "%char. eexists. split; reflexivity.
      * exists w. eexists. split; [reflexivity|].
        simpl in Hws. now apply andb_true_iff in Hws as [Hw _].
    + rewrite drop_while_all by assumption. eexists. reflexivity.
Qed.

Lemma drop_while_app_exact p (x rest : text) :
  forallb p x = true ->
  match rest with [] => True | c :: _ => p c = false end ->
  drop_while p (x ++ rest) = rest.
Proof.
  intros Hx Hr. rewrite drop_while_all by exact Hx.
  destruct rest as [|c r]; [reflexivity|]. simpl. now rewrite Hr.
Qed.

Lemma space_not_digit c : isspace c = true -> isdigit c = false.
Proof.
  intros H. destruct (isdigit c) eqn:E; [|reflexivity].
  apply digit_not_space in E. congruence.
Qed.

Lemma replica_word_head (word : text) :
  lower word = replica_word ->
  length word = 7%nat
  /\ exists c word',
       word = c :: word' /\ isspace c = false /\ Ascii.eqb c "-" = false
       /\ to_lower c = "r"%char.
Proof.
  intros H. destruct (replica_word_head_no_space word H) as (Hlen & c & w & -> & Hc).
  split; [exact Hlen|]. exists c, w. split; [reflexivity|]. split; [exact Hc|].
  unfold lower, replica_word, txt in H. simpl in H. injection H as H _.
  split; [|exact H].
  destruct (Ascii.eqb c "-") eqn:E; [|reflexivity].
  apply eqb_true_iff in E. subst c. discriminate H.
Qed.

Lemma marker_text_head m rest :
  marker_ok m = true -> marker_head (marker_text m ++ rest).
Proof.
  destruct m as [ws1 hy ws2 word ws3 digits ws4].
  unfold marker_ok, marker_text. cbn -[lower replica_word].
  rewrite !andb_true_iff.
  intros (((((((H1 & H2) & H3) & H4) & H5) & H6) & H7) & H8).
  apply bool_decide_eq_true in H4.
  destruct (replica_word_head word H4) as (_ & c & w & -> & _ & _ & Hr).
  destruct ws1 as [|x ws1].
  - destruct hy.
    + eexists _, _. split; [reflexivity|]. right. now left.
    + simpl in H3. apply bool_decide_eq_true in H3. subst ws2.
      eexists _, _. split; [reflexivity|]. right. now right.
  - simpl in H1. apply andb_true_iff in H1 as [Hx _].
    eexists _, _. split; [reflexivity|]. now left.
Qed.

(** The word does not start in a text that does not hold it and run on into
    a copy of the marker. *)
Lemma word_not_across (v rest : text) :
  v <> [] -> contains replica_word (lower v) = false -> marker_head rest ->
  startswith replica_word (lower (v ++ rest)) = false.
Proof.
  intros Hne Hv (h & rest' & -> & Hh).
  destruct (startswith _ _) eqn:E; [|reflexivity]. exfalso.
  rewrite lower_app in E.
  apply startswith_app_cases in E as [E|(p2 & Hp & Hp2 & E)].
  - apply contains_startswith in Hv. congruence.
  - destruct p2 as [|a p2']; [congruence|].
    simpl in E. apply andb_true_iff in E as [E _]. apply eqb_true_iff in E.
    assert (Hcls : isspace a = true \/ a = "-"%char \/ a = "r"%char).
    { destruct Hh as [Hs|[->|Hr]].
      - left. rewrite E, (to_lower_space _ Hs). exact Hs.
      - right. left. exact E.
      - right. right. now rewrite E. }
    assert (Hl : lower v <> []) by (destruct v; [congruence|discriminate]).
    clear E Hh Hv Hne Hp2. revert Hp Hl. generalize (lower v). intros lv Hp Hl.
    unfold replica_word, txt in Hp. simpl in Hp.
    destruct lv as [|x lv]; [congruence|]. simpl in Hp. injection Hp as _ Hp.
    do 6 (destruct lv as [|? lv]; simpl in Hp;
          [injection Hp as Hp _; subst a;
           destruct Hcls as [Hc|[Hc|Hc]]; [vm_compute in Hc| |]; discriminate Hc
          |injection Hp as _ Hp]).
    destruct lv; discriminate Hp.
Qed.

(** No match starts in a segment that does not hold the word and is set off
    from the copy of the marker that follows it. *)
Lemma no_match_before_marker (u : text) z rest :
  isspace z = false ->
  contains replica_word (lower (u ++ [z])) = false ->
  marker_head rest ->
  (Ascii.eqb z "-" = false
   \/ exists rest', drop_while isspace rest = "-"%char :: rest') ->
  match_replica ((u ++ [z]) ++ rest) = None.
Proof.
  intros Hz Hc Hhead Hhy.
  apply match_replica_without_word.
  destruct (drop_while_keeps_last isspace u z Hz) as [r Hr].
  rewrite (drop_while_stops isspace (u ++ [z]))
    by (rewrite Hr; destruct r; discriminate).
  assert (Hcr : contains replica_word (lower (r ++ [z])) = false).
  { rewrite <- Hr. rewrite <- (take_drop_while isspace (u ++ [z])) in Hc.
    rewrite lower_app in Hc. eapply contains_app_r. exact Hc. }
  assert (Hfirst : forall c r', r ++ [z] = c :: r' -> isspace c = false).
  { intros c r' Heq. rewrite <- Hr in Heq. eapply drop_while_head. exact Heq. }
  rewrite Hr. clear Hr Hc u.
  destruct (r ++ [z]) as [|c r'] eqn:Hu; [destruct r; discriminate|].
  cbn [app skip_hyphen]. destruct (Ascii.eqb c "-") eqn:Ec.
  - (* the hyphen is taken *)
    destruct r' as [|c' r''].
    + assert (c = z) as ->.
      { destruct r as [|x r]; simpl in Hu; [now injection Hu|].
        destruct r; discriminate Hu. }
      cbn [app]. destruct Hhy as [Hzh|(rest' & Hrest)]; [congruence|].
      rewrite Hrest. reflexivity.
    + assert (Hlast : exists r3, c' :: r'' = r3 ++ [z]).
      { destruct r as [|x r]; simpl in Hu; [discriminate|].
        injection Hu as _ Hu. eauto. }
      destruct Hlast as [r3 Hr3]. rewrite Hr3 in *.
      destruct (drop_while_keeps_last isspace r3 z Hz) as [r4 Hr4].
      rewrite (drop_while_stops isspace (r3 ++ [z]))
        by (rewrite Hr4; destruct r4; discriminate).
      apply word_not_across; [rewrite Hr4; destruct r4; discriminate| |exact Hhead].
      change (c :: r3 ++ [z]) with ([c] ++ (r3 ++ [z])) in Hcr.
      rewrite <- (take_drop_while isspace (r3 ++ [z])) in Hcr.
      rewrite !lower_app in Hcr.
      apply contains_app_r in Hcr. apply contains_app_r in Hcr.
      exact Hcr.
  - (* no hyphen *)
    change ((c :: r') ++ rest) with (c :: (r' ++ rest)).
    rewrite drop_while_fixed by (eapply Hfirst; reflexivity).
    change (c :: r' ++ rest) with ((c :: r') ++ rest).
    apply word_not_across; [discriminate|exact Hcr|exact Hhead].
Qed.

(** A copy of the marker is matched from its first to its last character. *)
Lemma match_replica_marker m rest :
  marker_ok m = true -> starts_clear m rest = true ->
  match_replica (marker_text m ++ rest) = Some ([], length (marker_text m)).
Proof.
  destruct m as [ws1 hy ws2 word ws3 digits ws4].
  unfold marker_ok, marker_text, starts_clear. cbn -[lower replica_word].
  rewrite !andb_true_iff.
  intros (((((((H1 & H2) & H3) & H4) & H5) & H6) & H7) & H8) Hrest.
  apply bool_decide_eq_true in H4.
  destruct (replica_word_head word H4) as (Hlen & c & w & -> & Hc & Hch & _).
  assert (Hrs : match rest with [] => True | x :: _ => isspace x = false end).
  { destruct rest as [|x rest']; [exact I|].
    apply andb_true_iff in Hrest as [Hx _]. now apply negb_true_iff in Hx. }
  assert (Hrd : ws4 = [] ->
                match rest with [] => True | x :: _ => isdigit x = false end).
  { intros ->. destruct rest as [|x rest']; [exact I|].
    apply andb_true_iff in Hrest as [_ Hx].
    apply orb_true_iff in Hx as [Hx|Hx]; [now apply negb_true_iff in Hx|].
    apply negb_true_iff, bool_decide_eq_false in Hx. congruence. }
  set (after_word := ws3 ++ digits ++ ws4 ++ rest).
  assert (Hafter : drop_while isspace
                     (drop_while isdigit (drop_while isspace after_word))
                   = rest).
  { unfold after_word.
    assert (Hdigits : match digits ++ ws4 ++ rest with
                      | [] => True
                      | x :: _ => isspace x = false
                      end).
    { destruct digits as [|d digits].
      - apply orb_true_iff in H8 as [H8|H8]; [discriminate H8|].
        apply bool_decide_eq_true in H8. subst ws4. exact Hrs.
      - simpl in H6. apply andb_true_iff in H6 as [Hd _].
        apply (digit_not_space _ Hd). }
    assert (Htrail : match ws4 ++ rest with
                     | [] => True
                     | x :: _ => isdigit x = false
                     end).
    { destruct ws4 as [|x ws4]; [now apply Hrd|].
      simpl in H7. apply andb_true_iff in H7 as [Hx _].
      apply (space_not_digit _ Hx). }
    rewrite (drop_while_app_exact isspace ws3 _ H5 Hdigits).
    rewrite (drop_while_app_exact isdigit digits _ H6 Htrail).
    now apply drop_while_app_exact. }
  assert (Hword : forall s,
             startswith replica_word (lower ((c :: w) ++ s)) = true
             /\ skipn 7 ((c :: w) ++ s) = s).
  { intros s. split.
    - rewrite lower_app, H4. apply startswith_self_app.
    - rewrite skipn_app, Hlen, skipn_all2 by lia.
      now rewrite Nat.sub_diag. }
  unfold match_replica. cbv zeta.
  rewrite <- !app_assoc.
  assert (Hlead : drop_while isspace
                    (skip_hyphen
                       (drop_while isspace
                          (ws1 ++ (if hy then ["-"%char] else []) ++ ws2
                           ++ (c :: w) ++ after_word)))
                  = (c :: w) ++ after_word).
  { destruct hy.
    - rewrite (drop_while_app_exact isspace ws1 _ H1) by reflexivity.
      cbn [app skip_hyphen]. change (Ascii.eqb "-" "-") with true. cbv iota.
      apply drop_while_app_exact; [exact H2|exact Hc].
    - simpl in H3. apply bool_decide_eq_true in H3. subst ws2. cbn [app].
      rewrite (drop_while_app_exact isspace ws1 _ H1) by exact Hc.
      cbn [skip_hyphen]. rewrite Hch.
      now apply drop_while_fixed. }
  fold after_word. rewrite Hlead.
  destruct (Hword after_word) as [-> ->]. rewrite Hafter.
  unfold consumed, after_word. f_equal. f_equal.
  rewrite !length_app. lia.
Qed.

Lemma re_sub_from_skip matcher (x rest : text) :
  re_sub_from matcher (length x) (x ++ rest) = re_sub_from matcher 0 rest.
Proof. induction x as [|c x IH]; [reflexivity|exact IH]. Qed.

(** A match at the start of the text is replaced, and the text after it is
    gone through in its turn. *)
Lemma re_sub_match matcher (x rest repl : text) :
  x <> [] -> matcher (x ++ rest) = Some (repl, length x) ->
  re_sub matcher (x ++ rest) = repl ++ re_sub matcher rest.
Proof.
  intros Hne H. destruct x as [|c x]; [congruence|].
  unfold re_sub. cbn [app re_sub_from]. cbn [app] in H. rewrite H.
  cbn [length]. rewrite Nat.sub_succ, Nat.sub_0_r.
  now rewrite re_sub_from_skip.
Qed.

Lemma marker_text_not_empty m : marker_ok m = true -> marker_text m <> [].
Proof.
  intros H. destruct (marker_text_head m [] H) as (h & s & Hs & _).
  rewrite app_nil_r in Hs. rewrite Hs. discriminate.
Qed.

(** Every copy of the marker is deleted, and the segments are joined. *)
Lemma re_sub_layout pieces ending :
  well_separated pieces ending = true ->
  re_sub match_replica (layout pieces ending) = kept_text pieces ending.
Proof.
  induction pieces as [|[segment m] more IH]; cbn [layout well_separated].
  - intros H. apply negb_true_iff in H. now apply re_sub_replica_without_word.
  - rewrite !andb_true_iff. intros ((((Hseg & Hend) & Hm) & Hnext) & Hmore).
    apply negb_true_iff in Hseg.
    rewrite re_sub_prefix_unmatched.
    + rewrite (re_sub_match _ _ _ []);
        [|now apply marker_text_not_empty|now apply match_replica_marker].
      rewrite (IH Hmore). unfold kept_text. cbn [map fst concat app].
      now rewrite app_assoc.
    + intros b1 c b2 Hsplit.
      unfold segment_end_clear in Hend.
      destruct (last segment) as [z|] eqn:Hlast.
      2:{ apply last_None in Hlast. subst segment. destruct b1; discriminate. }
      apply last_Some in Hlast as [b Hb].
      apply andb_true_iff in Hend as [Hz Hzh]. apply negb_true_iff in Hz.
      rewrite Hb in Hsplit. symmetry in Hsplit.
      destruct (ends_with_last b1 b2 b c z Hsplit) as [u Hu]. rewrite Hu.
      apply no_match_before_marker.
      * exact Hz.
      * rewrite Hb, <- Hsplit, Hu, lower_app in Hseg.
        now apply contains_app_r in Hseg.
      * now apply marker_text_head.
      * apply orb_true_iff in Hzh as [Hzh|Hzh];
          [left; now apply negb_true_iff in Hzh|right].
        destruct m as [ws1 hy ws2 word ws3 digits ws4].
        cbn in Hzh. subst hy.
        unfold marker_ok in Hm. cbn -[lower replica_word] in Hm.
        rewrite !andb_true_iff in Hm.
        destruct Hm as (((((((H1 & _) & _) & _) & _) & _) & _) & _).
        unfold marker_text. cbn [lead_space has_hyphen hyphen_space marker_word
                                   word_space marker_digits trail_space].
        rewrite <- !app_assoc.
        rewrite (drop_while_app_exact isspace ws1 _ H1) by reflexivity.
        eexists. reflexivity.
Qed.

Lemma occurs_before_spec (tag s : text) n :
  occurs_before tag s n = false ->
  forall k, (k < n)%nat -> startswith tag (skipn k s) = false.
Proof.
  unfold occurs_before. intros H k Hk.
  destruct (startswith tag (skipn k s)) eqn:E; [|reflexivity].
  assert (Hex : existsb (fun k => startswith tag (skipn k s)) (seq 0 n) = true).
  { apply existsb_exists. exists k. split; [apply in_seq; lia|exact E]. }
  congruence.
Qed.

Lemma re_search_skip {A : Type} (matcher : text -> option A) (pre s : text) :
  (forall k, (k < length pre)%nat -> matcher (skipn k (pre ++ s)) = None) ->
  re_search matcher (pre ++ s) = re_search matcher s.
Proof.
  induction pre as [|c pre IH]; intros H; [reflexivity|].
  pose proof (H 0%nat ltac:(simpl; lia)) as H0. simpl in H0.
  simpl. rewrite H0. apply IH. intros k Hk. apply (H (S k)). simpl; lia.
Qed.

Lemma re_search_here {A : Type} (matcher : text -> option A) (s : text) g :
  matcher s = Some g -> re_search matcher s = Some g.
Proof. intros H. destruct s; simpl; now rewrite H. Qed.

Lemma take_while_app p (x y : text) :
  forallb p x = true -> take_while p (x ++ y) = x ++ take_while p y.
Proof.
  induction x as [|c x IH]; intros H; [reflexivity|].
  simpl in H. apply andb_true_iff in H as [Hc H].
  simpl. rewrite Hc. now rewrite IH.
Qed.

Lemma no_newline_forallb (s : text) :
  LF ∉ s -> forallb not_newline s = true.
Proof.
  induction s as [|c s IH]; intros H; [reflexivity|].
  apply not_elem_of_cons in H as [Hc H]. simpl. rewrite (IH H), andb_true_r.
  unfold not_newline. destruct (Ascii.eqb c LF) eqn:E; [|reflexivity].
  apply eqb_true_iff in E. congruence.
Qed.


(** The theme line is the rest of the line after the first [THEME:] and the
    white space that follows it, line feeds among it. *)
Lemma theme_line_found (pre ws line tail : text) :
  occurs_before (txt "THEME:") (pre ++ txt "THEME:" ++ ws ++ line ++ tail)
    (length pre) = false ->
  forallb isspace ws = true ->
  line <> [] -> drop_while isspace line = line -> LF ∉ line ->
  take_while not_newline tail = [] ->
  re_search match_theme (pre ++ txt "THEME:" ++ ws ++ line ++ tail) = Some line.
Proof.
  intros Hpre Hws Hne Hline Hlf Htail.
  rewrite re_search_skip.
  2:{ intros k Hk. unfold match_theme.
      now rewrite (occurs_before_spec _ _ _ Hpre k Hk). }
  apply re_search_here.
  unfold match_theme. rewrite startswith_self_app.
  change (skipn 6 (txt "THEME:" ++ ws ++ line ++ tail))
    with (ws ++ line ++ tail).
  rewrite drop_while_all by exact Hws.
  rewrite drop_while_stops by (rewrite Hline; exact Hne).
  rewrite Hline.
  destruct line as [|c line]; [contradiction|].
  cbn [app]. f_equal.
  pose proof (take_while_app not_newline (c :: line) tail
                (no_newline_forallb _ Hlf)) as Htake.
  cbn [app] in Htake. rewrite Htake, Htail. now rewrite app_nil_r.
Qed.




(* ===================================================================== *)
(** * Part III. Further properties of the code                            *)
(* ===================================================================== *)

(** ** Tokens and units of the batch *)

(** X1.  In both files the output tokens of a batch are the sum, over the
    units, of the token counts of the responses that the service returned,
    whether they parsed or not; a unit whose call raised adds nothing.  The
    input tokens are those of the compiled prompt, counted once, and the
    total is their sum. *)
Theorem output_tokens_sum_over_returned_responses :
  forall (service : nat -> text -> text -> api_result) (count_tokens : text -> Z)
         (uuid4 : nat -> text) (parse : text -> option (gmap string pyval))
         (data : Request) (formatted_prompt current_api_key : text)
         (shuffled_themes : list text) (next : nat) (ledger : TokenRow),
    current_api_key <> [] ->
    let accounted (pool : list text) (answer : http_response * TokenRow * nat) :=
      match answer with
      | (Ok200 body, _, _) =>
          output_tokens body
          = sum_Z (map (returned_tokens service count_tokens pool)
                     (unit_indices (req_num_replicas data)))
          /\ input_tokens body = count_tokens formatted_prompt
          /\ response_total_tokens body = input_tokens body + output_tokens body
      | (Error500 _, _, _) => False
      end in
    accounted shuffled_themes
      (generate_replicas_app service count_tokens uuid4 parse data
         formatted_prompt current_api_key shuffled_themes next ledger)
    /\ accounted themes
         (generate_replicas_main service count_tokens parse data
            formatted_prompt current_api_key shuffled_themes next ledger).
Proof.
  intros service count_tokens uuid4 parse data formatted_prompt current_api_key
    shuffled_themes next ledger Hkey accounted.
  unfold accounted, generate_replicas_app, generate_replicas_main.
  rewrite bool_decide_eq_false_2 by assumption. simpl.
  rewrite !run_units_tokens. repeat split.
Qed.

(** Three units, the second call raises: the two responses are counted. *)
Lemma output_tokens_sum_over_returned_responses_witness :
  let service := fun (i : nat) (_ _ : text) =>
                   if (i =? 2)%nat then ApiRaises (txt "timeout")
                   else ApiReturns (txt "THEME: Bakery") in
  match App.generate_replicas service length_tokens numbered_uuid4
          (test_api_request 3) (txt "prompt") (txt "sk") (rev themes) 0%nat
          empty_ledger with
  | (Ok200 body, _, _) => output_tokens body = 26 /\ response_total_tokens body = 32
  | (Error500 _, _, _) => False
  end.
Proof.
  intros service.
  pose proof (proj1 (output_tokens_sum_over_returned_responses
                       service length_tokens numbered_uuid4
                       parse_structured_response (test_api_request 3)
                       (txt "prompt") (txt "sk") (rev themes) 0%nat empty_ledger
                       ltac:(discriminate))) as H.
  unfold App.generate_replicas.
  destruct (generate_replicas_app _ _ _ _ _ _ _ _ _ _) as [[[body|m] l] n];
    [|exact H].
  destruct H as (Hout & Hin & Htot). rewrite Htot, Hin, Hout.
  split; reflexivity.
Defined.

(** X3.  A request for no replica, or for a negative number of them, is
    answered with an empty mapping: no output tokens, no identifier drawn,
    and the ledger grows by the tokens of the prompt alone. *)
Theorem empty_batch_for_nonpositive_count :
  forall (service : nat -> text -> text -> api_result) (count_tokens : text -> Z)
         (uuid4 : nat -> text) (parse : text -> option (gmap string pyval))
         (data : Request) (formatted_prompt current_api_key : text)
         (shuffled_themes : list text) (next : nat) (ledger : TokenRow),
    current_api_key <> [] ->
    req_num_replicas data <= 0 ->
    let prompt_tokens := count_tokens formatted_prompt in
    match generate_replicas_app service count_tokens uuid4 parse data
            formatted_prompt current_api_key shuffled_themes next ledger with
    | (Ok200 body, ledger', next') =>
        replicas body = ∅ /\ output_tokens body = 0
        /\ response_total_tokens body = prompt_tokens + 0
        /\ next' = next
        /\ total_tokens ledger' = total_tokens ledger + (prompt_tokens + 0)
        /\ session_tokens ledger' = session_tokens ledger + (prompt_tokens + 0)
    | (Error500 _, _, _) => False
    end.
Proof.
  intros service count_tokens uuid4 parse data formatted_prompt current_api_key
    shuffled_themes next ledger Hkey Hn prompt_tokens.
  unfold generate_replicas_app.
  rewrite bool_decide_eq_false_2 by assumption.
  unfold run_units, unit_indices.
  replace (Z.to_nat (req_num_replicas data)) with 0%nat by lia.
  simpl. rewrite fmap_empty. repeat split.
Qed.

Lemma empty_batch_for_nonpositive_count_witness :
  match App.generate_replicas bakery_service length_tokens numbered_uuid4
          (test_api_request (-2)) (txt "prompt") (txt "sk") (rev themes) 7%nat
          empty_ledger with
  | (Ok200 body, ledger', next') =>
      replicas body = ∅ /\ next' = 7%nat /\ total_tokens ledger' = 6
  | (Error500 _, _, _) => False
  end.
Proof.
  pose proof (empty_batch_for_nonpositive_count
                bakery_service length_tokens numbered_uuid4
                parse_structured_response (test_api_request (-2))
                (txt "prompt") (txt "sk") (rev themes) 7%nat empty_ledger
                ltac:(discriminate) ltac:(simpl; lia)) as H.
  unfold App.generate_replicas.
  destruct (generate_replicas_app _ _ _ _ _ _ _ _ _ _) as [[[body|m] l] n];
    [|exact H].
  destruct H as (Hr & _ & _ & Hn & Ht & _). rewrite Hr, Hn, Ht.
  repeat split.
Defined.

(** ** Themes beyond the size of the pool *)

Lemma theme_at_wraps (pool : list text) (i : nat) :
  pool <> [] -> (1 <= i)%nat ->
  theme_at pool (i + length pool) = theme_at pool i.
Proof.
  intros Hp Hi. unfold theme_at. f_equal.
  assert (Hlen : length pool <> 0%nat) by (destruct pool; simpl; congruence).
  replace (i + length pool - 1)%nat with ((i - 1) + 1 * length pool)%nat by lia.
  now rewrite Nat.Div0.mod_add.
Qed.

Lemma NoDup_map_injective_on {A B : Type} (f : A -> B) (l : list A) x y :
  NoDup (map f l) -> x ∈ l -> y ∈ l -> f x = f y -> x = y.
Proof.
  induction l as [|a l IH]; intros Hnd Hx Hy Hf; [inversion Hx|].
  simpl in Hnd. apply NoDup_cons in Hnd as [Ha Hnd].
  apply elem_of_cons in Hx as [->|Hx]; apply elem_of_cons in Hy as [->|Hy].
  - reflexivity.
  - exfalso. apply Ha. rewrite Hf. apply list_elem_of_In, in_map, list_elem_of_In, Hy.
  - exfalso. apply Ha. rewrite <- Hf. apply list_elem_of_In, in_map, list_elem_of_In, Hx.
  - now apply IH.
Qed.

(** X4.  The selection cycles: once a batch is larger than the pool, the
    unit that follows the last theme of the pool gets the theme, and so the
    suffix, of unit 1 again.  Whatever order the shuffle gave, the suffixes
    of a batch of more units than the pool has themes are not pairwise
    distinct. *)
Theorem suffixes_repeat_beyond_pool_size :
  forall (service : nat -> text -> text -> api_result) (count_tokens : text -> Z)
         (data : Request) (shuffled_themes : list text)
         (record_response : nat -> text -> nat -> gmap string pyval * nat)
         (next : nat),
    Permutation themes shuffled_themes ->
    Z.of_nat (length themes) < req_num_replicas data ->
    theme_at shuffled_themes (1 + length themes) = theme_at shuffled_themes 1
    /\ ~ NoDup (map snd (dispatched (run_units service count_tokens data
                                       shuffled_themes record_response next))).
Proof.
  intros service count_tokens data shuffled_themes record_response next
    Hperm Hn.
  assert (Hlen : length shuffled_themes = length themes)
    by (symmetry; now apply Permutation_length).
  assert (Hne : shuffled_themes <> []).
  { intros ->. apply Permutation_length in Hperm. vm_compute in Hperm.
    discriminate. }
  assert (Hwrap : theme_at shuffled_themes (1 + length themes)
                  = theme_at shuffled_themes 1).
  { rewrite <- Hlen. now apply theme_at_wraps. }
  split; [exact Hwrap|].
  rewrite run_units_dispatched, map_rev, map_map. simpl.
  intros Hnd. apply NoDup_rev_list in Hnd. rewrite rev_involutive in Hnd.
  assert (Heq : 1%nat = (1 + length themes)%nat).
  { apply (NoDup_map_injective_on
             (fun i => theme_suffix (theme_at shuffled_themes i))
             (unit_indices (req_num_replicas data))).
    - exact Hnd.
    - apply unit_indices_spec. lia.
    - apply unit_indices_spec. lia.
    - now rewrite Hwrap. }
  assert (Hpool : length themes = 494%nat) by (vm_compute; reflexivity).
  lia.
Qed.

(** A batch of 495 units on the reversed pool. *)
Lemma suffixes_repeat_beyond_pool_size_witness :
  ~ NoDup (map snd (dispatched (run_units raising_service length_tokens
                                  (test_api_request 495) (rev themes)
                                  (record_response_main parse_structured_response)
                                  0%nat))).
Proof.
  apply (suffixes_repeat_beyond_pool_size raising_service length_tokens
           (test_api_request 495) (rev themes)
           (record_response_main parse_structured_response) 0%nat).
  - apply Permutation_rev.
  - vm_compute. reflexivity.
Defined.

(** ** Identifiers drawn by a batch *)

Lemma is_parsed_iff service parse pool i :
  is_parsed service parse pool i = true <-> parsed_unit service parse pool i.
Proof.
  unfold is_parsed, parsed_unit.
  destruct (service i _ _) as [message|content].
  - split; [discriminate|]. intros (c & d & H & _). discriminate.
  - destruct (parse content) as [d|] eqn:Hp.
    + case_bool_decide as Hd; simpl.
      * split; [discriminate|]. intros (c & d' & [= <-] & Hp' & Hne).
        rewrite Hp in Hp'. injection Hp' as <-. contradiction.
      * split; [|reflexivity]. intros _. exists content, d. auto.
    + split; [discriminate|]. intros (c & d' & [= <-] & Hp' & _).
      rewrite Hp in Hp'. discriminate.
Qed.

Lemma app_unit_draws service uuid4 parse data pool i counter :
  snd (unit_entry service pool (record_response_app uuid4 parse data) i counter)
  = (counter
     + if is_parsed service parse pool i
       then length (req_test_cases data) else 0)%nat.
Proof.
  destruct (is_parsed service parse pool i) eqn:E.
  - apply is_parsed_iff in E.
    apply (unit_entry_parsed_counter service uuid4 parse data pool i counter E).
  - unfold is_parsed in E. unfold unit_entry.
    destruct (service i _ _) as [message|content]; [simpl; lia|].
    rewrite record_failed; [simpl; lia|].
    unfold parse_failed. destruct (parse content) as [d|]; [|now left].
    right. apply negb_false_iff, bool_decide_eq_true in E. now subst.
Qed.

Lemma app_counter_after service uuid4 parse data pool l counter :
  counter_after service pool (record_response_app uuid4 parse data) l counter
  = (counter
     + length (filter (fun i => is_parsed service parse pool i = true) l)
       * length (req_test_cases data))%nat.
Proof.
  revert counter. induction l as [|i l IH]; intros counter; simpl; [lia|].
  rewrite IH, app_unit_draws. rewrite filter_cons.
  destruct (is_parsed service parse pool i); simpl; lia.
Qed.

Lemma main_counter_after service parse pool l counter :
  counter_after service pool (record_response_main parse) l counter = counter.
Proof.
  revert counter. induction l as [|i l IH]; intros counter; simpl; [reflexivity|].
  rewrite IH. unfold unit_entry, record_response_main.
  destruct (service i _ _) as [message|content]; [reflexivity|].
  destruct (parse content) as [d|]; [|reflexivity].
  case_bool_decide; reflexivity.
Qed.

(** X5.  A batch of [app.py] draws from [uuid.uuid4] one identifier for
    every test case of the request and every unit that was parsed, and none
    for a unit that failed; a batch of [main.py] draws none. *)
Theorem identifiers_drawn_per_parsed_unit :
  forall (service : nat -> text -> text -> api_result) (count_tokens : text -> Z)
         (uuid4 : nat -> text) (parse : text -> option (gmap string pyval))
         (data : Request) (formatted_prompt current_api_key : text)
         (shuffled_themes : list text) (next : nat) (ledger : TokenRow),
    let parsed_units :=
      filter (fun i => is_parsed service parse shuffled_themes i = true)
        (unit_indices (req_num_replicas data)) in
    snd (generate_replicas_app service count_tokens uuid4 parse data
           formatted_prompt current_api_key shuffled_themes next ledger)
    = (if bool_decide (current_api_key = []) then next
       else next + length parsed_units * length (req_test_cases data))%nat
    /\ snd (generate_replicas_main service count_tokens parse data
              formatted_prompt current_api_key shuffled_themes next ledger)
       = next.
Proof.
  intros service count_tokens uuid4 parse data formatted_prompt current_api_key
    shuffled_themes next ledger parsed_units.
  unfold generate_replicas_app, generate_replicas_main.
  case_bool_decide; [split; reflexivity|]. simpl.
  rewrite !run_units_counter, app_counter_after, main_counter_after.
  split; reflexivity.
Qed.

(** X19.  The identifiers of the test cases that [app.py] embeds are read
    off the stream of [uuid.uuid4] in the order of the units and of the test
    cases: the copies of one record take consecutive identifiers.  So, when
    [uuid.uuid4] never gives the same identifier twice, no two embedded test
    cases of a batch share their identifier. *)
Theorem embedded_identifiers_follow_the_stream :
  forall (service : nat -> text -> text -> api_result) (count_tokens : text -> Z)
         (uuid4 : nat -> text) (parse : text -> option (gmap string pyval))
         (data : Request) (formatted_prompt current_api_key : text)
         (shuffled_themes : list text) (next : nat) (ledger : TokenRow),
    current_api_key <> [] ->
    let answer :=
      generate_replicas_app service count_tokens uuid4 parse data
        formatted_prompt current_api_key shuffled_themes next ledger in
    (forall i cases,
        response_field answer (replica_key i) "test_cases" = Some (PTests cases) ->
        exists first_id,
          (next <= first_id)%nat
          /\ forall p copy,
               cases !! p = Some copy -> ftc_id copy = uuid4 (first_id + p)%nat)
    /\ ((forall a b, uuid4 a = uuid4 b -> a = b) ->
        forall i j cases_i cases_j p q a b,
          response_field answer (replica_key i) "test_cases"
          = Some (PTests cases_i) ->
          response_field answer (replica_key j) "test_cases"
          = Some (PTests cases_j) ->
          cases_i !! p = Some a -> cases_j !! q = Some b ->
          (i, p) <> (j, q) ->
          ftc_id a <> ftc_id b).
Proof.
  intros service count_tokens uuid4 parse data formatted_prompt current_api_key
    shuffled_themes next ledger Hkey answer.
  split.
  - intros i cases Hfield.
    apply app_embedded_cases in Hfield as (_ & _ & _ & _ & ->); [|assumption].
    eexists. split; [apply counter_after_grows|].
    intros p copy Hcopy.
    apply copies_lookup in Hcopy as (original & _ & ->). reflexivity.
  - intros Hinj i j cases_i cases_j p q a b Hi Hj Ha Hb Hne Heq.
    apply app_embedded_cases in Hi as (Hi1 & _ & Hpi & _ & ->); [|assumption].
    apply app_embedded_cases in Hj as (Hj1 & _ & Hpj & _ & ->); [|assumption].
    pose proof (lookup_lt_Some _ _ _ Ha) as Hp.
    pose proof (lookup_lt_Some _ _ _ Hb) as Hq.
    unfold copies in Hp, Hq. rewrite length_imap in Hp, Hq.
    apply copies_lookup in Ha as (oa & _ & ->).
    apply copies_lookup in Hb as (ob & _ & ->).
    simpl in Heq. apply Hinj in Heq.
    destruct (Nat.lt_trichotomy i j) as [Hlt|[->|Hgt]].
    + pose proof (counter_of_later_unit service uuid4 parse data shuffled_themes
                    next i j Hi1 Hlt Hpi). lia.
    + apply Hne. f_equal. lia.
    + pose proof (counter_of_later_unit service uuid4 parse data shuffled_themes
                    next j i Hj1 Hgt Hpj). lia.
Qed.

(** The request of [test_api.py] for two replicas: the first copy of the
    first record and the first copy of the second one have different
    identifiers. *)
Lemma embedded_identifiers_follow_the_stream_witness :
  let answer :=
    App.generate_replicas bakery_service length_tokens numbered_uuid4
      (test_api_request 2) (txt "prompt") (txt "sk") (rev themes) 0%nat
      empty_ledger in
  exists cases_1 cases_2 a b,
    response_field answer (replica_key 1) "test_cases" = Some (PTests cases_1)
    /\ response_field answer (replica_key 2) "test_cases" = Some (PTests cases_2)
    /\ cases_1 !! 0%nat = Some a /\ cases_2 !! 0%nat = Some b
    /\ ftc_id a <> ftc_id b.
Proof.
  intros answer.
  pose proof (proj2 (embedded_identifiers_follow_the_stream
                       bakery_service length_tokens numbered_uuid4
                       parse_structured_response (test_api_request 2)
                       (txt "prompt") (txt "sk") (rev themes) 0%nat empty_ledger
                       ltac:(discriminate)) numbered_uuid4_inj)
    as Hdistinct.
  exists (copies numbered_uuid4 0 test_api_cases),
         (copies numbered_uuid4 2 test_api_cases).
  eexists. eexists.
  assert (H1 : response_field answer (replica_key 1) "test_cases"
               = Some (PTests (copies numbered_uuid4 0 test_api_cases)))
    by (vm_compute; reflexivity).
  assert (H2 : response_field answer (replica_key 2) "test_cases"
               = Some (PTests (copies numbered_uuid4 2 test_api_cases)))
    by (vm_compute; reflexivity).
  split; [exact H1|]. split; [exact H2|].
  split; [reflexivity|]. split; [reflexivity|].
  apply (Hdistinct 1%nat 2%nat _ _ 0%nat 0%nat _ _ H1 H2 eq_refl eq_refl).
  discriminate.
Defined.

(** ** The delimiter parser never fails *)

Lemma strip_by_idem p (s : text) : strip_by p (strip_by p s) = strip_by p s.
Proof.
  unfold strip_by at 2. rewrite strip_by_rstrip_by.
  unfold strip_by, lstrip_by. now rewrite drop_while_idem.
Qed.

Lemma extract_theme_trimmed response_text :
  strip (extract_theme response_text) = extract_theme response_text
  /\ extract_theme response_text <> [].
Proof.
  unfold extract_theme. case_bool_decide as Hempty.
  - split; [vm_compute; reflexivity|discriminate].
  - split; [|assumption]. unfold sanitize_theme, strip. apply strip_by_idem.
Qed.

Lemma extract_section_trimmed start_tag end_tag response_text :
  strip (extract_section start_tag end_tag response_text)
  = extract_section start_tag end_tag response_text.
Proof.
  unfold extract_section.
  destruct (re_search _ _); [apply strip_by_idem|reflexivity].
Qed.

Lemma parsed_record_lookup response_text replica_data :
  parse_structured_response response_text = Some replica_data ->
  replica_data !! "error"%string = None
  /\ replica_data !! "raw_response"%string = None
  /\ replica_data !! "short_text"%string
     = Some (PStr (extract_theme response_text))
  /\ replica_data <> ∅.
Proof.
  unfold parse_structured_response. intros [= <-].
  unfold list_to_map. cbn [foldr fst snd].
  assert (Htitle : forall (m : gmap string pyval) v,
             <[ "short_text"%string := v ]> m <> ∅).
  { intros m v Heq. apply (f_equal (fun d => d !! "short_text"%string)) in Heq.
    rewrite lookup_insert_eq, lookup_empty in Heq. discriminate. }
  split; [|split; [|split]].
  - rewrite !lookup_insert_ne by done. apply lookup_empty.
  - rewrite !lookup_insert_ne by done. apply lookup_empty.
  - apply lookup_insert_eq.
  - apply Htitle.
Qed.

(** X6.  [parse_structured_response] never fails: for every text it returns
    a dictionary with the same thirteen keys.  Its title is trimmed and never
    empty, its three solution fields hold what its three code fields hold,
    its code, question and test-case texts are trimmed, and its four metadata
    fields are empty. *)
Theorem parse_structured_response_always_returns_record :
  forall response_text : text,
  exists replica_data title html css js question tests,
    parse_structured_response response_text = Some replica_data
    /\ dom replica_data = record_keys
    /\ replica_data !! "short_text"%string = Some (PStr title)
    /\ title <> [] /\ strip title = title
    /\ replica_data !! "html_code"%string = Some (PStr html)
    /\ replica_data !! "html_solution"%string = Some (PStr html)
    /\ replica_data !! "css_code"%string = Some (PStr css)
    /\ replica_data !! "css_solution"%string = Some (PStr css)
    /\ replica_data !! "js_code"%string = Some (PStr js)
    /\ replica_data !! "js_solution"%string = Some (PStr js)
    /\ replica_data !! "question_text"%string = Some (PStr question)
    /\ replica_data !! "test_cases"%string = Some (PStr tests)
    /\ Forall (fun s => strip s = s) [html; css; js; question; tests]
    /\ Forall (fun k => replica_data !! k = Some (PStr []))
         [ "subtopic"%string; "course"%string; "module"%string; "unit"%string ].
Proof.
  intros response_text.
  destruct (extract_theme_trimmed response_text) as [Hstrip Hne].
  unfold parse_structured_response.
  eexists. exists (extract_theme response_text).
  exists (extract_section (txt "HTML_START") (txt "HTML_END") response_text),
         (extract_section (txt "CSS_START") (txt "CSS_END") response_text),
         (extract_section (txt "JS_START") (txt "JS_END") response_text),
         (extract_section (txt "QUESTION_START") (txt "QUESTION_END") response_text),
         (extract_section (txt "TESTS_START") (txt "TESTS_END") response_text).
  split; [reflexivity|].
  split; [rewrite dom_list_to_map_L; reflexivity|].
  unfold list_to_map. cbn [foldr fst snd].
  split; [apply lookup_insert_eq|].
  split; [assumption|].
  split; [assumption|].
  do 8 (split; [rewrite ?lookup_insert_ne by done; apply lookup_insert_eq|]).
  split.
  - repeat constructor; apply extract_section_trimmed.
  - repeat constructor;
      rewrite ?lookup_insert_ne by done; apply lookup_insert_eq.
Qed.

Lemma not_metadata_key_error : "error"%string ∉ metadata_keys.
Proof.
  unfold metadata_keys. rewrite !elem_of_union, !elem_of_singleton.
  intros [[[?|?]|?]|?]; discriminate.
Qed.

(** X7.  With [parse_structured_response] as the parsing step, as the two
    endpoints have it, a response that came back is never turned into a
    failure entry by the parsing step.  In [main.py] the entry of a unit has
    an [error] key exactly when the call of that unit raised; in [app.py],
    exactly when the call raised or, the response having come back, reading
    the request's [tag_names] raised. *)
Theorem deployed_entry_is_error_iff_call_raised :
  forall (service : nat -> text -> text -> api_result) (count_tokens : text -> Z)
         (uuid4 : nat -> text) (data : Request)
         (formatted_prompt current_api_key : text)
         (shuffled_themes : list text) (next : nat) (ledger : TokenRow)
         (i : nat),
    current_api_key <> [] ->
    (1 <= i)%nat -> Z.of_nat i <= req_num_replicas data ->
    (is_Some (response_field
                (App.generate_replicas service count_tokens uuid4 data
                   formatted_prompt current_api_key shuffled_themes next ledger)
                (replica_key i) "error")
     <-> (exists message,
            service i (theme_at shuffled_themes i)
              (theme_suffix (theme_at shuffled_themes i)) = ApiRaises message)
         \/ (exists content,
               service i (theme_at shuffled_themes i)
                 (theme_suffix (theme_at shuffled_themes i)) = ApiReturns content
               /\ tags_read (req_tag_names data) = false))
    /\ (is_Some (response_field
                   (Main.generate_replicas service count_tokens data
                      formatted_prompt current_api_key shuffled_themes next ledger)
                   (replica_key i) "error")
        <-> exists message,
              service i (theme_at themes i) (theme_suffix (theme_at themes i))
              = ApiRaises message).
Proof.
  intros service count_tokens uuid4 data formatted_prompt current_api_key
    shuffled_themes next ledger i Hkey H1 Hn.
  unfold App.generate_replicas, Main.generate_replicas, response_field.
  split.
  - rewrite app_slot_of_unit by assumption. simpl.
    rewrite update_metadata_other by apply not_metadata_key_error.
    unfold unit_entry.
    destruct (service i _ _) as [message|content]; cbn [fst].
    + unfold api_error_entry. rewrite lookup_singleton_eq.
      split; [eauto|intros _; eauto].
    + destruct (parse_structured_response content) as [d|] eqn:Hp;
        [|unfold parse_structured_response in Hp; discriminate Hp].
      destruct (parsed_record_lookup content d Hp) as (He & _ & _ & Hne).
      rewrite (record_parsed uuid4 parse_structured_response data i content d)
        by assumption.
      cbn [fst]. unfold tags_read.
      destruct (tag_metadata (req_tag_names data)) as [[[[s c] m] u]|e].
      * rewrite update_metadata_other by apply not_metadata_key_error.
        rewrite lookup_insert_ne, He by done.
        split; [intros Hsome; destruct (is_Some_None Hsome)|].
        intros [[message Hm]|(content' & _ & Hr)]; discriminate.
      * destruct (parse_exception_entry_fields i e content) as (-> & _).
        split; [|eauto]. intros _. right. eauto.
  - destruct (main_slot_of_unit service count_tokens parse_structured_response
                data formatted_prompt current_api_key shuffled_themes next ledger
                Hkey i H1 Hn) as [counter ->].
    simpl. rewrite update_metadata_other by apply not_metadata_key_error.
    unfold unit_entry.
    destruct (service i _ _) as [message|content]; cbn [fst].
    + unfold api_error_entry. rewrite lookup_singleton_eq.
      split; [eauto|intros _; eauto].
    + split; [|intros [m Hm]; discriminate].
      intros Hsome. exfalso.
      destruct (record_response_main_cases parse_structured_response i content
                  counter) as [[[Hf|Hf] _]|(d & Hp & Hne & Hrec)].
      * discriminate.
      * destruct (parsed_record_lookup content ∅ Hf) as (_ & _ & _ & Hne).
        now apply Hne.
      * rewrite Hrec in Hsome.
        destruct (parsed_record_lookup content d Hp) as (He & _).
        rewrite He in Hsome. exact (is_Some_None Hsome).
Qed.

Lemma deployed_entry_is_error_iff_call_raised_witness :
  is_Some (response_field
             (App.generate_replicas raising_service length_tokens numbered_uuid4
                (test_api_request 1) (txt "prompt") (txt "sk") (rev themes)
                0%nat empty_ledger)
             (replica_key 1) "error").
Proof.
  apply (proj1 (deployed_entry_is_error_iff_call_raised
                  raising_service length_tokens numbered_uuid4
                  (test_api_request 1) (txt "prompt") (txt "sk") (rev themes)
                  0%nat empty_ledger 1%nat ltac:(discriminate) ltac:(lia)
                  ltac:(simpl; lia))).
  left. eexists. reflexivity.
Defined.

(** ** Responses without markers, and responses with well-formed markers *)

Lemma re_search_absent {A : Type} (matcher : text -> option A) (p s : text) :
  (forall r, startswith p r = false -> matcher r = None) ->
  contains p s = false -> re_search matcher s = None.
Proof.
  intros Hm. induction s as [|c s IH]; simpl; intros Hc.
  - apply orb_false_iff in Hc as [Hs _]. now rewrite (Hm [] Hs).
  - apply orb_false_iff in Hc as [Hs Hc]. rewrite (Hm _ Hs). now apply IH.
Qed.

Lemma contains_drop_while p q (s : text) :
  contains p s = false -> contains p (drop_while q s) = false.
Proof.
  intros H. rewrite <- (take_drop_while q s) in H.
  now apply contains_app_r in H.
Qed.

Lemma contains_skipn p n (s : text) :
  contains p s = false -> contains p (skipn n s) = false.
Proof.
  intros H. rewrite <- (firstn_skipn n s) in H.
  now apply contains_app_r in H.
Qed.

Lemma lazy_until_cons (stop : text -> bool) c (s : text) :
  lazy_until stop (c :: s)
  = if stop (c :: s) then Some []
    else match lazy_until stop s with
         | Some g => Some (c :: g)
         | None => None
         end.
Proof. reflexivity. Qed.

Lemma startswith_app_inv (a b s : text) :
  startswith (a ++ b) s = true ->
  exists r, s = a ++ r /\ startswith b r = true.
Proof.
  revert s. induction a as [|x a IH]; intros s H; simpl in *.
  - now exists s.
  - destruct s as [|y s]; [destruct (a ++ b); discriminate|].
    apply andb_true_iff in H as [Hxy H]. apply eqb_true_iff in Hxy as ->.
    destruct (IH _ H) as (r & -> & Hr). now exists r.
Qed.

Lemma contains_longer_tag (a b s : text) :
  contains b s = false -> contains (a ++ b) s = false.
Proof.
  intros Hb. destruct (contains (a ++ b) s) eqn:Hab; [|reflexivity].
  exfalso. induction s as [|c s IH].
  - simpl in Hab, Hb. rewrite orb_false_r in Hab, Hb.
    destruct (startswith_app_inv _ _ _ Hab) as (r & Hs & Hr).
    destruct a; [|discriminate]. simpl in Hs. subst r. congruence.
  - simpl in Hab. apply orb_true_iff in Hab as [Hab|Hab].
    + destruct (startswith_app_inv _ _ _ Hab) as (r & Hs & Hr).
      rewrite Hs in Hb. apply contains_app_r in Hb.
      apply contains_startswith in Hb. congruence.
    + simpl in Hb. apply orb_false_iff in Hb as [_ Hb]. now apply IH.
Qed.

Lemma lazy_until_absent (end_tag t : text) :
  contains end_tag t = false ->
  lazy_until (fun rest => startswith end_tag (drop_while isspace rest)) t = None.
Proof.
  induction t as [|c t IH]; intros Hc.
  - simpl. simpl in Hc. apply orb_false_iff in Hc as [Hs _]. now rewrite Hs.
  - rewrite lazy_until_cons.
    rewrite (contains_startswith _ _ (contains_drop_while _ isspace _ Hc)).
    simpl in Hc. apply orb_false_iff in Hc as [_ Hc].
    now rewrite (IH Hc).
Qed.

Lemma match_section_absent (start_tag end_tag s : text) :
  contains end_tag s = false -> match_section start_tag end_tag s = None.
Proof.
  intros Hc. unfold match_section.
  destruct (startswith start_tag s); [|reflexivity].
  apply lazy_until_absent, contains_drop_while, contains_skipn, Hc.
Qed.

Lemma re_search_suffixes {A : Type} (matcher : text -> option A) (s : text) :
  (forall k, matcher (skipn k s) = None) -> re_search matcher s = None.
Proof.
  induction s as [|c s IH]; intros Hm; pose proof (Hm 0%nat) as H0;
    simpl in H0; simpl; rewrite H0; [reflexivity|].
  apply IH. intros k. apply (Hm (S k)).
Qed.

Lemma extract_section_absent (start_tag end_tag s : text) :
  contains start_tag s = false \/ contains end_tag s = false ->
  extract_section start_tag end_tag s = [].
Proof.
  intros Hc. unfold extract_section.
  assert (Hnone : re_search (match_section start_tag end_tag) s = None);
    [|now rewrite Hnone].
  destruct Hc as [Hc|Hc].
  - apply (re_search_absent _ start_tag); [|exact Hc].
    intros r Hr. unfold match_section. now rewrite Hr.
  - apply re_search_suffixes. intros k.
    apply match_section_absent, contains_skipn, Hc.
Qed.

Lemma extract_theme_absent (s : text) :
  contains (txt "THEME:") s = false -> extract_theme s = untitled_theme.
Proof.
  intros Hc. unfold extract_theme.
  rewrite (re_search_absent match_theme (txt "THEME:") s); [reflexivity| |exact Hc].
  intros r Hr. unfold match_theme. now rewrite Hr.
Qed.

(** X8.  A response that carries none of the markers is still parsed: the
    title is [Untitled Theme] when [THEME:] does not occur, a section is empty
    when its start tag or its end tag does not occur, and the dictionary that
    [parse_structured_response] returns is not empty, so that the loop stores
    it as a generated replica and not as a failure. *)
Theorem unmarked_response_gets_defaults :
  forall response_text : text,
    (contains (txt "THEME:") response_text = false ->
     extract_theme response_text = untitled_theme)
    /\ (forall start_tag end_tag,
          contains start_tag response_text = false
          \/ contains end_tag response_text = false ->
          extract_section start_tag end_tag response_text = [])
    /\ (contains (txt "THEME:") response_text = false ->
        contains (txt "_START") response_text = false ->
        exists replica_data,
          parse_structured_response response_text = Some replica_data
          /\ replica_data <> ∅
          /\ replica_data !! "short_text"%string = Some (PStr untitled_theme)
          /\ Forall (fun k => replica_data !! k = Some (PStr []))
               [ "html_code"%string; "css_code"%string; "js_code"%string;
                 "question_text"%string; "test_cases"%string;
                 "html_solution"%string; "css_solution"%string;
                 "js_solution"%string ]).
Proof.
  intros response_text. split; [apply extract_theme_absent|].
  split; [intros start_tag end_tag; apply extract_section_absent|].
  intros Htheme Hstart.
  assert (Hsec : forall name end_tag,
             extract_section (name ++ txt "_START") end_tag response_text = []).
  { intros name end_tag. apply extract_section_absent. left.
    now apply contains_longer_tag. }
  eexists. split; [reflexivity|].
  rewrite (extract_theme_absent _ Htheme).
  rewrite (Hsec (txt "HTML")), (Hsec (txt "CSS")), (Hsec (txt "JS")),
    (Hsec (txt "QUESTION")), (Hsec (txt "TESTS")).
  unfold list_to_map. cbn [foldr fst snd].
  split.
  { intros Heq. apply (f_equal (fun d => d !! "short_text"%string)) in Heq.
    rewrite lookup_insert_eq, lookup_empty in Heq. discriminate. }
  split; [apply lookup_insert_eq|].
  repeat constructor; rewrite ?lookup_insert_ne by done; apply lookup_insert_eq.
Qed.

Lemma unmarked_response_gets_defaults_witness :
  parse_structured_response (txt "Sorry, I cannot help with that.") <> Some ∅.
Proof.
  destruct (unmarked_response_gets_defaults
              (txt "Sorry, I cannot help with that.")) as (_ & _ & H).
  destruct (H ltac:(reflexivity) ltac:(reflexivity)) as (d & Hd & Hne & _).
  rewrite Hd. intros [= Heq]. exact (Hne Heq).
Defined.

Lemma lazy_until_stop (stop : text -> bool) (s : text) :
  stop s = true -> lazy_until stop s = Some [].
Proof. intros H. destruct s; simpl; now rewrite H. Qed.

Lemma lazy_until_body (stop : text -> bool) (body tail : text) :
  (forall k, (k < length body)%nat -> stop (skipn k (body ++ tail)) = false) ->
  stop tail = true ->
  lazy_until stop (body ++ tail) = Some body.
Proof.
  intros H Htail. induction body as [|c body IH].
  - now apply lazy_until_stop.
  - change ((c :: body) ++ tail) with (c :: body ++ tail).
    rewrite lazy_until_cons.
    pose proof (H 0%nat ltac:(simpl; lia)) as H0. simpl in H0. rewrite H0.
    rewrite IH; [reflexivity|].
    intros k Hk. apply (H (S k)). simpl; lia.
Qed.

Lemma drop_while_inside p (b : text) z (tail : text) :
  p z = false ->
  exists k, (k <= length b)%nat
            /\ drop_while p ((b ++ [z]) ++ tail) = skipn k ((b ++ [z]) ++ tail).
Proof.
  intros Hz. induction b as [|c b IH].
  - exists 0%nat. split; [simpl; lia|]. simpl. now rewrite Hz.
  - destruct (p c) eqn:Hc.
    + destruct IH as (k & Hk & IH). exists (S k). split; [simpl; lia|].
      simpl. now rewrite Hc.
    + exists 0%nat. split; [simpl; lia|]. simpl. now rewrite Hc.
Qed.

Lemma length_drop_while p (s : text) : (length (drop_while p s) <= length s)%nat.
Proof.
  rewrite <- (take_drop_while p s) at 2. rewrite length_app. lia.
Qed.

Lemma length_rstrip_by p (s : text) : (length (rstrip_by p s) <= length s)%nat.
Proof.
  destruct (rstrip_by_decomposition p s) as (ws & Hs & _).
  rewrite Hs at 2. rewrite length_app. lia.
Qed.

(** A text that [strip] leaves alone neither starts nor ends in the class. *)
Lemma strip_by_fixed p (s : text) :
  strip_by p s = s -> drop_while p s = s /\ rstrip_by p s = s.
Proof.
  intros H. split.
  - destruct s as [|c s]; [reflexivity|].
    destruct (p c) eqn:Hc; [|now apply drop_while_fixed].
    exfalso. apply (f_equal (@length ascii)) in H.
    unfold strip_by, lstrip_by in H. rewrite drop_while_skip in H by exact Hc.
    pose proof (length_rstrip_by p (drop_while p s)).
    pose proof (length_drop_while p s). simpl in H. lia.
  - rewrite <- H at 1. unfold strip_by. rewrite rstrip_by_idem. exact H.
Qed.

Lemma fixed_rstrip_last p (s : text) :
  s <> [] -> rstrip_by p s = s -> exists b z, s = b ++ [z] /\ p z = false.
Proof.
  intros Hne H. destruct (rstrip_by_last p s) as [He|(b & z & Hb & Hz)].
  - congruence.
  - exists b, z. split; [congruence|exact Hz].
Qed.

Lemma stop_inside_body (end_tag body tail : text) :
  rstrip body = body ->
  occurs_before end_tag (body ++ tail) (length body) = false ->
  forall k, (k < length body)%nat ->
    startswith end_tag (drop_while isspace (skipn k (body ++ tail))) = false.
Proof.
  intros Hr Hocc k Hk.
  destruct (fixed_rstrip_last isspace body) as (b & z & -> & Hz);
    [now destruct body|exact Hr|].
  rewrite length_app in Hk, Hocc. simpl in Hk, Hocc.
  assert (Hsplit : skipn k ((b ++ [z]) ++ tail) = (skipn k b ++ [z]) ++ tail).
  { rewrite <- !app_assoc. rewrite skipn_app.
    replace (k - length b)%nat with 0%nat by lia. reflexivity. }
  destruct (drop_while_inside isspace (skipn k b) z tail Hz) as (k' & Hk' & Hd).
  rewrite length_skipn in Hk'.
  rewrite Hsplit, Hd, <- Hsplit, skipn_skipn.
  apply (occurs_before_spec _ _ _ Hocc). lia.
Qed.

Lemma stop_at_end_tag (end_tag ws post : text) :
  forallb isspace ws = true -> drop_while isspace end_tag = end_tag ->
  startswith end_tag (drop_while isspace (ws ++ end_tag ++ post)) = true.
Proof.
  intros Hws Hend. rewrite drop_while_all by exact Hws.
  destruct end_tag as [|e end_tag]; [reflexivity|].
  pose proof (drop_while_head _ _ _ _ Hend) as He.
  change ((e :: end_tag) ++ post) with (e :: end_tag ++ post).
  rewrite drop_while_fixed by exact He.
  apply (startswith_self_app (e :: end_tag)).
Qed.

(** X9.  A section laid out as the protocol asks is returned as it stands:
    in a response of ASCII characters, when the start tag first occurs after
    [pre], and is followed by white space, a trimmed body in which the end
    tag does not start, white space and the end tag, [extract_section] gives
    exactly the body. *)
Theorem delimited_section_is_returned :
  forall (start_tag end_tag pre ws body ws' post : text),
    let response_text :=
      pre ++ start_tag ++ ws ++ body ++ ws' ++ end_tag ++ post in
    isascii response_text = true ->
    occurs_before start_tag response_text (length pre) = false ->
    forallb isspace ws = true -> forallb isspace ws' = true ->
    strip body = body ->
    drop_while isspace end_tag = end_tag ->
    occurs_before end_tag (body ++ ws' ++ end_tag ++ post) (length body) = false ->
    extract_section start_tag end_tag response_text = body.
Proof.
  intros start_tag end_tag pre ws body ws' post response_text
    Hascii Hpre Hws Hws' Hbody Hend Hocc.
  destruct (strip_by_fixed isspace body Hbody) as [Hl Hr].
  clear Hascii. subst response_text. unfold extract_section.
  rewrite re_search_skip.
  2:{ intros k Hk. unfold match_section.
      now rewrite (occurs_before_spec _ _ _ Hpre k Hk). }
  assert (Htail : startswith end_tag
                    (drop_while isspace (ws' ++ end_tag ++ post)) = true)
    by now apply stop_at_end_tag.
  rewrite (re_search_here _ _ body); [exact Hbody|].
  unfold match_section. rewrite startswith_self_app.
  rewrite skipn_app, skipn_all, Nat.sub_diag, drop_0. simpl app.
  rewrite drop_while_all by exact Hws.
  destruct body as [|c body].
  - simpl app. apply lazy_until_stop. now rewrite drop_while_idem.
  - rewrite drop_while_stops by (rewrite Hl; discriminate).
    rewrite Hl. apply lazy_until_body; [|exact Htail].
    now apply stop_inside_body.
Qed.

Lemma delimited_section_is_returned_witness :
  extract_section (txt "HTML_START") (txt "HTML_END")
    (txt "THEME: Bakery
HTML_START
<p id=total-bakery>0</p>

HTML_END
CSS_START")
  = txt "<p id=total-bakery>0</p>".
Proof.
  apply (delimited_section_is_returned (txt "HTML_START") (txt "HTML_END")
           (txt "THEME: Bakery
") [LF] (txt "<p id=total-bakery>0</p>") [LF; LF] (txt "
CSS_START")); reflexivity.
Defined.

(** X10.  A title line laid out as the protocol asks is returned as it
    stands: in a response of ASCII characters, when [THEME:] first occurs
    after [pre] and is followed by white space and a trimmed, non-empty title
    on one line in which the word [replica] does not occur in any case,
    [extract_theme] gives exactly that title. *)
Theorem theme_line_is_returned :
  forall (pre ws name tail : text),
    let response_text := pre ++ txt "THEME:" ++ ws ++ name ++ tail in
    isascii response_text = true ->
    occurs_before (txt "THEME:") response_text (length pre) = false ->
    forallb isspace ws = true ->
    name <> [] -> strip name = name -> LF ∉ name ->
    take_while not_newline tail = [] ->
    contains replica_word (lower name) = false ->
    extract_theme response_text = name.
Proof.
  intros pre ws name tail response_text Hascii Hpre Hws Hne Hname Hline Htail
    Hword.
  clear Hascii. subst response_text.
  destruct (strip_by_fixed isspace name Hname) as [Hl Hr].
  unfold extract_theme.
  rewrite re_search_skip.
  2:{ intros k Hk. unfold match_theme.
      now rewrite (occurs_before_spec _ _ _ Hpre k Hk). }
  rewrite (re_search_here _ _ name).
  - rewrite Hname. unfold sanitize_theme.
    rewrite (re_sub_replica_without_word _ Hword), Hname.
    case_bool_decide; [contradiction|reflexivity].
  - unfold match_theme. rewrite startswith_self_app.
    change (skipn 6 (txt "THEME:" ++ ws ++ name ++ tail))
      with (ws ++ name ++ tail).
    rewrite drop_while_all by exact Hws.
    rewrite drop_while_stops by (rewrite Hl; exact Hne).
    rewrite Hl.
    destruct name as [|c name]; [contradiction|].
    cbn [app]. f_equal.
    pose proof (take_while_app not_newline (c :: name) tail
                  (no_newline_forallb _ Hline)) as Htake.
    cbn [app] in Htake. rewrite Htake, Htail. now rewrite app_nil_r.
Qed.

Lemma theme_line_is_returned_witness :
  extract_theme (txt "Here it is.
THEME:  Bakery Counter
HTML_START")
  = txt "Bakery Counter".
Proof.
  apply (theme_line_is_returned (txt "Here it is.
") (txt "  ") (txt "Bakery Counter") (txt "
HTML_START")); try reflexivity.
  - discriminate.
  - refine (bool_decide_unpack _ _). vm_compute. exact I.
Defined.

(** ** Characters of the identifier suffix *)

Lemma replace_from_Forall (P : ascii -> Prop) (old new s : text) k :
  Forall P new -> Forall P s -> Forall P (replace_from k old new s).
Proof.
  intros Hnew Hs. revert k. induction Hs as [|c s Hc Hs IH]; intros k; simpl.
  - constructor.
  - destruct k as [|k]; [|apply IH].
    destruct (startswith old (c :: s)).
    + apply Forall_app. split; [exact Hnew|apply IH].
    + constructor; [exact Hc|apply IH].
Qed.

Lemma replace_Forall (P : ascii -> Prop) (old new s : text) :
  Forall P new -> Forall P s -> Forall P (replace old new s).
Proof.
  intros Hnew Hs. unfold replace. destruct old as [|o old].
  - apply Forall_app. split; [exact Hnew|].
    induction Hs as [|c s Hc Hs IH]; simpl; [constructor|].
    constructor; [exact Hc|]. apply Forall_app. now split.
  - now apply replace_from_Forall.
Qed.

Lemma replace_char_gone (ch : ascii) (new s : text) :
  Forall (fun c => c <> ch) new -> Forall (fun c => c <> ch) (replace [ch] new s).
Proof.
  intros Hnew. unfold replace.
  induction s as [|c s IH]; simpl; [constructor|].
  destruct (Ascii.eqb ch c) eqn:E; simpl.
  - apply Forall_app. split; [exact Hnew|exact IH].
  - constructor; [|exact IH].
    intros ->. rewrite Ascii.eqb_refl in E. discriminate.
Qed.

Lemma drop_while_Forall (P : ascii -> Prop) p (s : text) :
  Forall P s -> Forall P (drop_while p s).
Proof.
  induction 1 as [|c s Hc Hs IH]; simpl; [constructor|].
  destruct (p c); [exact IH|now constructor].
Qed.

Lemma strip_by_Forall (P : ascii -> Prop) p (s : text) :
  Forall P s -> Forall P (strip_by p s).
Proof.
  intros H. unfold strip_by, rstrip_by, lstrip_by.
  apply Forall_rev, drop_while_Forall, Forall_rev, drop_while_Forall, H.
Qed.

Lemma strip_by_head p (s : text) c r : strip_by p s = c :: r -> p c = false.
Proof.
  unfold strip_by, lstrip_by. intros H.
  destruct (rstrip_by_decomposition p (drop_while p s)) as (ws & Hd & _).
  rewrite H in Hd. simpl in Hd. apply (drop_while_head _ _ _ _ Hd).
Qed.

Lemma strip_by_last p (s r : text) z : strip_by p s = r ++ [z] -> p z = false.
Proof.
  unfold strip_by. intros H.
  destruct (rstrip_by_last p (lstrip_by p s)) as [He|(b & y & Hb & Hy)].
  - rewrite He in H. now destruct r.
  - rewrite Hb in H. apply app_inj_tail in H as [_ ->]. exact Hy.
Qed.

Lemma to_lower_not_upper c : isupper (to_lower c) = false.
Proof.
  destruct c as [b0 b1 b2 b3 b4 b5 b6 b7].
  destruct b0, b1, b2, b3, b4, b5, b6, b7; reflexivity.
Qed.

Lemma lower_no_capital (s : text) : Forall (fun c => isupper c = false) (lower s).
Proof.
  unfold lower. induction s as [|c s IH]; simpl; constructor;
    [apply to_lower_not_upper|exact IH].
Qed.

(** X11.  The identifier suffix compiled into every prompt never holds a
    space or an ASCII capital letter, and neither starts nor ends with a
    hyphen, whatever the theme is. *)
Theorem theme_suffix_has_no_space_capital_or_outer_hyphen :
  forall selected_theme : text,
    let suffix := theme_suffix selected_theme in
    (" "%char ∉ suffix)
    /\ Forall (fun c => isupper c = false) suffix
    /\ startswith (txt "-") suffix = false
    /\ endswith (txt "-") suffix = false.
Proof.
  intros selected_theme suffix. subst suffix. unfold theme_suffix, strip_char.
  set (hyphenated := replace (txt " ") (txt "-") (lower selected_theme)).
  set (cut := replace (txt "manager") []
                (replace (txt "shop") [] (replace (txt "store") [] hyphenated))).
  assert (Hspace : Forall (fun c => c <> " "%char) hyphenated).
  { apply replace_char_gone. repeat constructor. discriminate. }
  assert (Hcap : Forall (fun c => isupper c = false) hyphenated).
  { apply replace_Forall; [repeat constructor|apply lower_no_capital]. }
  split; [|split; [|split]].
  - assert (H : Forall (fun c => c <> " "%char) (strip_by (Ascii.eqb "-") cut)).
    { apply strip_by_Forall. unfold cut.
      do 3 (apply replace_Forall; [constructor|]). exact Hspace. }
    rewrite Forall_forall in H. intros Hin. now apply (H _ Hin).
  - apply strip_by_Forall. unfold cut.
    do 3 (apply replace_Forall; [constructor|]). exact Hcap.
  - destruct (strip_by (Ascii.eqb "-") cut) as [|c r] eqn:E; [reflexivity|].
    change (txt "-") with ["-"%char]. cbn [startswith].
    now rewrite (strip_by_head _ _ _ _ E).
  - unfold endswith.
    destruct (strip_by (Ascii.eqb "-") cut) as [|c r] eqn:E using rev_ind;
      [reflexivity|].
    rewrite rev_app_distr. change (rev (txt "-")) with ["-"%char].
    cbn [rev app startswith]. now rewrite (strip_by_last _ _ _ _ E).
Qed.

(** ** The repair chain leaves no raw control character *)

Lemma re_sub_from_Forall (P : ascii -> Prop) (matcher : text -> option (text * nat)) :
  (forall s repl n, Forall P s -> matcher s = Some (repl, n) -> Forall P repl) ->
  forall s k, Forall P s -> Forall P (re_sub_from matcher k s).
Proof.
  intros Hm s k Hs. revert k.
  induction Hs as [|c s Hc Hs IH]; intros k; simpl; [constructor|].
  destruct k as [|k]; [|apply IH].
  destruct (matcher (c :: s)) as [[repl n]|] eqn:E.
  - apply Forall_app. split; [|apply IH].
    apply (Hm (c :: s) repl n); [now constructor|exact E].
  - constructor; [exact Hc|apply IH].
Qed.

Lemma take_while_Forall (P : ascii -> Prop) p (s : text) :
  Forall P s -> Forall P (take_while p s).
Proof.
  induction 1 as [|c s Hc Hs IH]; simpl; [constructor|].
  destruct (p c); now constructor.
Qed.

Lemma rstrip_by_Forall (P : ascii -> Prop) p (s : text) :
  Forall P s -> Forall P (rstrip_by p s).
Proof.
  intros H. unfold rstrip_by. apply Forall_rev, drop_while_Forall, Forall_rev, H.
Qed.

Lemma until_quote_Forall (P : ascii -> Prop) (s g rest : text) :
  Forall P s -> until_quote s = Some (g, rest) -> Forall P g /\ Forall P rest.
Proof.
  intros Hs. unfold until_quote.
  pose proof (drop_while_Forall P not_quote s Hs) as Hd.
  destruct (drop_while not_quote s) as [|q r]; [discriminate|].
  intros [= <- <-]. split; [now apply take_while_Forall|].
  now apply Forall_inv_tail in Hd.
Qed.

(** The three patterns, with the test of the first character written as a
    comparison. *)
Lemma match_inner_quotes_cons c (s1 : text) :
  match_inner_quotes (c :: s1)
  = if Ascii.eqb c ":" then
      match drop_while isspace s1 with
      | q :: s2 =>
          if Ascii.eqb q DQUOTE then
            match until_quote s2 with
            | Some (g2, s3) =>
                match until_quote s3 with
                | Some (g3, s4) =>
                    match until_quote s4 with
                    | Some (g4, s5) =>
                        Some ((":"%char :: take_while isspace s1 ++ [DQUOTE])
                                ++ g2 ++ [BACKSLASH; DQUOTE]
                                ++ g3 ++ [BACKSLASH; DQUOTE]
                                ++ g4 ++ [DQUOTE],
                              consumed (c :: s1) s5)
                    | None => None
                    end
                | None => None
                end
            | None => None
            end
          else None
      | [] => None
      end
    else None.
Proof.
  unfold match_inner_quotes.
  destruct c as [b0 b1 b2 b3 b4 b5 b6 b7].
  destruct b0, b1, b2, b3, b4, b5, b6, b7; try reflexivity.
  destruct (drop_while isspace s1) as [|q s2]; [reflexivity|].
  destruct q as [b0 b1 b2 b3 b4 b5 b6 b7].
  destruct b0, b1, b2, b3, b4, b5, b6, b7; reflexivity.
Qed.

Lemma match_trailing_comma_cons c (s1 : text) :
  match_trailing_comma (c :: s1)
  = if Ascii.eqb c "," then
      match drop_while isspace s1 with
      | d :: rest =>
          if is_closer d
          then Some (take_while isspace s1 ++ [d], consumed (c :: s1) rest)
          else None
      | [] => None
      end
    else None.
Proof.
  unfold match_trailing_comma.
  destruct c as [b0 b1 b2 b3 b4 b5 b6 b7].
  destruct b0, b1, b2, b3, b4, b5, b6, b7; reflexivity.
Qed.

Lemma match_missing_comma_cons c (s1 : text) :
  match_missing_comma (c :: s1)
  = if Ascii.eqb c "}" then
      match drop_while isspace s1 with
      | q :: rest =>
          if Ascii.eqb q DQUOTE
          then Some (txt "}," ++ take_while isspace s1 ++ [DQUOTE],
                     consumed (c :: s1) rest)
          else None
      | [] => None
      end
    else None.
Proof.
  unfold match_missing_comma.
  destruct c as [b0 b1 b2 b3 b4 b5 b6 b7].
  destruct b0, b1, b2, b3, b4, b5, b6, b7; try reflexivity.
  destruct (drop_while isspace s1) as [|q s2]; [reflexivity|].
  destruct q as [b0 b1 b2 b3 b4 b5 b6 b7].
  destruct b0, b1, b2, b3, b4, b5, b6, b7; reflexivity.
Qed.

Section PlainCharacters.

(** Characters other than the three that strategy 1 escapes. *)
Let plain (c : ascii) : Prop := c <> LF /\ c <> CR /\ c <> TAB.

Local Ltac plain_literal :=
  repeat first
    [ apply List.Forall_nil
    | apply List.Forall_cons;
        [unfold plain, LF, CR, TAB, DQUOTE, BACKSLASH; repeat split; discriminate|] ].

Lemma escape_control_characters_plain (s : text) :
  Forall plain (escape_control_characters s).
Proof.
  unfold escape_control_characters, plain.
  set (a := replace [LF] (txt "\n") s).
  set (b := replace [CR] (txt "\r") a).
  assert (Ha : Forall (fun c => c <> LF) a).
  { apply replace_char_gone. repeat constructor; discriminate. }
  assert (Hb : Forall (fun c => c <> CR) b).
  { apply replace_char_gone. repeat constructor; discriminate. }
  assert (Hb' : Forall (fun c => c <> LF) b).
  { apply replace_Forall; [repeat constructor; discriminate|exact Ha]. }
  apply Forall_and. split; [|apply Forall_and; split].
  - apply replace_Forall; [repeat constructor; discriminate|exact Hb'].
  - apply replace_Forall; [repeat constructor; discriminate|exact Hb].
  - apply replace_char_gone. repeat constructor; discriminate.
Qed.

Lemma escape_inner_quotes_plain (s : text) :
  Forall plain s -> Forall plain (escape_inner_quotes s).
Proof.
  apply re_sub_from_Forall. clear s. intros s repl n Hs.
  destruct s as [|c s1]; [discriminate|].
  rewrite match_inner_quotes_cons.
  destruct (Ascii.eqb c ":"); [|discriminate].
  apply Forall_inv_tail in Hs.
  pose proof (take_while_Forall plain isspace s1 Hs) as Hws.
  pose proof (drop_while_Forall plain isspace s1 Hs) as Hd.
  destruct (drop_while isspace s1) as [|q s2]; [discriminate|].
  destruct (Ascii.eqb q DQUOTE); [|discriminate].
  apply Forall_inv_tail in Hd.
  destruct (until_quote s2) as [[g2 s3]|] eqn:E2; [|discriminate].
  destruct (until_quote_Forall plain _ _ _ Hd E2) as [Hg2 Hs3].
  destruct (until_quote s3) as [[g3 s4]|] eqn:E3; [|discriminate].
  destruct (until_quote_Forall plain _ _ _ Hs3 E3) as [Hg3 Hs4].
  destruct (until_quote s4) as [[g4 s5]|] eqn:E4; [|discriminate].
  destruct (until_quote_Forall plain _ _ _ Hs4 E4) as [Hg4 _].
  intros [= <- _].
  repeat first [ assumption | progress plain_literal | apply Forall_app; split ].
Qed.

Lemma remove_trailing_commas_plain (s : text) :
  Forall plain s -> Forall plain (remove_trailing_commas s).
Proof.
  apply re_sub_from_Forall. clear s. intros s repl n Hs.
  destruct s as [|c s1]; [discriminate|].
  rewrite match_trailing_comma_cons.
  destruct (Ascii.eqb c ","); [|discriminate].
  apply Forall_inv_tail in Hs.
  pose proof (take_while_Forall plain isspace s1 Hs) as Hws.
  pose proof (drop_while_Forall plain isspace s1 Hs) as Hd.
  destruct (drop_while isspace s1) as [|d rest]; [discriminate|].
  destruct (is_closer d); [|discriminate].
  intros [= <- _]. apply Forall_app. split; [exact Hws|].
  constructor; [now apply Forall_inv in Hd|constructor].
Qed.

Lemma insert_missing_commas_plain (s : text) :
  Forall plain s -> Forall plain (insert_missing_commas s).
Proof.
  apply re_sub_from_Forall. clear s. intros s repl n Hs.
  destruct s as [|c s1]; [discriminate|].
  rewrite match_missing_comma_cons.
  destruct (Ascii.eqb c "}"); [|discriminate].
  apply Forall_inv_tail in Hs.
  pose proof (take_while_Forall plain isspace s1 Hs) as Hws.
  destruct (drop_while isspace s1) as [|q rest]; [discriminate|].
  destruct (Ascii.eqb q DQUOTE); [|discriminate].
  intros [= <- _].
  repeat first [ assumption | progress plain_literal | apply Forall_app; split ].
Qed.

Lemma split_on_absent (sep : ascii) (s : text) :
  Forall (fun c => c <> sep) s -> split_on sep s = [s].
Proof.
  induction 1 as [|c s Hc Hs IH]; [reflexivity|].
  simpl. rewrite IH.
  destruct (Ascii.eqb c sep) eqn:E; [|reflexivity].
  apply eqb_true_iff in E. contradiction.
Qed.

Lemma fix_line_cases (line : text) :
  fix_line line = line \/ fix_line line = rstrip line ++ [DQUOTE].
Proof.
  unfold fix_line. destruct (drop_while not_colon line); [now left|].
  destruct (_ && _); [now right|now left].
Qed.

Lemma fix_unterminated_strings_plain (s : text) :
  Forall plain s -> Forall plain (fix_unterminated_strings s).
Proof.
  intros Hs. unfold fix_unterminated_strings.
  rewrite split_on_absent.
  2:{ eapply Forall_impl; [exact Hs|]. now intros c [H _]. }
  simpl. destruct (fix_line_cases s) as [-> | ->]; [exact Hs|].
  apply Forall_app. split; [now apply rstrip_by_Forall|plain_literal].
Qed.

Lemma repair_loop_Forall json_loads (strategies : list (text -> text))
    (current_json repaired : text) :
  Forall (fun strategy => forall s, Forall plain s -> Forall plain (strategy s))
    strategies ->
  Forall plain current_json ->
  repair_loop json_loads strategies current_json = Some repaired ->
  Forall plain repaired.
Proof.
  intros Hall. revert current_json.
  induction Hall as [|strategy rest Hstrategy Hrest IH]; intros cur Hcur;
    simpl; [discriminate|].
  destruct (loads_ok json_loads (strategy cur)).
  - intros [= <-]. now apply Hstrategy.
  - apply IH. now apply Hstrategy.
Qed.

Lemma repair_loop_cons json_loads (strategy : text -> text) rest (current_json : text) :
  repair_loop json_loads (strategy :: rest) current_json
  = if loads_ok json_loads (strategy current_json)
    then Some (strategy current_json)
    else repair_loop json_loads rest (strategy current_json).
Proof. reflexivity. Qed.

Lemma repaired_plain json_loads (response_text repaired : text) :
  attempt_json_repair json_loads response_text = Some repaired ->
  Forall plain repaired.
Proof.
  unfold attempt_json_repair.
  destruct (clean_openai_json_response json_loads response_text)
    as [cleaned|e]; [|discriminate].
  unfold repair_strategies. rewrite repair_loop_cons.
  destruct (loads_ok json_loads (escape_control_characters cleaned)).
  - intros [= <-]. apply escape_control_characters_plain.
  - apply repair_loop_Forall; [|apply escape_control_characters_plain].
    repeat constructor.
    + apply escape_inner_quotes_plain.
    + apply remove_trailing_commas_plain.
    + apply fix_unterminated_strings_plain.
    + apply insert_missing_commas_plain.
Qed.

End PlainCharacters.

(** X12.  A text that [attempt_json_repair] returns holds no raw line feed,
    carriage return or tab, whatever the response and the JSON validator
    are: the first strategy escapes them and no later strategy brings one
    back. *)
Theorem repaired_text_has_no_raw_control_character :
  forall (json_loads : text -> loads_outcome) (response_text repaired : text),
    attempt_json_repair json_loads response_text = Some repaired ->
    (LF ∉ repaired) /\ (CR ∉ repaired) /\ (TAB ∉ repaired).
Proof.
  intros json_loads response_text repaired H.
  pose proof (repaired_plain json_loads response_text repaired H) as Hplain.
  rewrite Forall_forall in Hplain.
  repeat split; intros Hin; destruct (Hplain _ Hin) as (H1 & H2 & H3);
    congruence.
Qed.

Lemma repaired_text_has_no_raw_control_character_witness :
  exists repaired,
    attempt_json_repair (fun _ => LoadsValue) (txt "Here: {
  a: 1,
}") = Some repaired
    /\ (LF ∉ repaired).
Proof.
  eexists. split; [reflexivity|].
  eapply (proj1 (repaired_text_has_no_raw_control_character (fun _ => LoadsValue)
                   (txt "Here: {
  a: 1,
}") _ eq_refl)).
Defined.

(** ** Closing unterminated strings twice *)

Lemma split_on_app_sep (sep : ascii) (p t : text) :
  Forall (fun c => c <> sep) p ->
  split_on sep (p ++ sep :: t) = p :: split_on sep t.
Proof.
  induction 1 as [|c p Hc Hp IH]; simpl.
  - now rewrite Ascii.eqb_refl.
  - rewrite IH. destruct (Ascii.eqb c sep) eqn:E; [|reflexivity].
    apply eqb_true_iff in E. contradiction.
Qed.

Lemma split_on_join (sep : ascii) (pieces : list text) :
  pieces <> [] -> Forall (Forall (fun c => c <> sep)) pieces ->
  split_on sep (join [sep] pieces) = pieces.
Proof.
  intros Hne Hall. induction Hall as [|p ps Hp Hps IH]; [contradiction|].
  destruct ps as [|q ps]; [now apply split_on_absent|].
  change (join [sep] (p :: q :: ps)) with (p ++ sep :: join [sep] (q :: ps)).
  rewrite split_on_app_sep by exact Hp. f_equal. now apply IH.
Qed.

Lemma split_on_pieces (sep : ascii) (s : text) :
  split_on sep s <> [] /\ Forall (Forall (fun c => c <> sep)) (split_on sep s).
Proof.
  induction s as [|c s [Hne IH]]; simpl.
  - split; [discriminate|repeat constructor].
  - destruct (Ascii.eqb c sep) eqn:E.
    + split; [discriminate|]. constructor; [constructor|exact IH].
    + destruct (split_on sep s) as [|piece pieces]; [contradiction|].
      split; [discriminate|].
      constructor; [|now apply Forall_inv_tail in IH].
      constructor; [|now apply Forall_inv in IH].
      intros ->. rewrite Ascii.eqb_refl in E. discriminate.
Qed.

Lemma rstrip_by_after_kept p (pre : text) c (after : text) :
  p c = false ->
  rstrip_by p (pre ++ c :: after) = pre ++ c :: rstrip_by p after.
Proof.
  intros Hc.
  destruct (rstrip_by_decomposition p after) as (ws & Hafter & Hws).
  rewrite Hafter at 1.
  replace (pre ++ c :: rstrip_by p after ++ ws)
    with ((pre ++ c :: rstrip_by p after) ++ ws)
    by now rewrite <- app_assoc.
  rewrite rstrip_by_class_end by exact Hws.
  destruct (rstrip_by_last p after) as [-> | (b & z & -> & Hz)].
  - now apply rstrip_by_ends_outside.
  - replace (pre ++ c :: b ++ [z]) with ((pre ++ c :: b) ++ [z])
      by now rewrite <- app_assoc.
    now apply rstrip_by_ends_outside.
Qed.

Lemma strip_ends_with_quote (y : text) :
  endswith [DQUOTE] (rstrip (strip (y ++ [DQUOTE]))) = true.
Proof.
  unfold rstrip, strip, strip_by, lstrip_by. rewrite rstrip_by_idem.
  destruct (drop_while_keeps_last isspace y DQUOTE eq_refl) as (r & ->).
  rewrite rstrip_by_ends_outside by reflexivity.
  unfold endswith. rewrite rev_app_distr. reflexivity.
Qed.

Lemma not_colon_false c : not_colon c = false -> c = ":"%char.
Proof.
  unfold not_colon. destruct (Ascii.eqb c ":") eqn:E; [|discriminate].
  intros _. now apply eqb_true_iff.
Qed.

Lemma fix_line_closed (line : text) c (after : text) :
  drop_while not_colon line = c :: after ->
  fix_line (rstrip line ++ [DQUOTE]) = rstrip line ++ [DQUOTE].
Proof.
  intros Hd.
  pose proof (not_colon_false c (drop_while_head _ _ _ _ Hd)) as ->.
  pose proof (take_drop_while not_colon line) as Hline. rewrite Hd in Hline.
  pose proof (take_while_all not_colon line) as Hpre.
  set (pre := take_while not_colon line) in *.
  rewrite <- Hline. unfold rstrip.
  rewrite rstrip_by_after_kept by reflexivity.
  unfold fix_line.
  replace ((pre ++ ":"%char :: rstrip_by isspace after) ++ [DQUOTE])
    with (pre ++ ":"%char :: (rstrip_by isspace after ++ [DQUOTE]))
    by now rewrite <- app_assoc.
  rewrite drop_while_all by exact Hpre.
  rewrite drop_while_fixed by reflexivity.
  pose proof (strip_ends_with_quote (rstrip_by isspace after)) as Hq.
  rewrite Hq. now rewrite andb_false_r.
Qed.

Lemma fix_line_idem (line : text) : fix_line (fix_line line) = fix_line line.
Proof.
  destruct (drop_while not_colon line) as [|c after] eqn:Hd.
  - assert (H : fix_line line = line) by (unfold fix_line; now rewrite Hd).
    now rewrite !H.
  - destruct (fix_line_cases line) as [H|H]; rewrite !H; [reflexivity|].
    apply (fix_line_closed line c after Hd).
Qed.

Lemma fix_line_no_separator (line : text) :
  Forall (fun c => c <> LF) line -> Forall (fun c => c <> LF) (fix_line line).
Proof.
  intros H. destruct (fix_line_cases line) as [-> | ->]; [exact H|].
  apply Forall_app. split; [now apply rstrip_by_Forall|].
  repeat constructor. discriminate.
Qed.

(** X13.  Closing unterminated strings is stable: a second pass of
    [fix_unterminated_strings] changes nothing, on any text. *)
Theorem fix_unterminated_strings_is_idempotent :
  forall json_str : text,
    fix_unterminated_strings (fix_unterminated_strings json_str)
    = fix_unterminated_strings json_str.
Proof.
  intros json_str. unfold fix_unterminated_strings.
  destruct (split_on_pieces LF json_str) as [Hne Hall].
  rewrite split_on_join.
  - rewrite map_map. f_equal. apply map_ext. intros line. apply fix_line_idem.
  - now destruct (split_on LF json_str).
  - apply Forall_map. eapply Forall_impl; [exact Hall|].
    intros line. apply fix_line_no_separator.
Qed.

(** ** Values read from the tags *)

Lemma case_change_keeps_underscore c :
  Ascii.eqb (to_upper c) "_" = Ascii.eqb c "_"
  /\ Ascii.eqb (to_lower c) "_" = Ascii.eqb c "_".
Proof.
  destruct c as [b0 b1 b2 b3 b4 b5 b6 b7].
  destruct b0, b1, b2, b3, b4, b5, b6, b7; split; reflexivity.
Qed.

Lemma title_from_no_underscore previous_is_cased (s : text) :
  Forall (fun c => c <> "_"%char) s ->
  Forall (fun c => c <> "_"%char) (title_from previous_is_cased s).
Proof.
  intros H. revert previous_is_cased.
  induction H as [|c s Hc Hs IH]; intros previous_is_cased; simpl;
    constructor; [|apply IH].
  destruct (case_change_keeps_underscore c) as [Hu Hl].
  assert (Hne : Ascii.eqb c "_" = false).
  { destruct (Ascii.eqb c "_") eqn:E; [|reflexivity].
    apply eqb_true_iff in E. contradiction. }
  rewrite Hne in Hu, Hl.
  destruct previous_is_cased; intros Heq;
    [rewrite Heq in Hl|rewrite Heq in Hu]; discriminate.
Qed.

Lemma extract_tag_loop_no_underscore tags prefix value :
  extract_tag_loop tags prefix = Return value ->
  Forall (fun c => c <> "_"%char) value.
Proof.
  induction tags as [|tag tags IH]; simpl.
  - intros [= <-]. constructor.
  - destruct tag as [tag| | |]; try discriminate.
    destruct (startswith prefix tag); [|exact IH].
    intros [= <-]. apply title_from_no_underscore.
    apply (replace_char_gone "_" (txt " ")).
    repeat constructor. discriminate.
Qed.

(** X14.  The value [extract_tag_value] reads from the tags never holds an
    underscore.  A list of strings is read without an exception, and the
    value is the empty text when none of them starts with the prefix. *)
Theorem extract_tag_value_has_no_underscore :
  forall (tag_list : tag_names_value) (prefix : text),
    (forall value,
        extract_tag_value tag_list prefix = Return value -> "_"%char ∉ value)
    /\ (forall tags : list text,
          tag_list = TagNamesList (TagStr <$> tags) ->
          (exists value, extract_tag_value tag_list prefix = Return value)
          /\ (Forall (fun tag => startswith prefix tag = false) tags ->
              extract_tag_value tag_list prefix = Return [])).
Proof.
  intros tag_list prefix. split.
  - intros value Hvalue.
    assert (H : Forall (fun c => c <> "_"%char) value).
    { destruct tag_list as [tags|s|keys|t]; simpl in Hvalue;
        [eapply extract_tag_loop_no_underscore; exact Hvalue ..|discriminate]. }
    rewrite Forall_forall in H. intros Hin. now apply (H _ Hin).
  - intros tags ->. split; [apply extract_tag_loop_strings|].
    simpl. induction 1 as [|tag tags Htag Htags IH]; simpl; [reflexivity|].
    now rewrite Htag.
Qed.

Lemma extract_tag_value_has_no_underscore_witness :
  extract_tag_value test_api_tags (txt "TOPIC_") = Return [].
Proof.
  apply (proj2 (proj2 (extract_tag_value_has_no_underscore
                         test_api_tags (txt "TOPIC_")) _ eq_refl)).
  repeat constructor.
Defined.

(** ** How many test cases are copied *)

Lemma format_each_from_zero uuid4 cases next :
  format_each uuid4 0 cases next
  = (copies uuid4 next cases, (next + length cases)%nat).
Proof.
  pose proof (format_each_copies uuid4 0 next cases) as H.
  rewrite Nat.add_0_r in H. exact H.
Qed.

(** X15.  [format_test_cases_from_original] copies a prefix of the original
    test cases and draws one identifier for each copy: all of them when the
    count is left out, is zero or is not below their number, the first
    [num_replicas] of them when the count is positive and below their number,
    and all but the last [- num_replicas] of them when the count is
    negative. *)
Theorem format_test_cases_copies_a_prefix :
  forall (uuid4 : nat -> text) (original_test_cases : list TestCase)
         (num_replicas : option Z) (next : nat),
    let available := length original_test_cases in
    let kept :=
      match num_replicas with
      | None => available
      | Some n =>
          if n =? 0 then available
          else if n <? 0 then (available - Z.to_nat (- n))%nat
          else Nat.min (Z.to_nat n) available
      end in
    format_test_cases_from_original uuid4 original_test_cases num_replicas next
    = (copies uuid4 next (firstn kept original_test_cases), (next + kept)%nat).
Proof.
  intros uuid4 originals num_replicas next available kept.
  unfold format_test_cases_from_original. rewrite format_each_from_zero.
  assert (Hall : firstn available originals = originals) by apply firstn_all.
  assert (Hkept : take_py
                    match num_replicas with
                    | Some n =>
                        if negb (n =? 0) && (n <? Z.of_nat (length originals))
                        then n else Z.of_nat (length originals)
                    | None => Z.of_nat (length originals)
                    end originals
                  = firstn kept originals
                  /\ length (firstn kept originals) = kept).
  { subst kept. destruct num_replicas as [n|].
    - destruct (Z.eqb_spec n 0) as [->|Hn0]; simpl negb; cbn [andb].
      + rewrite take_py_all. now rewrite Hall.
      + destruct (Z.ltb_spec n 0) as [Hneg|Hpos].
        * destruct (Z.ltb_spec n (Z.of_nat (length originals))) as [_|Hge];
            [|lia].
          unfold take_py. destruct (Z.leb_spec 0 n) as [Hle|_]; [lia|].
          split; [reflexivity|]. rewrite length_firstn. fold available. lia.
        * destruct (Z.ltb_spec n (Z.of_nat (length originals))) as [Hlt|Hge].
          -- unfold take_py. destruct (Z.leb_spec 0 n) as [_|Hlt0]; [|lia].
             fold available.
             replace (Nat.min (Z.to_nat n) available) with (Z.to_nat n)
               by (subst available; lia).
             split; [reflexivity|]. rewrite length_firstn. lia.
          -- rewrite take_py_all. fold available.
             replace (Nat.min (Z.to_nat n) available) with available
               by (subst available; lia).
             now rewrite Hall.
    - rewrite take_py_all. now rewrite Hall. }
  destruct Hkept as [-> ->]. reflexivity.
Qed.

(** ** The two endpoints side by side *)

Lemma metadata_key_cases (k : string) :
  k ∈ metadata_keys ->
  k = "subtopic"%string \/ k = "course"%string
  \/ k = "module"%string \/ k = "unit"%string.
Proof.
  unfold metadata_keys. rewrite !elem_of_union, !elem_of_singleton. tauto.
Qed.

Lemma update_metadata_lookup s c m u (entry entry' : gmap string pyval) k :
  (k ∉ metadata_keys -> entry !! k = entry' !! k) ->
  update_metadata s c m u entry !! k = update_metadata s c m u entry' !! k.
Proof.
  intros H. destruct (decide (k ∈ metadata_keys)) as [Hin|Hout].
  - destruct (update_metadata_fields s c m u entry) as (H1 & H2 & H3 & H4).
    destruct (update_metadata_fields s c m u entry') as (H1' & H2' & H3' & H4').
    destruct (metadata_key_cases k Hin) as [-> | [-> | [-> | ->]]]; congruence.
  - rewrite !update_metadata_other by exact Hout. now apply H.
Qed.

(** X16.  When the shuffle of [app.py] leaves the pool in the order of
    [themes], the service gives every unit the same outcome at both
    endpoints, and the request's [tag_names] are read without an exception,
    the two endpoints answer alike: every field of the entry of a unit other
    than [test_cases] is the same in both answers, and both leave the same
    ledger. *)
Theorem endpoints_agree_outside_test_cases :
  forall (service_app service_main : nat -> text -> text -> api_result)
         (count_tokens : text -> Z)
         (uuid4 : nat -> text) (parse : text -> option (gmap string pyval))
         (data : Request) (formatted_prompt current_api_key : text)
         (shuffled_themes : list text) (next : nat) (ledger : TokenRow),
    let app_answer :=
      generate_replicas_app service_app count_tokens uuid4 parse data
        formatted_prompt current_api_key themes next ledger in
    let main_answer :=
      generate_replicas_main service_main count_tokens parse data
        formatted_prompt current_api_key shuffled_themes next ledger in
    current_api_key <> [] ->
    tags_read (req_tag_names data) = true ->
    (forall i : nat,
        (1 <= i)%nat -> Z.of_nat i <= req_num_replicas data ->
        service_app i (theme_at themes i) (theme_suffix (theme_at themes i))
        = service_main i (theme_at themes i) (theme_suffix (theme_at themes i))) ->
    (forall (i : nat) (field : string),
        (1 <= i)%nat -> Z.of_nat i <= req_num_replicas data ->
        field <> "test_cases"%string ->
        response_field app_answer (replica_key i) field
        = response_field main_answer (replica_key i) field)
    /\ snd (fst app_answer) = snd (fst main_answer).
Proof.
  intros service_app service_main count_tokens uuid4 parse data formatted_prompt
    current_api_key shuffled_themes next ledger app_answer main_answer Hkey
    Htags Hsame.
  subst app_answer main_answer. split.
  - intros i field H1 Hn Hfield. unfold response_field.
    rewrite (app_slot_of_unit service_app count_tokens uuid4 parse data
               formatted_prompt current_api_key themes next ledger Hkey i H1 Hn).
    destruct (main_slot_of_unit service_main count_tokens parse data
                formatted_prompt current_api_key shuffled_themes next ledger
                Hkey i H1 Hn)
      as [counter ->].
    cbn [mbind option_bind].
    apply update_metadata_lookup. intros Hout.
    unfold unit_entry. rewrite (Hsame i H1 Hn).
    destruct (service_main i _ _) as [message|content]; [reflexivity|].
    destruct (record_response_app_cases uuid4 parse data i content
                (counter_after service_app themes
                   (record_response_app uuid4 parse data) (seq 1 (i - 1)) next))
      as [[Hfail ->]|(d & Hd & Hne & ->)].
    + destruct (record_response_main_cases parse i content counter)
        as [[_ ->]|(d & Hd & Hne & _)]; [reflexivity|].
      exfalso. destruct Hfail as [Hfail|Hfail]; congruence.
    + destruct (record_response_main_cases parse i content counter)
        as [[Hfail _]|(d' & Hd' & _ & ->)].
      * exfalso. destruct Hfail as [Hfail|Hfail]; congruence.
      * assert (d' = d) as -> by congruence.
        unfold tags_read in Htags.
        destruct (tag_metadata (req_tag_names data)) as [[[[s c] m] u]|e];
          [|discriminate].
        rewrite update_metadata_other by exact Hout.
        now rewrite lookup_insert_ne.
  - unfold generate_replicas_app, generate_replicas_main.
    rewrite (bool_decide_eq_false_2 _ Hkey). unfold finish. cbn [fst snd].
    rewrite !run_units_tokens.
    replace (map (returned_tokens service_main count_tokens themes)
               (unit_indices (req_num_replicas data)))
      with (map (returned_tokens service_app count_tokens themes)
              (unit_indices (req_num_replicas data))); [reflexivity|].
    apply map_ext_in. intros i Hi.
    apply list_elem_of_In, unit_indices_spec in Hi as [H1 Hn].
    unfold returned_tokens. now rewrite (Hsame i H1 Hn).
Qed.

Lemma endpoints_agree_outside_test_cases_witness :
  response_field
    (generate_replicas_app bakery_service length_tokens numbered_uuid4
       parse_structured_response (test_api_request 2) (txt "prompt") (txt "sk")
       themes 0%nat empty_ledger)
    (replica_key 2) "html_code"
  = response_field
      (generate_replicas_main bakery_service length_tokens
         parse_structured_response (test_api_request 2) (txt "prompt")
         (txt "sk") (rev themes) 0%nat empty_ledger)
      (replica_key 2) "html_code".
Proof.
  apply (proj1 (endpoints_agree_outside_test_cases bakery_service bakery_service
                  length_tokens
                  numbered_uuid4 parse_structured_response (test_api_request 2)
                  (txt "prompt") (txt "sk") (rev themes) 0%nat empty_ledger
                  ltac:(discriminate) eq_refl ltac:(reflexivity)));
    [lia|simpl; lia|discriminate].
Defined.

(** ** Shapes of the entries of the answer *)

Lemma parsed_record_dom response_text replica_data :
  parse_structured_response response_text = Some replica_data ->
  dom replica_data = record_keys.
Proof.
  unfold parse_structured_response. intros [= <-].
  unfold record_keys, list_to_set. cbn [foldr fst snd].
  rewrite !dom_insert_L, dom_empty_L. reflexivity.
Qed.

Lemma record_keys_closed :
  record_keys ∪ metadata_keys = record_keys
  /\ {[ "test_cases"%string ]} ∪ record_keys = record_keys.
Proof.
  split; refine (bool_decide_unpack _ _); vm_compute; exact I.
Qed.

(** X17.  With [parse_structured_response] as the parsing step, the entry of
    a unit in the answer of [main.py] has one of two shapes: the thirteen
    keys of a replica when the call of the unit returned, and [error] with
    the four metadata keys when it raised.  The entry of [app.py] has these
    two shapes when the request's [tag_names] are read without an exception;
    when reading them raises, the entry of a unit whose call returned has
    [error], [raw_response] and the four metadata keys. *)
Theorem deployed_entries_have_one_of_two_shapes :
  forall (service : nat -> text -> text -> api_result) (count_tokens : text -> Z)
         (uuid4 : nat -> text) (data : Request)
         (formatted_prompt current_api_key : text)
         (shuffled_themes : list text) (next : nat) (ledger : TokenRow)
         (i : nat),
    let shape pool (tags_were_read : bool) :=
      match service i (theme_at pool i) (theme_suffix (theme_at pool i)) with
      | ApiRaises _ => {[ "error"%string ]} ∪ metadata_keys
      | ApiReturns _ =>
          if tags_were_read then record_keys
          else {[ "error"%string; "raw_response"%string ]} ∪ metadata_keys
      end in
    current_api_key <> [] ->
    (1 <= i)%nat -> Z.of_nat i <= req_num_replicas data ->
    exists app_entry main_entry,
      response_slot
        (App.generate_replicas service count_tokens uuid4 data
           formatted_prompt current_api_key shuffled_themes next ledger)
        (replica_key i) = Some app_entry
      /\ dom app_entry = shape shuffled_themes (tags_read (req_tag_names data))
      /\ response_slot
           (Main.generate_replicas service count_tokens data
              formatted_prompt current_api_key shuffled_themes next ledger)
           (replica_key i) = Some main_entry
      /\ dom main_entry = shape themes true.
Proof.
  intros service count_tokens uuid4 data formatted_prompt current_api_key
    shuffled_themes next ledger i shape Hkey H1 Hn.
  subst shape. cbv beta.
  unfold App.generate_replicas, Main.generate_replicas.
  rewrite app_slot_of_unit by assumption.
  destruct (main_slot_of_unit service count_tokens parse_structured_response
              data formatted_prompt current_api_key shuffled_themes next ledger
              Hkey i H1 Hn) as [counter ->].
  destruct record_keys_closed as [Hmeta Htests].
  eexists. eexists.
  split; [reflexivity|]. split; [|split; [reflexivity|]].
  - rewrite update_metadata_dom. unfold unit_entry.
    destruct (service i _ _) as [message|content]; cbn [fst].
    + unfold api_error_entry. now rewrite dom_singleton_L.
    + destruct (parse_structured_response content) as [d|] eqn:Hp;
        [|unfold parse_structured_response in Hp; discriminate Hp].
      destruct (parsed_record_lookup content d Hp) as (_ & _ & _ & Hne).
      rewrite (record_parsed uuid4 parse_structured_response data i content d)
        by assumption.
      cbn [fst]. unfold tags_read.
      destruct (tag_metadata (req_tag_names data)) as [[[[s c] m] u]|e].
      * rewrite update_metadata_dom, dom_insert_L.
        rewrite (parsed_record_dom content d Hp), Htests, Hmeta. exact Hmeta.
      * destruct (parse_exception_entry_fields i e content) as (_ & _ & ->).
        reflexivity.
  - rewrite update_metadata_dom. unfold unit_entry.
    destruct (service i _ _) as [message|content]; cbn [fst].
    + unfold api_error_entry. now rewrite dom_singleton_L.
    + destruct (record_response_main_cases parse_structured_response i content
                  counter) as [[[Hf|Hf] _]|(d & Hp & Hne & ->)].
      * unfold parse_structured_response in Hf. discriminate Hf.
      * destruct (parsed_record_lookup content ∅ Hf) as (_ & _ & _ & Hne).
        now contradiction Hne.
      * rewrite (parsed_record_dom content d Hp). exact Hmeta.
Qed.

(** The request of [test_api.py], whose tags are strings, and the same
    request with [null] for its [tag_names]. *)
Lemma deployed_entries_have_one_of_two_shapes_witness :
  (exists app_entry,
     response_slot
       (App.generate_replicas bakery_service length_tokens numbered_uuid4
          (test_api_request 2) (txt "prompt") (txt "sk") (rev themes)
          0%nat empty_ledger)
       (replica_key 2) = Some app_entry
     /\ dom app_entry = record_keys)
  /\ (exists app_entry,
        response_slot
          (App.generate_replicas bakery_service length_tokens numbered_uuid4
             (null_tags_request 2) (txt "prompt") (txt "sk") (rev themes)
             0%nat empty_ledger)
          (replica_key 2) = Some app_entry
        /\ dom app_entry
           = {[ "error"%string; "raw_response"%string ]} ∪ metadata_keys).
Proof.
  split.
  - destruct (deployed_entries_have_one_of_two_shapes bakery_service
                length_tokens numbered_uuid4 (test_api_request 2) (txt "prompt")
                (txt "sk") (rev themes) 0%nat empty_ledger 2%nat
                ltac:(discriminate) ltac:(lia) ltac:(simpl; lia))
      as (app_entry & main_entry & Happ & Hdom & _).
    exists app_entry. split; [exact Happ|exact Hdom].
  - destruct (deployed_entries_have_one_of_two_shapes bakery_service
                length_tokens numbered_uuid4 (null_tags_request 2) (txt "prompt")
                (txt "sk") (rev themes) 0%nat empty_ledger 2%nat
                ltac:(discriminate) ltac:(lia) ltac:(simpl; lia))
      as (app_entry & main_entry & Happ & Hdom & _).
    exists app_entry. split; [exact Happ|exact Hdom].
Defined.

(** ** The original code put into the prompt *)

Lemma last_code_snoc language (code_details : list CodeDetail) d :
  last_code language (code_details ++ [d])
  = if bool_decide (cd_language d = Some language)
    then default [] (cd_code_data d)
    else last_code language code_details.
Proof.
  unfold last_code. rewrite filter_app, filter_cons, filter_nil.
  case_bool_decide as Hd.
  - rewrite decide_True by exact Hd. now rewrite last_snoc.
  - rewrite decide_False by exact Hd. now rewrite app_nil_r.
Qed.

(** X18.  The HTML, CSS and JavaScript texts put into the prompt are those of
    the last entry of each language in the code details of the first
    solution of the request, and empty for a language without entry; later
    solutions are not read. *)
Theorem original_code_is_last_entry_of_each_language :
  forall solutions_metadata : list Solution,
    original_code solutions_metadata
    = (last_code (txt "HTML") (code_details_of solutions_metadata),
       last_code (txt "CSS") (code_details_of solutions_metadata),
       last_code (txt "JAVASCRIPT") (code_details_of solutions_metadata))
    /\ forall solutions others,
         original_code (solutions :: others) = original_code [solutions].
Proof.
  intros solutions_metadata. split; [|reflexivity].
  unfold original_code.
  induction (code_details_of solutions_metadata) as [|d l IH] using rev_ind;
    [reflexivity|].
  rewrite fold_left_app, IH, !last_code_snoc. cbn [fold_left code_step].
  destruct (cd_language d) as [language|]; [|reflexivity].
  repeat case_bool_decide; simplify_eq; reflexivity.
Qed.
